(** * Flaticon dataset generator: scan-and-annotate pipeline

    A shallow embedding of [flaticon_dataset_gen.py] (class
    [FlaticonDatasets]) and the properties of its incremental pipeline:
    path parsing, file enumeration, schema initialisation, the scan pass
    and the annotation loop.

    Conventions.
    - A Python [str] is a [string]: the bytes of the text in UTF-8, for a
      file name the bytes the file system holds. The characters the code
      looks for ('/', '.', '-', the letters of the extensions) are ASCII,
      and an ASCII byte of UTF-8 text is that character and no part of
      another. Where the code compares [str]s ([sorted]), they are
      decoded to their code points first.
    - A [datetime] is an integer timestamp; [datetime.now()] reads a clock
      oracle, one reading per call.
    - SQL [NULL] is [None]; an SQLite table is the list of its rows.
    - A Python exception that the code lets escape is an explicit error
      result; one that the code catches is the branch the handler takes. *)

From Stdlib Require Import List NArith ZArith Lia Bool Arith.
From Stdlib Require Import Ascii String.
From Stdlib Require Import Sorted Permutation.
Import ListNotations.

Local Open Scope string_scope.
Local Open Scope list_scope.

(* ================================================================== *)
(** * Python built-ins used by the script *)
(* ================================================================== *)

Module Py.

(** [sep in s] for a one-character [sep]. *)
Fixpoint contains (sep : ascii) (s : string) : bool :=
  match s with
  | EmptyString => false
  | String c s' => if Ascii.eqb c sep then true else contains sep s'
  end.

(** [s.split(sep)] for a one-character separator: cuts at every
    occurrence, never returns an empty list. *)
Fixpoint split (sep : ascii) (s : string) : list string :=
  match s with
  | EmptyString => [EmptyString]
  | String c s' =>
      if Ascii.eqb c sep then EmptyString :: split sep s'
      else match split sep s' with
           | [] => [String c EmptyString]
           | h :: t => String c h :: t
           end
  end.

(** [sep.join(parts)]. *)
Fixpoint join (sep : ascii) (parts : list string) : string :=
  match parts with
  | [] => EmptyString
  | [p] => p
  | p :: ps => p ++ String sep (join sep ps)
  end.

(** The cut of [s] at its first [sep]: what is before and after it. *)
Fixpoint cut (sep : ascii) (s : string) : option (string * string) :=
  match s with
  | EmptyString => None
  | String c s' =>
      if Ascii.eqb c sep then Some (EmptyString, s')
      else match cut sep s' with
           | Some (b, a) => Some (String c b, a)
           | None => None
           end
  end.

(** The cut of [s] at its last [sep]. *)
Fixpoint rcut (sep : ascii) (s : string) : option (string * string) :=
  match s with
  | EmptyString => None
  | String c s' =>
      match rcut sep s' with
      | Some (b, a) => Some (String c b, a)
      | None => if Ascii.eqb c sep then Some (EmptyString, s') else None
      end
  end.

(** [s.split(sep, 1)]. *)
Definition split1 (sep : ascii) (s : string) : list string :=
  match cut sep s with
  | Some (b, a) => [b; a]
  | None => [s]
  end.

(** [s.rsplit(sep, 1)]. *)
Definition rsplit1 (sep : ascii) (s : string) : list string :=
  match rcut sep s with
  | Some (b, a) => [b; a]
  | None => [s]
  end.

(** [l[i]] with Python's negative indices; [None] is [IndexError]. *)
Definition index {A : Type} (l : list A) (i : Z) : option A :=
  let n := Z.of_nat (List.length l) in
  if (i <? 0)%Z
  then if (0 <=? n + i)%Z then nth_error l (Z.to_nat (n + i)) else None
  else nth_error l (Z.to_nat i).

(** [c.lower()] on a byte: the letters A to Z become a to z. The bytes
    of the other characters are left as they are; the script only asks
    whether the lowered name ends with a dot and ASCII letters, and no
    other character lowers to these. *)
Definition lower_ascii (c : ascii) : ascii :=
  let n := nat_of_ascii c in
  if andb (65 <=? n)%nat (n <=? 90)%nat then ascii_of_nat (n + 32) else c.

(** [s.lower()]. *)
Fixpoint lower (s : string) : string :=
  match s with
  | EmptyString => EmptyString
  | String c s' => String (lower_ascii c) (lower s')
  end.

(** [s.endswith(suffix)]. *)
Fixpoint endswith (s suffix : string) : bool :=
  if String.eqb s suffix then true
  else match s with
       | EmptyString => false
       | String _ s' => endswith s' suffix
       end.

(** [s.endswith(suffixes)] with a tuple of suffixes. *)
Definition endswith_any (s : string) (suffixes : list string) : bool :=
  existsb (endswith s) suffixes.

(** Truth value of an optional string: [None] and [''] are false. *)
Definition truthy (v : option string) : bool :=
  match v with
  | None => false
  | Some EmptyString => false
  | Some _ => true
  end.

(** [os.path.join(a, b)] on POSIX. *)
Definition starts_with_slash (s : string) : bool :=
  match s with
  | String c _ => Ascii.eqb c "/"%char
  | EmptyString => false
  end.

Definition path_join (a b : string) : string :=
  if starts_with_slash b then b
  else if orb (String.eqb a "") (endswith a "/") then a ++ b
  else a ++ "/" ++ b.

(** The bytes of a [str]: file names are the bytes the file system
    holds, text is UTF-8. *)
Definition bytes (s : string) : list N :=
  map N_of_ascii (list_ascii_of_string s).

Definition continuation (b : N) : bool :=
  ((128 <=? b) && (b <=? 191))%N.

(** Well-formed UTF-8 sequences of two, three and four bytes. *)
Definition two_bytes (b c1 : N) : bool :=
  ((194 <=? b) && (b <=? 223))%N && continuation c1.

Definition three_bytes (b c1 c2 : N) : bool :=
  ((((b =? 224) && (160 <=? c1) && (c1 <=? 191))
    || ((225 <=? b) && (b <=? 236) && continuation c1)
    || ((b =? 237) && (128 <=? c1) && (c1 <=? 159))
    || ((238 <=? b) && (b <=? 239) && continuation c1))
   && continuation c2)%N%bool.

Definition four_bytes (b c1 c2 c3 : N) : bool :=
  ((((b =? 240) && (144 <=? c1) && (c1 <=? 191))
    || ((241 <=? b) && (b <=? 243) && continuation c1)
    || ((b =? 244) && (128 <=? c1) && (c1 <=? 143)))
   && continuation c2 && continuation c3)%N%bool.

(** [os.fsdecode]: UTF-8 with the [surrogateescape] handler. A byte
    that starts no well-formed sequence becomes the lone surrogate
    U+DC00 + byte. *)
Fixpoint decode (l : list N) : list N :=
  match l with
  | [] => []
  | b :: r =>
      if (b <? 128)%N then b :: decode r
      else
        match r with
        | c1 :: r1 =>
            if two_bytes b c1
            then ((b - 192) * 64 + (c1 - 128))%N :: decode r1
            else
              match r1 with
              | c2 :: r2 =>
                  if three_bytes b c1 c2
                  then ((b - 224) * 4096 + (c1 - 128) * 64
                        + (c2 - 128))%N :: decode r2
                  else
                    match r2 with
                    | c3 :: r3 =>
                        if four_bytes b c1 c2 c3
                        then ((b - 240) * 262144 + (c1 - 128) * 4096
                              + (c2 - 128) * 64 + (c3 - 128))%N
                             :: decode r3
                        else (56320 + b)%N :: decode r
                    | [] => (56320 + b)%N :: decode r
                    end
              | [] => (56320 + b)%N :: decode r
              end
        | [] => (56320 + b)%N :: decode r
        end
  end.

(** The code points of a [str]. *)
Definition code_points (s : string) : list N := decode (bytes s).

(** [a <= b] on sequences of code points. *)
Fixpoint lex_leb (a b : list N) : bool :=
  match a, b with
  | [], _ => true
  | _ :: _, [] => false
  | x :: a', y :: b' =>
      if (x <? y)%N then true
      else if (x =? y)%N then lex_leb a' b' else false
  end.

(** [a <= b] on [str]: by code point. *)
Definition str_leb (a b : string) : bool :=
  lex_leb (code_points a) (code_points b).

End Py.

(* ================================================================== *)
(** * PathParser: [_parse_image_path] *)
(* ================================================================== *)

Record Metadata := {
  md_collection : string;
  md_type : string;
  md_file : string;
  md_filename : string
}.

(** [None] stands for the [IndexError] of [parts[-3]] on a short list. *)
Definition _parse_image_path (image_path : string) : option Metadata :=
  let parts := Py.split "/"%char image_path in
  match Py.index parts (-3), Py.index parts (-2), Py.index parts (-1) with
  | Some collection_folder, Some type_folder, Some filename =>
      match Py.index (Py.rsplit1 "."%char filename) 0 with
      | Some file_base =>
          Some {| md_collection := collection_folder;
                  md_type := type_folder;
                  md_file := file_base;
                  md_filename := filename |}
      | None => None
      end
  | _, _, _ => None
  end.

(** What [filename.rsplit('.', 1)[0]] is: the file name itself when it
    has no dot, otherwise what stands before its last dot. *)
Definition strips_extension (filename file_base : string) : Prop :=
  (Py.contains "."%char filename = false -> file_base = filename) /\
  (Py.contains "."%char filename = true ->
   exists ext, filename = (file_base ++ String "."%char ext)%string
               /\ Py.contains "."%char ext = false).

(* ================================================================== *)
(** * Stable sorting: Python's [sorted] and SQL's [ORDER BY] *)
(* ================================================================== *)

Section StableSort.

Context {A : Type} (leb : A -> A -> bool).

Fixpoint insert_sorted (x : A) (l : list A) : list A :=
  match l with
  | [] => [x]
  | y :: l' => if leb x y then x :: l else y :: insert_sorted x l'
  end.

Definition stable_sort (l : list A) : list A :=
  fold_right insert_sorted [] l.

End StableSort.

(** [sorted(image_files)]: a stable sort; strings compare by code
    point. *)
Definition sorted (l : list string) : list string :=
  stable_sort Py.str_leb l.

(* ================================================================== *)
(** * Scanner enumeration: [os.walk] and [_get_image_files] *)
(* ================================================================== *)

(** A directory tree: an entry is a file or a directory with its
    entries, in the order the operating system lists them. *)
#[local] Set Warnings "-register-all".

Inductive Entry :=
| EFile (name : string)
| EDir (name : string) (children : list Entry).

Definition entry_name (e : Entry) : string :=
  match e with EFile n => n | EDir n _ => n end.

Definition is_dir (e : Entry) : bool :=
  match e with EFile _ => false | EDir _ _ => true end.

Definition dirnames (es : list Entry) : list string :=
  map entry_name (filter is_dir es).

Definition filenames (es : list Entry) : list string :=
  map entry_name (filter (fun e => negb (is_dir e)) es).

(** [os.walk(top)], top-down: one triple [(root, dirs, files)] per
    directory; walking something that is not a directory yields nothing. *)
Fixpoint walk (top : string) (e : Entry)
  : list (string * list string * list string) :=
  match e with
  | EFile _ => []
  | EDir _ children =>
      (top, dirnames children, filenames children)
      :: flat_map (fun c => walk (Py.path_join top (entry_name c)) c) children
  end.

Definition IMAGE_EXTENSIONS : list string :=
  [".png"; ".jpg"; ".jpeg"; ".gif"; ".bmp"; ".svg"].

Definition is_image_file (file : string) : bool :=
  Py.endswith_any (Py.lower file) IMAGE_EXTENSIONS.

(** The list [image_files] when the two loops are over, before it is
    sorted. *)
Definition collect_image_files (base_folder : string) (tree : Entry)
  : list string :=
  flat_map
    (fun '(root, _, files) =>
       map (Py.path_join root) (filter is_image_file files))
    (walk base_folder tree).

Definition _get_image_files (base_folder : string) (tree : Entry)
  : list string :=
  sorted (collect_image_files base_folder tree).

(** Induction on a tree with the hypothesis on every child. *)
Fixpoint Entry_tree_ind (P : Entry -> Prop)
  (Hfile : forall n, P (EFile n))
  (Hdir : forall n children, Forall P children -> P (EDir n children))
  (e : Entry) : P e :=
  match e with
  | EFile n => Hfile n
  | EDir n children =>
      Hdir n children
        ((fix all (l : list Entry) : Forall P l :=
            match l with
            | [] => Forall_nil P
            | c :: l' =>
                Forall_cons c (Entry_tree_ind P Hfile Hdir c) (all l')
            end) children)
  end.

(** [file_under top e p name]: the directory [e], reached as [top], has
    at some depth a file called [name] whose path, as [os.walk] and
    [os.path.join] build it, is [p]. *)
Inductive file_under : string -> Entry -> string -> string -> Prop :=
| under_here top d children name :
    In (EFile name) children ->
    file_under top (EDir d children) (Py.path_join top name) name
| under_sub top d children c p name :
    In c children ->
    file_under (Py.path_join top (entry_name c)) c p name ->
    file_under top (EDir d children) p name.

(** ** The contract of the enumeration, in its own terms *)

(** [located e dirs name]: the directory [e] holds a file called [name]
    in the directory reached from it through the directories [dirs]. *)
Inductive located : Entry -> list string -> string -> Prop :=
| located_here d children name :
    In (EFile name) children ->
    located (EDir d children) [] name
| located_below d children d' children' dirs name :
    In (EDir d' children') children ->
    located (EDir d' children') dirs name ->
    located (EDir d children) (d' :: dirs) name.

(** The path of a file from a directory: the names of the directories
    gone through and the name of the file, with a '/' between them. *)
Fixpoint rel_path (dirs : list string) (name : string) : string :=
  match dirs with
  | [] => name
  | d :: dirs' => (d ++ "/" ++ rel_path dirs' name)%string
  end.

(** [opens top prefix]: the paths of the entries of the directory whose
    path is [top] start with [prefix], which is [top] when it ends with
    a '/' and [top] followed by '/' otherwise. *)
Inductive opens : string -> string -> Prop :=
| opens_slash s : opens (s ++ "/")%string (s ++ "/")%string
| opens_other s c :
    c <> "/"%char ->
    opens (s ++ String c "")%string (s ++ String c "/")%string.

(** A name as a file system gives it: not empty and without '/'. *)
Definition valid_name (n : string) : Prop :=
  n <> "" /\ forall a b, n <> (a ++ String "/"%char b)%string.

(** An entry as a file system gives it: its name is valid and, when it
    is a directory, no two of its entries have the same name. *)
Inductive well_named : Entry -> Prop :=
| well_named_file n : valid_name n -> well_named (EFile n)
| well_named_dir n children :
    valid_name n ->
    NoDup (map entry_name children) ->
    Forall well_named children ->
    well_named (EDir n children).

(** The same of a tree below its root (the root itself is named by the
    path it is reached by). *)
Definition listing_ok (tree : Entry) : Prop :=
  match tree with
  | EFile _ => True
  | EDir _ children =>
      NoDup (map entry_name children) /\ Forall well_named children
  end.

(** The recognised extensions, as the contract lists them. *)
Definition RECOGNISED_EXTENSIONS : list string :=
  ["png"; "jpg"; "jpeg"; "gif"; "bmp"; "svg"].

(** [uppercase_of u l]: [u] is one of the letters A to Z (codes 65 to
    90) and [l] the same letter among a to z (32 further). *)
Definition uppercase_of (u l : ascii) : Prop :=
  exists k : nat,
    (65 <= k <= 90)%nat /\ nat_of_ascii u = k
    /\ nat_of_ascii l = (k + 32)%nat.

(** Two characters that are the same up to the case of a letter. *)
Definition same_letter (a b : ascii) : Prop :=
  a = b \/ uppercase_of a b \/ uppercase_of b a.

Definition same_up_to_case (s t : string) : Prop :=
  Forall2 same_letter (list_ascii_of_string s) (list_ascii_of_string t).

(** [name] ends with a dot and the extension [ext], up to the case of
    the letters. *)
Definition has_extension_ci (name ext : string) : Prop :=
  exists stem tail,
    name = (stem ++ tail)%string
    /\ same_up_to_case tail (String "."%char ext).

Definition recognised_image_name (name : string) : Prop :=
  exists ext, In ext RECOGNISED_EXTENSIONS /\ has_extension_ci name ext.

(** ** The order of [str], in its own terms *)

(** [utf8 c bs]: the bytes [bs] are the UTF-8 form of the code point
    [c], a scalar value of Unicode. *)
Definition utf8 (c : N) (bs : list N) : Prop :=
  ((c < 128 /\ bs = [c])
   \/ (128 <= c < 2048
       /\ bs = [192 + c / 64; 128 + c mod 64])
   \/ (2048 <= c < 65536 /\ ~ (55296 <= c < 57344)
       /\ bs = [224 + c / 4096; 128 + (c / 64) mod 64; 128 + c mod 64])
   \/ (65536 <= c < 1114112
       /\ bs = [240 + c / 262144; 128 + (c / 4096) mod 64;
                128 + (c / 64) mod 64; 128 + c mod 64]))%N.

(** [decodes bs cs]: [os.fsdecode] makes the code points [cs] of the
    bytes [bs]. A byte at which no UTF-8 form starts stands for the lone
    surrogate U+DC00 + byte. *)
Inductive decodes : list N -> list N -> Prop :=
| decodes_nil : decodes [] []
| decodes_utf8 c bs rest cs :
    utf8 c bs -> decodes rest cs -> decodes (bs ++ rest) (c :: cs)
| decodes_stray b rest cs :
    (forall c bs rest', b :: rest = bs ++ rest' -> ~ utf8 c bs) ->
    decodes rest cs ->
    decodes (b :: rest) ((56320 + b)%N :: cs).

(** [lex_le a b]: the sequence [a] comes before [b], or is [b], in the
    lexicographic order. *)
Inductive lex_le : list N -> list N -> Prop :=
| lex_le_nil b : lex_le [] b
| lex_le_lt x y a b : (x < y)%N -> lex_le (x :: a) (y :: b)
| lex_le_eq x a b : lex_le a b -> lex_le (x :: a) (x :: b).

(** [str_le a b]: [a <= b] in Python, for two [str]: the code points of
    [a] come before those of [b], or are the same. *)
Definition str_le (a b : string) : Prop :=
  exists ca cb,
    decodes (Py.bytes a) ca /\ decodes (Py.bytes b) cb /\ lex_le ca cb.

(** The [str] whose bytes are given. *)
Definition of_bytes (l : list N) : string :=
  string_of_list_ascii (map ascii_of_N l).

(* ================================================================== *)
(** * RecordStore: the two tables *)
(* ================================================================== *)

(** A row of [flaticon_images]. [skipped] is [INTEGER DEFAULT 0]: it is
    nullable and holds any integer. *)
Record ImageRecord := {
  id : Z;
  collection : string;
  type : string;
  file : string;
  filename : string;
  image_path : string;
  model : option string;
  text : option string;
  skipped : option Z;
  created_when : Z;
  scanned_when : Z;
  updated_when : option Z
}.

(** The row of [processing_count] (its key is fixed to 0 by the CHECK). *)
Record CountRow := {
  pc_image_path : option string;
  pc_updated_when : option Z
}.

(** The database once [_init_database] has run: both tables exist and
    [flaticon_images] has its [skipped] column. [sqlite_sequence] is the
    AUTOINCREMENT counter of [flaticon_images]; [processing_count] holds
    at most one row. *)
Record Store := {
  flaticon_images : list ImageRecord;
  sqlite_sequence : Z;
  processing_count : option CountRow
}.

(** A row of a [flaticon_images] table created before the [skipped]
    column was introduced. *)
Record LegacyRecord := {
  l_id : Z;
  l_collection : string;
  l_type : string;
  l_file : string;
  l_filename : string;
  l_image_path : string;
  l_model : option string;
  l_text : option string;
  l_created_when : Z;
  l_scanned_when : Z;
  l_updated_when : option Z
}.

Inductive ImagesTable :=
| LegacyImages (rows : list LegacyRecord) (seq_value : Z)
| CurrentImages (rows : list ImageRecord) (seq_value : Z).

(** The database file as [_init_database] may find it: each table may be
    absent ([None]). *)
Record Database := {
  db_flaticon_images : option ImagesTable;
  db_processing_count : option (option CountRow)
}.

Definition as_database (s : Store) : Database :=
  {| db_flaticon_images :=
       Some (CurrentImages (flaticon_images s) (sqlite_sequence s));
     db_processing_count := Some (processing_count s) |}.

(** [ALTER TABLE ... ADD COLUMN skipped INTEGER DEFAULT 0] on a row. *)
Definition add_skipped_column (r : LegacyRecord) : ImageRecord :=
  {| id := l_id r; collection := l_collection r; type := l_type r;
     file := l_file r; filename := l_filename r;
     image_path := l_image_path r; model := l_model r; text := l_text r;
     skipped := Some 0%Z;
     created_when := l_created_when r; scanned_when := l_scanned_when r;
     updated_when := l_updated_when r |}.

(** The columns of a row other than [skipped]. *)
Definition legacy_columns (r : ImageRecord) : LegacyRecord :=
  {| l_id := id r; l_collection := collection r; l_type := type r;
     l_file := file r; l_filename := filename r;
     l_image_path := image_path r; l_model := model r; l_text := text r;
     l_created_when := created_when r; l_scanned_when := scanned_when r;
     l_updated_when := updated_when r |}.

(** [_init_database]: CREATE TABLE IF NOT EXISTS, the [ALTER TABLE] whose
    "duplicate column" error is swallowed, CREATE TABLE IF NOT EXISTS for
    the counter and INSERT OR IGNORE of its row. *)
Definition _init_database (db : Database) : Store :=
  let '(rows, seq_value) :=
    match db_flaticon_images db with
    | None => ([], 0%Z)
    | Some (LegacyImages rows seq_value) =>
        (map add_skipped_column rows, seq_value)
    | Some (CurrentImages rows seq_value) => (rows, seq_value)
    end in
  let count_row :=
    match db_processing_count db with
    | Some (Some row) => row
    | Some None | None =>
        {| pc_image_path := None; pc_updated_when := None |}
    end in
  {| flaticon_images := rows;
     sqlite_sequence := seq_value;
     processing_count := Some count_row |}.

(** The instance: [self.base_folder], [self.db_file], [self.model]. *)
Record FlaticonDatasets := {
  base_folder : string;
  db_file : string;
  self_model : string
}.

Definition DEFAULT_BASE_FOLDER : string := "../.data/flaticon.com/target/train".
Definition DEFAULT_DB_FILE : string := "../.data/flaticon_vision_text.sqlite3".
Definition DEFAULT_MODEL : string := "ollama/qwen2.5vl".
Definition DEFAULT_BATCH_SIZE : Z := 10.

(** [x or default] on an optional string. *)
Definition or_default (x : option string) (default : string) : string :=
  match x with
  | Some (String c s) => String c s
  | Some EmptyString | None => default
  end.

(** [__init__]: the instance and the initialised database. *)
Definition __init__ (base_folder db_file : option string) (db : Database)
  : FlaticonDatasets * Store :=
  ({| base_folder := or_default base_folder DEFAULT_BASE_FOLDER;
      db_file := or_default db_file DEFAULT_DB_FILE;
      self_model := DEFAULT_MODEL |},
   _init_database db).

(* ================================================================== *)
(** * The run: environment, printed lines, durable commits *)
(* ================================================================== *)

(** What the outside world answers. [env_clock n] is the value of the
    call number [n] of [datetime.now()]. [env_read p] is the base64 text
    of file [p], [None] when opening or reading it raises.
    [env_completion n m prompt image] is the outcome of call number [n]
    of [litellm.completion]: [None] when the call (or reading
    [choices[0].message.content]) raises, otherwise the content, which
    may itself be [None]. *)
Record Env := {
  env_clock : nat -> Z;
  env_read : string -> option string;
  env_completion : nat -> string -> string -> string -> option (option string)
}.

(** The lines the script prints. *)
Inductive Msg :=
| MStarting
| MScanning (n : nat)
| MBatch (k total : nat)
| MScanComplete
| MFound (n : nat)
| MProcessing (record_id : Z) (path : string)
| MImageError (path : string)
| MProgress (processed_count : Z)
| MSkipped (record_id : Z)
| MRecordError (record_id : Z)
| MComplete (processed_count : Z)
| MAllComplete.

(** The state a run threads: the durable database, the number of clock
    readings and provider calls made so far, what was printed (oldest
    first) and the database after each commit (oldest first). *)
Record World := {
  w_store : Store;
  w_now : nat;
  w_calls : nat;
  w_out : list Msg;
  w_commits : list Store
}.

Definition start (s : Store) : World :=
  {| w_store := s; w_now := 0; w_calls := 0; w_out := []; w_commits := [] |}.

Definition print (m : Msg) (w : World) : World :=
  {| w_store := w_store w; w_now := w_now w; w_calls := w_calls w;
     w_out := w_out w ++ [m]; w_commits := w_commits w |}.

(** [conn.commit()] of the working copy [s]. *)
Definition commit (s : Store) (w : World) : World :=
  {| w_store := s; w_now := w_now w; w_calls := w_calls w;
     w_out := w_out w; w_commits := w_commits w ++ [s] |}.

(** [datetime.now()]. *)
Definition datetime_now (env : Env) (w : World) : Z * World :=
  (env_clock env (w_now w),
   {| w_store := w_store w; w_now := S (w_now w); w_calls := w_calls w;
      w_out := w_out w; w_commits := w_commits w |}).

(** A method returns normally or lets an exception escape. *)
Inductive Result :=
| Returned (w : World)
| Raised (w : World).

Definition world_of (r : Result) : World :=
  match r with Returned w => w | Raised w => w end.

(* ================================================================== *)
(** * Scanner: [_scan_and_update_database] *)
(* ================================================================== *)

Definition set_scanned_when (t : Z) (r : ImageRecord) : ImageRecord :=
  {| id := id r; collection := collection r; type := type r;
     file := file r; filename := filename r; image_path := image_path r;
     model := model r; text := text r; skipped := skipped r;
     created_when := created_when r; scanned_when := t;
     updated_when := updated_when r |}.

(** [SELECT id FROM flaticon_images WHERE image_path = ?], [fetchone()]. *)
Definition select_id_by_path (rows : list ImageRecord) (p : string)
  : option Z :=
  option_map id (find (fun r => String.eqb (image_path r) p) rows).

(** [UPDATE flaticon_images SET scanned_when = ? WHERE image_path = ?]. *)
Definition update_scanned_when (t : Z) (p : string)
  (rows : list ImageRecord) : list ImageRecord :=
  map (fun r => if String.eqb (image_path r) p
                then set_scanned_when t r else r) rows.

Definition max_rowid (rows : list ImageRecord) : Z :=
  fold_right (fun r m => Z.max (id r) m) 0%Z rows.

(** The 7-column [INSERT]: the key comes from AUTOINCREMENT, [model],
    [text] and [updated_when] are NULL and [skipped] takes its default.
    Keys are unbounded here; SQLite's end at 2^63 - 1, after which the
    engine refuses the [INSERT]. *)
Definition insert_image (metadata : Metadata) (p : string) (t : Z)
  (s : Store) : Store :=
  let new_id :=
    (Z.max (sqlite_sequence s) (max_rowid (flaticon_images s)) + 1)%Z in
  {| flaticon_images :=
       flaticon_images s ++
       [ {| id := new_id;
            collection := md_collection metadata;
            type := md_type metadata;
            file := md_file metadata;
            filename := md_filename metadata;
            image_path := p;
            model := None; text := None; skipped := Some 0%Z;
            created_when := t; scanned_when := t;
            updated_when := None |} ];
     sqlite_sequence := new_id;
     processing_count := processing_count s |}.

(** The body of the inner loop on the working copy [s] of the open
    transaction; [None] is the [IndexError] of the parser, the one
    exception of the loop body that the layout of the tree decides. The
    errors of the storage engine (a path that cannot be bound as UTF-8
    text, a full disk, an exhausted AUTOINCREMENT) end the pass the same
    way; they are not modelled, so the program raises wherever the model
    does, and may raise where the model returns. *)
Definition scan_path (current_time : Z) (s : Store) (p : string)
  : option Store :=
  match _parse_image_path p with
  | None => None
  | Some metadata =>
      match select_id_by_path (flaticon_images s) p with
      | Some _ =>
          Some {| flaticon_images :=
                    update_scanned_when current_time p (flaticon_images s);
                  sqlite_sequence := sqlite_sequence s;
                  processing_count := processing_count s |}
      | None => Some (insert_image metadata p current_time s)
      end
  end.

Fixpoint scan_batch (current_time : Z) (s : Store) (batch : list string)
  : option Store :=
  match batch with
  | [] => Some s
  | p :: rest =>
      match scan_path current_time s p with
      | None => None
      | Some s' => scan_batch current_time s' rest
      end
  end.

(** [range(0, n, step)]. *)
Definition range_step (n step : nat) : list nat :=
  map (fun k => k * step) (seq 0 ((n + step - 1) / step)).

(** [l[i:j]]. *)
Definition slice {A : Type} (l : list A) (i j : nat) : list A :=
  firstn (j - i) (skipn i l).

Definition SCAN_BATCH_SIZE : nat := 100.

(** The outer loop. An exception inside a batch rolls the open
    transaction back: the database stays at the last commit, which is
    [w_store w]. *)
Fixpoint scan_loop (current_time : Z) (image_files : list string)
  (starts : list nat) (w : World) : Result :=
  match starts with
  | [] => Returned (print MScanComplete w)
  | i :: rest =>
      let batch := slice image_files i (i + SCAN_BATCH_SIZE) in
      match scan_batch current_time (w_store w) batch with
      | None => Raised w
      | Some s' =>
          scan_loop current_time image_files rest
            (print (MBatch (i / SCAN_BATCH_SIZE + 1)
                      ((List.length image_files + SCAN_BATCH_SIZE - 1)
                       / SCAN_BATCH_SIZE))
               (commit s' w))
      end
  end.

Definition _scan_and_update_database (env : Env) (self : FlaticonDatasets)
  (tree : Entry) (w : World) : Result :=
  let image_files := _get_image_files (base_folder self) tree in
  let '(current_time, w) := datetime_now env w in
  let w := print (MScanning (List.length image_files)) w in
  scan_loop current_time image_files
    (range_step (List.length image_files) SCAN_BATCH_SIZE) w.

(* ================================================================== *)
(** * Annotator: [_process_unprocessed_records] *)
(* ================================================================== *)

(** [WHERE updated_when IS NULL AND skipped = 0]; a NULL [skipped]
    makes the comparison NULL and the row is left out. *)
Definition pending (r : ImageRecord) : bool :=
  match updated_when r, skipped r with
  | None, Some z => (z =? 0)%Z
  | _, _ => false
  end.

Definition id_leb (a b : ImageRecord) : bool := (id a <=? id b)%Z.

(** The [SELECT id, image_path ... ORDER BY id] and its [fetchall()]. *)
Definition select_unprocessed (rows : list ImageRecord)
  : list (Z * string) :=
  map (fun r => (id r, image_path r))
      (stable_sort id_leb (filter pending rows)).

Definition set_annotation (m txt : string) (t : Z) (r : ImageRecord)
  : ImageRecord :=
  {| id := id r; collection := collection r; type := type r;
     file := file r; filename := filename r; image_path := image_path r;
     model := Some m; text := Some txt; skipped := skipped r;
     created_when := created_when r; scanned_when := scanned_when r;
     updated_when := Some t |}.

(** [UPDATE flaticon_images SET model = ?, text = ?, updated_when = ?
    WHERE id = ?]. *)
Definition update_annotation (m txt : string) (t : Z) (record_id : Z)
  (s : Store) : Store :=
  {| flaticon_images :=
       map (fun r => if (id r =? record_id)%Z
                     then set_annotation m txt t r else r)
           (flaticon_images s);
     sqlite_sequence := sqlite_sequence s;
     processing_count := processing_count s |}.

(** [UPDATE processing_count SET image_path = ?, updated_when = ?
    WHERE id = 0]: changes the row when there is one. *)
Definition update_processing_count (p : string) (t : Z) (s : Store)
  : Store :=
  {| flaticon_images := flaticon_images s;
     sqlite_sequence := sqlite_sequence s;
     processing_count :=
       option_map (fun _ => {| pc_image_path := Some p;
                               pc_updated_when := Some t |})
                  (processing_count s) |}.

(** [_load_last_processed]: a NULL or empty path reads as [None]. *)
Definition _load_last_processed (s : Store) : option string :=
  match processing_count s with
  | Some row =>
      if Py.truthy (pc_image_path row) then pc_image_path row else None
  | None => None
  end.

Definition _save_last_processed (env : Env) (p : string) (w : World)
  : World :=
  let '(current_time, w) := datetime_now env w in
  commit (update_processing_count p current_time (w_store w)) w.

Definition dquote : string := String (ascii_of_nat 34) EmptyString.
Definition newline : string := String (ascii_of_nat 10) EmptyString.

(** [_create_prompt]; [None] is the [IndexError] of the parser. *)
Definition _create_prompt (image_path : string) : option string :=
  match _parse_image_path image_path with
  | None => None
  | Some metadata =>
      let collection_parts :=
        Py.split1 "-"%char (md_collection metadata) in
      match Py.index collection_parts 0 with
      | None => None
      | Some collection_num =>
          let collection_name :=
            if (1 <? List.length collection_parts)%nat
            then nth 1 collection_parts EmptyString
            else EmptyString in
          Some (newline
            ++ "This is from Flaticon.com Collection #" ++ collection_num
            ++ " " ++ dquote ++ collection_name ++ dquote ++ ", "
            ++ md_file metadata ++ " " ++ md_type metadata ++ "." ++ newline
            ++ "Describe what's in this image in a very very concise way, "
            ++ "pay attention to the designer's original intention for a "
            ++ md_file metadata ++ " logo," ++ newline
            ++ "under the collection of " ++ dquote ++ collection_name
            ++ dquote ++ "), only mention if details like color scheme, "
            ++ "lines, layout, style, etc warrant mentioning. " ++ newline
            ++ "Don't use full sentence, more like a description from an "
            ++ "art gallery description for a painting." ++ newline)%string
      end
  end.

Definition called (w : World) : World :=
  {| w_store := w_store w; w_now := w_now w; w_calls := S (w_calls w);
     w_out := w_out w; w_commits := w_commits w |}.

(** [_process_image]: every exception of the [try] body (unreadable
    file, malformed path, failing provider) prints a line and yields
    [None]. *)
Definition _process_image (env : Env) (self : FlaticonDatasets)
  (image_path : string) (w : World) : option string * World :=
  match env_read env image_path with
  | None => (None, print (MImageError image_path) w)
  | Some base64_image =>
      match _create_prompt image_path with
      | None => (None, print (MImageError image_path) w)
      | Some prompt_text =>
          match env_completion env (w_calls w) (self_model self)
                  prompt_text base64_image with
          | None => (None, print (MImageError image_path) (called w))
          | Some content => (content, called w)
          end
      end
  end.

(** One iteration of the loop over [unprocessed]; the loop state is the
    world and [processed_count]. With [batch_size = 0] the modulo raises
    [ZeroDivisionError], which the loop's handler prints. *)
Definition process_record (env : Env) (self : FlaticonDatasets)
  (batch_size : Z) (st : World * Z) (rec : Z * string) : World * Z :=
  let '(w, processed_count) := st in
  let '(record_id, image_path) := rec in
  let w := print (MProcessing record_id image_path) w in
  let '(vision_text, w) := _process_image env self image_path w in
  match vision_text with
  | Some (String c txt) =>
      let '(current_time, w) := datetime_now env w in
      let w :=
        commit (update_annotation (self_model self) (String c txt)
                  current_time record_id (w_store w)) w in
      let processed_count := (processed_count + 1)%Z in
      let w := _save_last_processed env image_path w in
      if (batch_size =? 0)%Z
      then (print (MRecordError record_id) w, processed_count)
      else if (processed_count mod batch_size =? 0)%Z
           then (print (MProgress processed_count) w, processed_count)
           else (w, processed_count)
  | Some EmptyString | None =>
      (print (MSkipped record_id) w, processed_count)
  end.

Definition process_records (env : Env) (self : FlaticonDatasets)
  (batch_size : Z) (unprocessed : list (Z * string)) (st : World * Z)
  : World * Z :=
  fold_left (process_record env self batch_size) unprocessed st.

Definition _process_unprocessed_records (env : Env)
  (self : FlaticonDatasets) (batch_size : option Z) (w : World) : World :=
  let batch_size :=
    match batch_size with None => DEFAULT_BATCH_SIZE | Some b => b end in
  let unprocessed := select_unprocessed (flaticon_images (w_store w)) in
  let w := print (MFound (List.length unprocessed)) w in
  let '(w, processed_count) :=
    process_records env self batch_size unprocessed (w, 0%Z) in
  print (MComplete processed_count) w.

(* ================================================================== *)
(** * Pipeline: [Generate] *)
(* ================================================================== *)

Definition Generate (env : Env) (self : FlaticonDatasets) (tree : Entry)
  (batch_size : option Z) (w : World) : Result :=
  let batch_size :=
    match batch_size with None => DEFAULT_BATCH_SIZE | Some b => b end in
  let w := print MStarting w in
  match _scan_and_update_database env self tree w with
  | Raised w => Raised w
  | Returned w =>
      Returned (print MAllComplete
                  (_process_unprocessed_records env self (Some batch_size) w))
  end.

(* ================================================================== *)
(** * Vocabulary of the properties *)
(* ================================================================== *)

Definition paths (rows : list ImageRecord) : list string :=
  map image_path rows.

Definition ids (rows : list ImageRecord) : list Z := map id rows.

(** The constraints of the schema: [id] is the primary key and
    [image_path] is UNIQUE. *)
Definition keys_unique (rows : list ImageRecord) : Prop :=
  NoDup (ids rows) /\ NoDup (paths rows).

(** What a scan pass at time [t] over [files] makes of an existing row:
    the row with a new [scanned_when] when its path was seen, the row
    itself otherwise. *)
Definition refresh (t : Z) (files : list string) (r : ImageRecord)
  : ImageRecord :=
  if existsb (String.eqb (image_path r)) files
  then set_scanned_when t r else r.

(** A row as a scan pass at time [t] inserts it. *)
Definition fresh_row (t : Z) (r : ImageRecord) : Prop :=
  created_when r = t /\ scanned_when r = t /\ updated_when r = None
  /\ skipped r = Some 0%Z /\ model r = None /\ text r = None
  /\ _parse_image_path (image_path r)
     = Some {| md_collection := collection r; md_type := type r;
               md_file := file r; md_filename := filename r |}.


(** Two rows that differ at most in [scanned_when]. *)
Definition same_but_scanned_when (r r' : ImageRecord) : Prop :=
  r' = set_scanned_when (scanned_when r') r.

(** A row with its [scanned_when] masked: two rows with the same mask
    agree on every other column. *)
Definition mask_scanned_when (r : ImageRecord) : ImageRecord :=
  {| id := id r; collection := collection r; type := type r;
     file := file r; filename := filename r; image_path := image_path r;
     model := model r; text := text r; skipped := skipped r;
     created_when := created_when r; scanned_when := 0;
     updated_when := updated_when r |}.

(** [same_other_columns r r']: the rows [r] and [r'] hold the same value
    in each of the eleven columns other than [scanned_when]. *)
Definition same_other_columns (r r' : ImageRecord) : Prop :=
  id r' = id r
  /\ collection r' = collection r
  /\ type r' = type r
  /\ file r' = file r
  /\ filename r' = filename r
  /\ image_path r' = image_path r
  /\ model r' = model r
  /\ text r' = text r
  /\ skipped r' = skipped r
  /\ created_when r' = created_when r
  /\ updated_when r' = updated_when r.

(* ================================================================== *)
(** * A small concrete run, used to exercise the statements *)
(* ================================================================== *)

Module Sample.

Definition tree : Entry :=
  EDir "train"
    [EDir "coll-42-shapes"
       [EDir "png" [EFile "star.png"; EFile "moon.PNG"; EFile "notes.txt"]]].

Definition self : FlaticonDatasets :=
  fst (__init__ (Some "train") None
         {| db_flaticon_images := None; db_processing_count := None |}).

Definition store0 : Store :=
  snd (__init__ (Some "train") None
         {| db_flaticon_images := None; db_processing_count := None |}).

(** The clock ticks by one from 100; the moon file cannot be read; the
    provider answers every call. *)
Definition env : Env :=
  {| env_clock := fun n => (100 + Z.of_nat n)%Z;
     env_read := fun p =>
       if String.eqb p "train/coll-42-shapes/png/moon.PNG"
       then None else Some "aGVsbG8=";
     env_completion := fun _ _ _ _ => Some (Some "five-pointed star") |}.

Definition scanned : World :=
  world_of (_scan_and_update_database env self tree (start store0)).

End Sample.

(* ================================================================== *)
(** * Vocabulary of the annotation run *)
(* ================================================================== *)

(** The records a run went through, in order, as its output shows them:
    one "Processing record" line per iteration. *)
Definition processed (out : list Msg) : list (Z * string) :=
  flat_map (fun m => match m with
                     | MProcessing record_id p => [(record_id, p)]
                     | _ => []
                     end) out.

(** The lines that depend on the batch size: the progress line and the
    line of the handler that catches the division by zero. *)
Definition is_cadence_line (m : Msg) : bool :=
  match m with
  | MProgress _ | MRecordError _ => true
  | _ => false
  end.

(** The state of the loop of [_process_unprocessed_records] once it has
    gone through the records [done]. *)
Definition loop_state (env : Env) (self : FlaticonDatasets)
  (batch_size : Z) (w : World) (done : list (Z * string)) : World * Z :=
  process_records env self batch_size done
    (print (MFound (List.length
                      (select_unprocessed (flaticon_images (w_store w))))) w,
     0%Z).

(** What [_process_image] returns for [image_path] in world [w]. *)
Definition vision_text (env : Env) (self : FlaticonDatasets)
  (image_path : string) (w : World) : option string :=
  fst (_process_image env self image_path w).

(** The causes of a failed captioning the contract names: the file
    cannot be read, the provider raises, or it returns nothing. *)
Inductive processing_fails (env : Env) (self : FlaticonDatasets)
  (image_path : string) (w : World) : Prop :=
| fails_unreadable :
    env_read env image_path = None ->
    processing_fails env self image_path w
| fails_provider_error base64_image prompt_text :
    env_read env image_path = Some base64_image ->
    _create_prompt image_path = Some prompt_text ->
    env_completion env (w_calls w) (self_model self) prompt_text
      base64_image = None ->
    processing_fails env self image_path w
| fails_empty base64_image prompt_text content :
    env_read env image_path = Some base64_image ->
    _create_prompt image_path = Some prompt_text ->
    env_completion env (w_calls w) (self_model self) prompt_text
      base64_image = Some content ->
    Py.truthy content = false ->
    processing_fails env self image_path w.

(** No row with key [i] is pending. *)
Definition terminal_id (i : Z) (rows : list ImageRecord) : Prop :=
  forall r, In r rows -> id r = i -> pending r = false.

(** The rows behind the snapshot: the pending rows, in order of id. *)
Definition pending_rows (rows : list ImageRecord) : list ImageRecord :=
  stable_sort id_leb (filter pending rows).


(** Two worlds that agree on everything but the lines that depend on
    the batch size. *)
Definition same_but_cadence (w1 w2 : World) : Prop :=
  w_store w1 = w_store w2
  /\ w_commits w1 = w_commits w2
  /\ w_now w1 = w_now w2
  /\ w_calls w1 = w_calls w2
  /\ filter (fun m => negb (is_cadence_line m)) (w_out w1)
     = filter (fun m => negb (is_cadence_line m)) (w_out w2).

Definition same_result_but_cadence (r1 r2 : Result) : Prop :=
  match r1, r2 with
  | Returned w1, Returned w2 => same_but_cadence w1 w2
  | Raised w1, Raised w2 => same_but_cadence w1 w2
  | _, _ => False
  end.

(** Whether a method returned normally. *)
Definition returned (r : Result) : bool :=
  match r with Returned _ => true | Raised _ => false end.

(* ================================================================== *)
(** * Vocabulary of the further properties *)
(* ================================================================== *)

(** The text of the prompt for a collection number and name, a file
    base name and a type. *)
Definition prompt_text (collection_num collection_name file_base
  type_folder : string) : string :=
  (newline
   ++ "This is from Flaticon.com Collection #" ++ collection_num
   ++ " " ++ dquote ++ collection_name ++ dquote ++ ", "
   ++ file_base ++ " " ++ type_folder ++ "." ++ newline
   ++ "Describe what's in this image in a very very concise way, "
   ++ "pay attention to the designer's original intention for a "
   ++ file_base ++ " logo," ++ newline
   ++ "under the collection of " ++ dquote ++ collection_name
   ++ dquote ++ "), only mention if details like color scheme, "
   ++ "lines, layout, style, etc warrant mentioning. " ++ newline
   ++ "Don't use full sentence, more like a description from an "
   ++ "art gallery description for a painting." ++ newline)%string.

(** A path the parser accepts: at least three segments. *)
Definition well_laid_out (p : string) : Prop :=
  (3 <= List.length (Py.split "/"%char p))%nat.

(** A row with the three columns the annotator writes masked: two rows
    with the same mask agree on every other column. *)
Definition mask_annotation (r : ImageRecord) : ImageRecord :=
  {| id := id r; collection := collection r; type := type r;
     file := file r; filename := filename r; image_path := image_path r;
     model := None; text := None; skipped := skipped r;
     created_when := created_when r; scanned_when := scanned_when r;
     updated_when := None |}.

(* ================================================================== *)
(** * Facts about the Python built-ins *)
(* ================================================================== *)

Lemma split_nonempty (sep : ascii) (s : string) : Py.split sep s <> [].
Proof.
  destruct s as [|c s]; simpl; [discriminate|].
  destruct (Ascii.eqb c sep); [discriminate|].
  destruct (Py.split sep s); discriminate.
Qed.

Lemma join_cons (sep : ascii) (p : string) (ps : list string) :
  ps <> [] -> Py.join sep (p :: ps) = (p ++ String sep (Py.join sep ps))%string.
Proof. destruct ps; [congruence | reflexivity]. Qed.

(** Joining the segments of a split gives the string back. *)
Lemma join_split (sep : ascii) (s : string) :
  Py.join sep (Py.split sep s) = s.
Proof.
  induction s as [|c s IH]; [reflexivity|].
  simpl Py.split. destruct (Ascii.eqb_spec c sep) as [->|Hne].
  - rewrite join_cons by apply split_nonempty. simpl. now rewrite IH.
  - pose proof (split_nonempty sep s) as Hnil.
    destruct (Py.split sep s) as [|h t] eqn:E; [congruence|].
    destruct t as [|h' t'].
    + simpl in *. now rewrite IH.
    + rewrite join_cons in IH by discriminate.
      rewrite join_cons by discriminate.
      rewrite <- IH. reflexivity.
Qed.

(** No segment of a split holds the separator. *)
Lemma split_no_sep (sep : ascii) (s : string) :
  Forall (fun p => Py.contains sep p = false) (Py.split sep s).
Proof.
  induction s as [|c s IH]; simpl.
  - repeat constructor.
  - destruct (Ascii.eqb c sep) eqn:E.
    + constructor; [reflexivity | exact IH].
    + destruct (Py.split sep s) as [|h t]; inversion IH; subst;
        constructor; simpl; try rewrite E; auto.
Qed.

Lemma rcut_none (sep : ascii) (s : string) :
  Py.rcut sep s = None <-> Py.contains sep s = false.
Proof.
  induction s as [|c s IH]; simpl; [tauto|].
  destruct (Py.rcut sep s) as [[b a]|].
  - destruct (Ascii.eqb c sep); split; try discriminate.
    intros H. apply IH in H. discriminate.
  - destruct (Ascii.eqb c sep); split; try discriminate; auto.
    intros _. now apply IH.
Qed.

(** [rcut] cuts at the last separator: nothing after it holds one. *)
Lemma rcut_some (sep : ascii) (s b a : string) :
  Py.rcut sep s = Some (b, a) ->
  s = (b ++ String sep a)%string /\ Py.contains sep a = false.
Proof.
  revert b a. induction s as [|c s IH]; simpl; intros b a H; [discriminate|].
  destruct (Py.rcut sep s) as [[b' a']|] eqn:E.
  - inversion H; subst. destruct (IH b' a eq_refl) as [-> Ha].
    split; [reflexivity | exact Ha].
  - destruct (Ascii.eqb_spec c sep) as [->|]; [|discriminate].
    inversion H; subst. split; [reflexivity | now apply rcut_none].
Qed.

Lemma contains_app (sep : ascii) (a b : string) :
  Py.contains sep (a ++ b) = Py.contains sep a || Py.contains sep b.
Proof.
  induction a as [|c a IH]; simpl; [reflexivity|].
  destruct (Ascii.eqb c sep); [reflexivity | exact IH].
Qed.

Lemma index_neg_short {A : Type} (l : list A) (k : nat) :
  (List.length l < k)%nat -> Py.index l (- Z.of_nat k) = None.
Proof.
  intros H. unfold Py.index.
  destruct (Z.ltb_spec (- Z.of_nat k) 0); [|lia].
  destruct (Z.leb_spec 0 (Z.of_nat (List.length l) + - Z.of_nat k)); [lia|].
  reflexivity.
Qed.

Lemma index_neg_app {A : Type} (front back : list A) (j : nat) :
  (j < List.length back)%nat ->
  Py.index (front ++ back) (Z.of_nat j - Z.of_nat (List.length back))
  = nth_error back j.
Proof.
  intros H. unfold Py.index.
  destruct (Z.ltb_spec (Z.of_nat j - Z.of_nat (List.length back)) 0); [|lia].
  rewrite length_app.
  destruct (Z.leb_spec 0 (Z.of_nat (List.length front + List.length back)
               + (Z.of_nat j - Z.of_nat (List.length back)))); [|lia].
  replace (Z.to_nat _) with (List.length front + j)%nat by lia.
  rewrite nth_error_app2 by lia. f_equal. lia.
Qed.

Lemma last_three {A : Type} (l : list A) :
  (3 <= List.length l)%nat ->
  exists front a b c, l = front ++ [a; b; c].
Proof.
  intros H. exists (firstn (List.length l - 3) l).
  pose proof (firstn_skipn (List.length l - 3) l) as E.
  pose proof (length_skipn (List.length l - 3) l) as L.
  destruct (skipn (List.length l - 3) l) as [|a [|b [|c [|d t]]]];
    simpl in L; try lia.
  exists a, b, c. now rewrite E.
Qed.

(* ================================================================== *)
(** * PathParser *)
(* ================================================================== *)

Example parse_doc_example :
  _parse_image_path
    "../.data/flaticon.com/_corrupt/train/134332-business-set/png/atm-1.png"
  = Some {| md_collection := "134332-business-set"; md_type := "png";
            md_file := "atm-1"; md_filename := "atm-1.png" |}.
Proof. reflexivity. Qed.

Example parse_two_segments : _parse_image_path "png/atm-1.png" = None.
Proof. reflexivity. Qed.

Example parse_two_dots :
  option_map md_file (_parse_image_path "a/b/x.tar.gz") = Some "x.tar".
Proof. reflexivity. Qed.

Lemma rsplit1_head (filename : string) :
  exists file_base,
    Py.index (Py.rsplit1 "."%char filename) 0 = Some file_base
    /\ strips_extension filename file_base.
Proof.
  unfold Py.rsplit1. destruct (Py.rcut "."%char filename) as [[b a]|] eqn:E.
  - exists b. split; [reflexivity|].
    destruct (rcut_some _ _ _ _ E) as [-> Ha]. split.
    + rewrite contains_app. simpl. rewrite orb_true_r. discriminate.
    + intros _. now exists a.
  - exists filename. split; [reflexivity|].
    apply rcut_none in E. split; [reflexivity | congruence].
Qed.

(** C6. The segments of a path are what [split('/')] returns (joined by
    '/' they give the path back, and none holds a '/'). With at least
    three segments the parser returns the last three as collection, type
    and filename, and [file] is the filename without its final extension
    (the filename itself when it has no dot); with fewer than three it
    raises. *)
Theorem parse_image_path_spec (image_path : string) :
  let parts := Py.split "/"%char image_path in
  Py.join "/"%char parts = image_path /\
  Forall (fun p => Py.contains "/"%char p = false) parts /\
  ((3 <= List.length parts)%nat ->
   exists front collection_folder type_folder filename file_base,
     parts = front ++ [collection_folder; type_folder; filename] /\
     _parse_image_path image_path
     = Some {| md_collection := collection_folder;
               md_type := type_folder;
               md_file := file_base;
               md_filename := filename |} /\
     strips_extension filename file_base) /\
  ((List.length parts < 3)%nat -> _parse_image_path image_path = None).
Proof.
  intros parts. split; [apply join_split|]. split; [apply split_no_sep|].
  split.
  - intros H. destruct (last_three parts H) as (front & a & b & c & E).
    destruct (rsplit1_head c) as (fb & Hfb & Hstrip).
    exists front, a, b, c, fb. split; [exact E|]. split; [|exact Hstrip].
    unfold _parse_image_path. fold parts. rewrite E.
    change (-3)%Z with (Z.of_nat 0 - Z.of_nat (List.length [a; b; c]))%Z.
    change (-2)%Z with (Z.of_nat 1 - Z.of_nat (List.length [a; b; c]))%Z.
    change (-1)%Z with (Z.of_nat 2 - Z.of_nat (List.length [a; b; c]))%Z.
    rewrite !index_neg_app by (simpl; lia). simpl nth_error.
    cbv beta iota. now rewrite Hfb.
  - intros H. unfold _parse_image_path. fold parts.
    change (-3)%Z with (- Z.of_nat 3)%Z.
    now rewrite index_neg_short.
Qed.

Lemma parse_image_path_spec_witness :
  (3 <= List.length (Py.split "/"%char "train/coll-42-shapes/png/star.png"))%nat
  /\ (exists collection_folder type_folder filename file_base,
         _parse_image_path "train/coll-42-shapes/png/star.png"
         = Some {| md_collection := collection_folder;
                   md_type := type_folder;
                   md_file := file_base;
                   md_filename := filename |}
         /\ strips_extension filename file_base)
  /\ (List.length (Py.split "/"%char "png/star.png") < 3)%nat
  /\ _parse_image_path "png/star.png" = None.
Proof.
  assert (3 <= List.length
                 (Py.split "/"%char "train/coll-42-shapes/png/star.png"))%nat
    as Hlong by (simpl; lia).
  assert (List.length (Py.split "/"%char "png/star.png") < 3)%nat
    as Hshort by (simpl; lia).
  split; [exact Hlong|]. split; [|split; [exact Hshort|]].
  - destruct (parse_image_path_spec "train/coll-42-shapes/png/star.png")
      as (_ & _ & H & _).
    destruct (H Hlong) as (front & c & t & f & fb & _ & Hparse & Hstrip).
    now exists c, t, f, fb.
  - destruct (parse_image_path_spec "png/star.png") as (_ & _ & _ & H).
    exact (H Hshort).
Defined.

(* ================================================================== *)
(** * Stable sorting *)
(* ================================================================== *)

Section StableSortFacts.

Context {A : Type} (leb : A -> A -> bool).

Let le (a b : A) : Prop := leb a b = true.

Hypothesis leb_total : forall a b, leb a b = true \/ leb b a = true.
Hypothesis leb_trans :
  forall a b c, leb a b = true -> leb b c = true -> leb a c = true.

Lemma insert_sorted_perm (x : A) (l : list A) :
  Permutation (x :: l) (insert_sorted leb x l).
Proof.
  induction l as [|y l IH]; simpl; [reflexivity|].
  destruct (leb x y); [reflexivity|].
  rewrite perm_swap. now constructor.
Qed.

Lemma stable_sort_perm (l : list A) : Permutation l (stable_sort leb l).
Proof.
  induction l as [|x l IH]; simpl; [constructor|].
  rewrite <- insert_sorted_perm. now constructor.
Qed.

Lemma insert_sorted_sorted (x : A) (l : list A) :
  StronglySorted le l -> StronglySorted le (insert_sorted leb x l).
Proof.
  induction 1 as [|y l Hs IH Hy]; simpl.
  - repeat constructor.
  - destruct (leb x y) eqn:E.
    + constructor; [now constructor|].
      constructor; [exact E|].
      eapply Forall_impl; [|exact Hy]. intros z Hz. now apply leb_trans with y.
    + constructor; [exact IH|].
      apply (Permutation_Forall (insert_sorted_perm x l)).
      constructor; [|exact Hy].
      destruct (leb_total x y) as [H|H]; [congruence | exact H].
Qed.

Lemma stable_sort_sorted (l : list A) : StronglySorted le (stable_sort leb l).
Proof.
  induction l as [|x l IH]; simpl; [constructor|].
  now apply insert_sorted_sorted.
Qed.

(** Two sorted lists with the same elements are equal as soon as the
    order separates the elements of one of them. *)
Lemma sorted_perm_unique (l1 l2 : list A) :
  (forall a b, In a l1 -> In b l1 ->
               leb a b = true -> leb b a = true -> a = b) ->
  StronglySorted le l1 -> StronglySorted le l2 ->
  Permutation l1 l2 -> l1 = l2.
Proof.
  revert l2. induction l1 as [|a l1 IH]; intros l2 Hanti H1 H2 HP.
  - apply Permutation_nil in HP. now subst.
  - destruct l2 as [|b l2];
      [apply Permutation_sym, Permutation_nil in HP; discriminate|].
    inversion H1 as [|? ? Hs1 Ha]; inversion H2 as [|? ? Hs2 Hb]; subst.
    assert (a = b) as ->.
    { assert (In b (a :: l1)) as Hin
        by (eapply Permutation_in; [symmetry; exact HP | now left]).
      assert (In a (b :: l2)) as Hin'
        by (eapply Permutation_in; [exact HP | now left]).
      destruct Hin as [->|Hin]; [reflexivity|].
      destruct Hin' as [->|Hin']; [reflexivity|].
      rewrite Forall_forall in Ha, Hb.
      apply Hanti; [now left | now right | now apply Ha | now apply Hb]. }
    f_equal. apply IH; auto.
    + intros x y Hx Hy. apply Hanti; now right.
    + now apply Permutation_cons_inv in HP.
Qed.

Lemma stable_sort_perm_eq (l1 l2 : list A) :
  (forall a b, In a l1 -> In b l1 ->
               leb a b = true -> leb b a = true -> a = b) ->
  Permutation l1 l2 -> stable_sort leb l1 = stable_sort leb l2.
Proof.
  intros Hanti HP. apply sorted_perm_unique.
  - intros a b Ha Hb.
    apply Hanti;
      [ apply (Permutation_in _ (Permutation_sym (stable_sort_perm l1)) Ha)
      | apply (Permutation_in _ (Permutation_sym (stable_sort_perm l1)) Hb) ].
  - apply stable_sort_sorted.
  - apply stable_sort_sorted.
  - rewrite <- (stable_sort_perm l1), <- (stable_sort_perm l2). exact HP.
Qed.

End StableSortFacts.

(* ================================================================== *)
(** * The order of [str] *)
(* ================================================================== *)

Ltac div_lia := zify; Z.to_euclidean_division_equations; lia.

Lemma cons_inv {A : Type} (a b : A) (l l' : list A) :
  a :: l = b :: l' -> a = b /\ l = l'.
Proof. intros H. now inversion H. Qed.

Ltac list_eq H :=
  repeat (apply cons_inv in H;
          let E := fresh "E" in destruct H as [E H]).

Lemma two_bytes_spec b c1 :
  Py.two_bytes b c1 = true <-> (194 <= b <= 223 /\ 128 <= c1 <= 191)%N.
Proof.
  unfold Py.two_bytes, Py.continuation.
  rewrite !andb_true_iff, !N.leb_le. tauto.
Qed.

Lemma three_bytes_spec b c1 c2 :
  Py.three_bytes b c1 c2 = true <->
  (((b = 224 /\ 160 <= c1 <= 191)
    \/ (225 <= b <= 236 /\ 128 <= c1 <= 191)
    \/ (b = 237 /\ 128 <= c1 <= 159)
    \/ (238 <= b <= 239 /\ 128 <= c1 <= 191))
   /\ 128 <= c2 <= 191)%N.
Proof.
  unfold Py.three_bytes, Py.continuation.
  rewrite !andb_true_iff, !orb_true_iff, !andb_true_iff, !N.leb_le,
    !N.eqb_eq. tauto.
Qed.

Lemma four_bytes_spec b c1 c2 c3 :
  Py.four_bytes b c1 c2 c3 = true <->
  (((b = 240 /\ 144 <= c1 <= 191)
    \/ (241 <= b <= 243 /\ 128 <= c1 <= 191)
    \/ (b = 244 /\ 128 <= c1 <= 143))
   /\ 128 <= c2 <= 191 /\ 128 <= c3 <= 191)%N.
Proof.
  unfold Py.four_bytes, Py.continuation.
  rewrite !andb_true_iff, !orb_true_iff, !andb_true_iff, !N.leb_le,
    !N.eqb_eq. tauto.
Qed.

(** The forms of two, three and four bytes, read from the bytes. *)
Lemma utf8_two (b c1 : N) :
  (194 <= b <= 223 /\ 128 <= c1 <= 191)%N <->
  exists c, utf8 c [b; c1].
Proof.
  split.
  - intros H. exists ((b - 192) * 64 + (c1 - 128))%N.
    right; left. split; [lia|]. f_equal; [|f_equal]; div_lia.
  - intros (c & [(_ & E)|[(Hc & E)|[(_ & _ & E)|(_ & E)]]]);
      try discriminate.
    list_eq E. div_lia.
Qed.

Lemma utf8_three (b c1 c2 : N) :
  (((b = 224 /\ 160 <= c1 <= 191)
    \/ (225 <= b <= 236 /\ 128 <= c1 <= 191)
    \/ (b = 237 /\ 128 <= c1 <= 159)
    \/ (238 <= b <= 239 /\ 128 <= c1 <= 191))
   /\ 128 <= c2 <= 191)%N <->
  exists c, utf8 c [b; c1; c2].
Proof.
  split.
  - intros H. exists ((b - 224) * 4096 + (c1 - 128) * 64 + (c2 - 128))%N.
    right; right; left. split; [lia|]. split; [lia|].
    f_equal; [|f_equal; [|f_equal]]; div_lia.
  - intros (c & [(_ & E)|[(_ & E)|[(Hc & Hs & E)|(_ & E)]]]);
      try discriminate.
    list_eq E. div_lia.
Qed.

Lemma utf8_four (b c1 c2 c3 : N) :
  (((b = 240 /\ 144 <= c1 <= 191)
    \/ (241 <= b <= 243 /\ 128 <= c1 <= 191)
    \/ (b = 244 /\ 128 <= c1 <= 143))
   /\ 128 <= c2 <= 191 /\ 128 <= c3 <= 191)%N <->
  exists c, utf8 c [b; c1; c2; c3].
Proof.
  split.
  - intros H.
    exists ((b - 240) * 262144 + (c1 - 128) * 4096
            + (c2 - 128) * 64 + (c3 - 128))%N.
    right; right; right. split; [lia|].
    f_equal; [|f_equal; [|f_equal; [|f_equal]]]; div_lia.
  - intros (c & [(_ & E)|[(_ & E)|[(_ & _ & E)|(Hc & E)]]]);
      try discriminate.
    list_eq E. div_lia.
Qed.

Lemma decode_utf8 (c : N) (bs rest : list N) :
  utf8 c bs -> Py.decode (bs ++ rest) = c :: Py.decode rest.
Proof.
  intros [(Hc & ->)|[(Hc & ->)|[(Hc & Hs & ->)|(Hc & ->)]]].
  - cbn [app Py.decode]. apply N.ltb_lt in Hc. now rewrite Hc.
  - remember (192 + c / 64)%N as b eqn:Hb.
    remember (128 + c mod 64)%N as c1 eqn:Hc1.
    cbn [app Py.decode].
    assert ((b <? 128)%N = false) as -> by (apply N.ltb_ge; div_lia).
    assert (Py.two_bytes b c1 = true) as ->
      by (apply two_bytes_spec; div_lia).
    f_equal. div_lia.
  - remember (224 + c / 4096)%N as b eqn:Hb.
    remember (128 + (c / 64) mod 64)%N as c1 eqn:Hc1.
    remember (128 + c mod 64)%N as c2 eqn:Hc2.
    cbn [app Py.decode].
    assert ((b <? 128)%N = false) as -> by (apply N.ltb_ge; div_lia).
    assert (Py.two_bytes b c1 = false) as ->.
    { destruct (Py.two_bytes b c1) eqn:E; [|reflexivity].
      apply two_bytes_spec in E. div_lia. }
    assert (Py.three_bytes b c1 c2 = true) as ->
      by (apply three_bytes_spec; div_lia).
    f_equal. div_lia.
  - remember (240 + c / 262144)%N as b eqn:Hb.
    remember (128 + (c / 4096) mod 64)%N as c1 eqn:Hc1.
    remember (128 + (c / 64) mod 64)%N as c2 eqn:Hc2.
    remember (128 + c mod 64)%N as c3 eqn:Hc3.
    cbn [app Py.decode].
    assert ((b <? 128)%N = false) as -> by (apply N.ltb_ge; div_lia).
    assert (Py.two_bytes b c1 = false) as ->.
    { destruct (Py.two_bytes b c1) eqn:E; [|reflexivity].
      apply two_bytes_spec in E. div_lia. }
    assert (Py.three_bytes b c1 c2 = false) as ->.
    { destruct (Py.three_bytes b c1 c2) eqn:E; [|reflexivity].
      apply three_bytes_spec in E. div_lia. }
    assert (Py.four_bytes b c1 c2 c3 = true) as ->
      by (apply four_bytes_spec; div_lia).
    f_equal. div_lia.
Qed.

(** No UTF-8 form starts at a byte of 128 or more that the three tests
    of the decoder refuse. *)
Lemma no_form (b : N) (r : list N) :
  (128 <= b)%N ->
  (forall c1 r1, r = c1 :: r1 -> Py.two_bytes b c1 = false) ->
  (forall c1 c2 r2, r = c1 :: c2 :: r2 -> Py.three_bytes b c1 c2 = false) ->
  (forall c1 c2 c3 r3,
      r = c1 :: c2 :: c3 :: r3 -> Py.four_bytes b c1 c2 c3 = false) ->
  forall c bs rest', b :: r = bs ++ rest' -> ~ utf8 c bs.
Proof.
  intros Hb H2 H3 H4 c bs rest' E Hu.
  pose proof Hu as [(Hc & ->)|[(Hc & ->)|[(Hc & Hs & ->)|(Hc & ->)]]];
    cbn [app] in E.
  - list_eq E. lia.
  - apply cons_inv in E. destruct E as [E0 E].
    rewrite <- E0 in Hu.
    destruct r as [|c1 r1]; [discriminate|].
    apply cons_inv in E. destruct E as [E1 E]. rewrite <- E1 in Hu.
    assert (Py.two_bytes b c1 = true) as Ht
      by (apply two_bytes_spec, utf8_two; now exists c).
    rewrite (H2 c1 r1 eq_refl) in Ht. discriminate.
  - apply cons_inv in E. destruct E as [E0 E].
    rewrite <- E0 in Hu.
    destruct r as [|c1 [|c2 r2]]; try discriminate.
    apply cons_inv in E. destruct E as [E1 E]. rewrite <- E1 in Hu.
    apply cons_inv in E. destruct E as [E2 E]. rewrite <- E2 in Hu.
    assert (Py.three_bytes b c1 c2 = true) as Ht
      by (apply three_bytes_spec, utf8_three; now exists c).
    rewrite (H3 c1 c2 r2 eq_refl) in Ht. discriminate.
  - apply cons_inv in E. destruct E as [E0 E].
    rewrite <- E0 in Hu.
    destruct r as [|c1 [|c2 [|c3 r3]]]; try discriminate.
    apply cons_inv in E. destruct E as [E1 E]. rewrite <- E1 in Hu.
    apply cons_inv in E. destruct E as [E2 E]. rewrite <- E2 in Hu.
    apply cons_inv in E. destruct E as [E3 E]. rewrite <- E3 in Hu.
    assert (Py.four_bytes b c1 c2 c3 = true) as Ht
      by (apply four_bytes_spec, utf8_four; now exists c).
    rewrite (H4 c1 c2 c3 r3 eq_refl) in Ht. discriminate.
Qed.

(** One step of the decoder: the UTF-8 form that starts the bytes, or a
    byte at which none starts. *)
Lemma decode_step (l : list N) :
  l <> [] ->
  (exists c bs rest,
      l = bs ++ rest /\ bs <> [] /\ utf8 c bs
      /\ Py.decode l = c :: Py.decode rest)
  \/ (exists b rest,
         l = b :: rest /\ (128 <= b)%N
         /\ (forall c bs rest', l = bs ++ rest' -> ~ utf8 c bs)
         /\ Py.decode l = (56320 + b)%N :: Py.decode rest).
Proof.
  intros Hne. destruct l as [|b r]; [congruence|]. clear Hne.
  destruct (b <? 128)%N eqn:E1.
  { left. exists b, [b], r. apply N.ltb_lt in E1.
    split; [reflexivity|]. split; [discriminate|].
    split; [left; now split|].
    cbn [Py.decode]. apply N.ltb_lt in E1. now rewrite E1. }
  apply N.ltb_ge in E1.
  assert (forall c bs, utf8 c bs ->
            forall rest, b :: r = bs ++ rest ->
            exists c bs rest,
              b :: r = bs ++ rest /\ bs <> [] /\ utf8 c bs
              /\ Py.decode (b :: r) = c :: Py.decode rest) as Hform.
  { intros c bs Hu rest E. exists c, bs, rest.
    split; [exact E|]. split.
    - intros ->. destruct Hu as [(_ & H)|[(_ & H)|[(_ & _ & H)|(_ & H)]]];
        discriminate.
    - split; [exact Hu|]. rewrite E. now apply decode_utf8. }
  assert ((forall c1 r1, r = c1 :: r1 -> Py.two_bytes b c1 = false) ->
          (forall c1 c2 r2,
              r = c1 :: c2 :: r2 -> Py.three_bytes b c1 c2 = false) ->
          (forall c1 c2 c3 r3,
              r = c1 :: c2 :: c3 :: r3 ->
              Py.four_bytes b c1 c2 c3 = false) ->
          exists b0 rest,
            b :: r = b0 :: rest /\ (128 <= b0)%N
            /\ (forall c bs rest', b :: r = bs ++ rest' -> ~ utf8 c bs)
            /\ Py.decode (b :: r) = (56320 + b0)%N :: Py.decode rest)
    as Hstray.
  { intros H2 H3 H4. exists b, r. split; [reflexivity|].
    split; [exact E1|]. split; [now apply no_form|].
    cbn [Py.decode]. apply N.ltb_ge in E1. rewrite E1.
    destruct r as [|c1 r1]; [reflexivity|].
    rewrite (H2 c1 r1 eq_refl).
    destruct r1 as [|c2 r2]; [reflexivity|].
    rewrite (H3 c1 c2 r2 eq_refl).
    destruct r2 as [|c3 r3]; [reflexivity|].
    now rewrite (H4 c1 c2 c3 r3 eq_refl). }
  destruct r as [|c1 r1].
  { right. apply Hstray; intros; discriminate. }
  destruct (Py.two_bytes b c1) eqn:E2.
  { left. apply two_bytes_spec, utf8_two in E2. destruct E2 as [c Hu].
    now apply (Hform c [b; c1] Hu r1). }
  destruct r1 as [|c2 r2].
  { right. apply Hstray; intros; try discriminate. congruence. }
  destruct (Py.three_bytes b c1 c2) eqn:E3.
  { left. apply three_bytes_spec, utf8_three in E3. destruct E3 as [c Hu].
    now apply (Hform c [b; c1; c2] Hu r2). }
  destruct r2 as [|c3 r3].
  { right. apply Hstray; intros; try discriminate; congruence. }
  destruct (Py.four_bytes b c1 c2 c3) eqn:E4.
  { left. apply four_bytes_spec, utf8_four in E4. destruct E4 as [c Hu].
    now apply (Hform c [b; c1; c2; c3] Hu r3). }
  right. apply Hstray; intros; congruence.
Qed.

(** The decoder does what [decodes] says, and nothing else does. *)
Lemma decode_decodes (l : list N) : decodes l (Py.decode l).
Proof.
  remember (List.length l) as n eqn:Hn. revert l Hn.
  induction n as [n IH] using lt_wf_ind. intros l Hn.
  destruct l as [|b r]; [constructor|].
  destruct (decode_step (b :: r))
    as [(c & bs & rest & E & Hbs & Hu & Hd)|(b0 & rest & E & _ & Hno & Hd)];
    [discriminate| |].
  - rewrite Hd, E. apply decodes_utf8; [exact Hu|].
    apply (IH (List.length rest)); [|reflexivity].
    rewrite Hn, E, length_app. destruct bs; [congruence | cbn; lia].
  - rewrite Hd. inversion E; subst b0 rest.
    apply decodes_stray; [exact Hno|].
    apply (IH (List.length r)); [|reflexivity]. rewrite Hn. cbn. lia.
Qed.

Lemma decodes_functional (l cs : list N) :
  decodes l cs -> cs = Py.decode l.
Proof.
  induction 1 as [|c bs rest cs Hu _ IH|b rest cs Hno _ IH].
  - reflexivity.
  - rewrite IH. symmetry. now apply decode_utf8.
  - rewrite IH.
    destruct (decode_step (b :: rest))
      as [(c & bs & rest' & E & _ & Hu & _)|(b0 & rest' & E & _ & _ & Hd)];
      [discriminate| |].
    + exfalso. exact (Hno c bs rest' E Hu).
    + inversion E; subst. now rewrite Hd.
Qed.

Lemma utf8_inj (c : N) (bs bs' : list N) :
  utf8 c bs -> utf8 c bs' -> bs = bs'.
Proof.
  intros [(H & ->)|[(H & ->)|[(H & _ & ->)|(H & ->)]]]
         [(H' & ->)|[(H' & ->)|[(H' & _ & ->)|(H' & ->)]]];
    try reflexivity; exfalso; lia.
Qed.

Lemma utf8_no_surrogate (c : N) (bs : list N) :
  utf8 c bs -> ~ (55296 <= c < 57344)%N.
Proof.
  intros [(H & _)|[(H & _)|[(_ & H & _)|(H & _)]]]; lia.
Qed.

Lemma decode_nil_inv (l : list N) : Py.decode l = [] -> l = [].
Proof.
  intros H. destruct l as [|b r]; [reflexivity|].
  destruct (decode_step (b :: r))
    as [(c & bs & rest & _ & _ & _ & E)|(b0 & rest & _ & _ & _ & E)];
    [discriminate| |]; rewrite E in H; discriminate.
Qed.

(** Decoding loses nothing: two byte strings with the same code points
    are the same. *)
Lemma decode_inj (l1 l2 : list N) :
  Forall (fun b => b < 256)%N l1 -> Forall (fun b => b < 256)%N l2 ->
  Py.decode l1 = Py.decode l2 -> l1 = l2.
Proof.
  remember (List.length l1) as n eqn:Hn.
  revert l1 l2 Hn.
  induction n as [n IH] using lt_wf_ind. intros l1 l2 Hn H1 H2 E.
  destruct l1 as [|b1 r1].
  { symmetry. apply decode_nil_inv. now rewrite <- E. }
  destruct l2 as [|b2 r2].
  { apply decode_nil_inv. now rewrite E. }
  destruct (decode_step (b1 :: r1))
    as [(c & bs & t1 & E1 & Hbs & Hu & Hd1)|(x & t1 & E1 & Hx & _ & Hd1)];
    [discriminate| |];
    (destruct (decode_step (b2 :: r2))
      as [(c' & bs' & t2 & E2 & Hbs' & Hu' & Hd2)
         |(y & t2 & E2 & Hy & _ & Hd2)];
     [discriminate| |]);
    rewrite Hd1, Hd2 in E; apply cons_inv in E; destruct E as [Ec Et].
  - subst c'. rewrite (utf8_inj c bs bs' Hu Hu') in *.
    rewrite E1, E2. f_equal.
    rewrite E1 in H1. rewrite E2 in H2. apply Forall_app in H1, H2.
    apply (IH (List.length t1)); try tauto.
    rewrite Hn, E1, length_app. destruct bs'; [congruence | cbn; lia].
  - exfalso. apply (utf8_no_surrogate c bs Hu).
    apply cons_inv in E2. destruct E2 as [<- <-].
    apply Forall_inv in H2. lia.
  - exfalso. apply (utf8_no_surrogate c' bs' Hu').
    apply cons_inv in E1. destruct E1 as [<- <-].
    apply Forall_inv in H1. lia.
  - apply cons_inv in E1, E2. destruct E1 as [<- <-], E2 as [<- <-].
    assert (b1 = b2) as -> by lia. f_equal.
    apply Forall_inv_tail in H1, H2.
    apply (IH (List.length r1));
      [rewrite Hn; cbn; lia | reflexivity | assumption..].
Qed.

Lemma bytes_bounded (s : string) :
  Forall (fun b => b < 256)%N (Py.bytes s).
Proof.
  unfold Py.bytes. apply Forall_forall. intros b Hb.
  apply in_map_iff in Hb. destruct Hb as (a & <- & _).
  apply N_ascii_bounded.
Qed.

Lemma bytes_inj (a b : string) : Py.bytes a = Py.bytes b -> a = b.
Proof.
  unfold Py.bytes. revert b.
  induction a as [|x a IH]; intros [|y b] H; cbn in H;
    try discriminate; [reflexivity|].
  inversion H as [[Hx Ha]]. f_equal; [|now apply IH].
  rewrite <- (ascii_N_embedding x), <- (ascii_N_embedding y).
  now rewrite Hx.
Qed.

Lemma code_points_inj (a b : string) :
  Py.code_points a = Py.code_points b -> a = b.
Proof.
  intros H. apply bytes_inj.
  apply decode_inj; [apply bytes_bounded | apply bytes_bounded | exact H].
Qed.

Lemma lex_leb_spec (a b : list N) : Py.lex_leb a b = true <-> lex_le a b.
Proof.
  revert b. induction a as [|x a IH]; intros [|y b]; cbn.
  - split; [constructor | reflexivity].
  - split; [constructor | reflexivity].
  - split; [discriminate | intros H; inversion H].
  - destruct (x <? y)%N eqn:Elt.
    + apply N.ltb_lt in Elt. split; [now constructor | reflexivity].
    + apply N.ltb_ge in Elt. destruct (x =? y)%N eqn:Eeq.
      * apply N.eqb_eq in Eeq. subst y. rewrite IH. split.
        -- now constructor.
        -- intros H. inversion H; subst; [lia | assumption].
      * apply N.eqb_neq in Eeq. split; [discriminate|].
        intros H. inversion H; subst; [lia | congruence].
Qed.

Lemma lex_le_total (a b : list N) : lex_le a b \/ lex_le b a.
Proof.
  revert b. induction a as [|x a IH]; intros [|y b].
  - left. constructor.
  - left. constructor.
  - right. constructor.
  - destruct (N.lt_trichotomy x y) as [H|[->|H]].
    + left. now constructor.
    + destruct (IH b); [left | right]; now constructor.
    + right. now constructor.
Qed.

Lemma lex_le_trans (a b c : list N) : lex_le a b -> lex_le b c -> lex_le a c.
Proof.
  intros H. revert c. induction H as [b|x y a b Hxy|x a b Hab IH];
    intros c Hbc.
  - constructor.
  - inversion Hbc; subst; apply lex_le_lt; lia.
  - inversion Hbc; subst; [now apply lex_le_lt | apply lex_le_eq; auto].
Qed.

Lemma lex_le_antisym (a b : list N) : lex_le a b -> lex_le b a -> a = b.
Proof.
  induction 1 as [b|x y a b Hxy|x a b Hab IH]; intros H; inversion H; subst;
    try reflexivity; try lia.
  f_equal. now apply IH.
Qed.

(** The comparison of the model is Python's. *)
Lemma str_leb_spec (a b : string) : Py.str_leb a b = true <-> str_le a b.
Proof.
  unfold Py.str_leb, str_le, Py.code_points. rewrite lex_leb_spec. split.
  - intros H. exists (Py.decode (Py.bytes a)), (Py.decode (Py.bytes b)).
    split; [apply decode_decodes|]. split; [apply decode_decodes | exact H].
  - intros (ca & cb & Ha & Hb & H).
    apply decodes_functional in Ha, Hb. now subst.
Qed.

Lemma str_leb_total (a b : string) :
  Py.str_leb a b = true \/ Py.str_leb b a = true.
Proof. unfold Py.str_leb. rewrite !lex_leb_spec. apply lex_le_total. Qed.

Lemma str_leb_trans (a b c : string) :
  Py.str_leb a b = true -> Py.str_leb b c = true -> Py.str_leb a c = true.
Proof. unfold Py.str_leb. rewrite !lex_leb_spec. apply lex_le_trans. Qed.

Lemma str_leb_antisym (a b : string) :
  Py.str_leb a b = true -> Py.str_leb b a = true -> a = b.
Proof.
  unfold Py.str_leb. rewrite !lex_leb_spec. intros H1 H2.
  apply code_points_inj. now apply lex_le_antisym.
Qed.

(** On text made of ASCII characters the code points are the
    characters. *)
Lemma code_points_ascii (s : string) :
  Forall (fun b => b < 128)%N (Py.bytes s) ->
  Py.code_points s = Py.bytes s.
Proof.
  unfold Py.code_points. induction (Py.bytes s) as [|b l IH]; intros H;
    [reflexivity|].
  inversion H as [|? ? Hb Hl]; subst. cbn [Py.decode].
  apply N.ltb_lt in Hb. rewrite Hb. now rewrite IH.
Qed.

Example code_points_e_acute :
  Py.code_points (of_bytes [99; 97; 102; 195; 169]%N) = [99; 97; 102; 233]%N.
Proof. reflexivity. Qed.

Example code_points_stray_byte :
  Py.code_points (of_bytes [97; 255; 98]%N) = [97; 56575; 98]%N.
Proof. reflexivity. Qed.

Example stray_byte_sorts_before_supplementary :
  Py.str_leb (of_bytes [255]%N) (of_bytes [240; 144; 128; 128]%N) = true
  /\ Py.str_leb (of_bytes [240; 144; 128; 128]%N) (of_bytes [255]%N) = false.
Proof. split; reflexivity. Qed.

Lemma sorted_perm (l : list string) : Permutation l (sorted l).
Proof. apply stable_sort_perm. Qed.

Lemma StronglySorted_impl {A : Type} (R R' : A -> A -> Prop) (l : list A) :
  (forall a b, R a b -> R' a b) ->
  StronglySorted R l -> StronglySorted R' l.
Proof.
  intros HR. induction 1 as [|x l Hs IH Hx]; constructor; auto.
  eapply Forall_impl; [|exact Hx]. intros y. apply HR.
Qed.

Lemma sorted_sorted (l : list string) : StronglySorted str_le (sorted l).
Proof.
  apply StronglySorted_impl with (R := fun a b => Py.str_leb a b = true).
  - intros a b. apply str_leb_spec.
  - apply stable_sort_sorted; [apply str_leb_total | apply str_leb_trans].
Qed.

Lemma sorted_perm_eq (l1 l2 : list string) :
  Permutation l1 l2 -> sorted l1 = sorted l2.
Proof.
  apply stable_sort_perm_eq;
    [apply str_leb_total | apply str_leb_trans |].
  intros a b _ _. apply str_leb_antisym.
Qed.

(** File names with a byte that is not UTF-8 sort where Python puts
    them: after every name of the Basic Multilingual Plane below the
    surrogates, before the supplementary planes. *)
Example sorted_by_code_point :
  sorted [of_bytes [240; 144; 128; 128]%N; "b.png"; of_bytes [255]%N;
          "a.png"; "B.png"]
  = ["B.png"; "a.png"; "b.png"; of_bytes [255]%N;
     of_bytes [240; 144; 128; 128]%N].
Proof. reflexivity. Qed.

(* ================================================================== *)
(** * Scanner enumeration *)
(* ================================================================== *)

Lemma endswith_unfold (s suffix : string) :
  Py.endswith s suffix
  = if String.eqb s suffix then true
    else match s with
         | EmptyString => false
         | String _ s' => Py.endswith s' suffix
         end.
Proof. destruct s; reflexivity. Qed.

Lemma endswith_spec (s suffix : string) :
  Py.endswith s suffix = true <-> exists pre, s = (pre ++ suffix)%string.
Proof.
  induction s as [|c s IH]; rewrite endswith_unfold.
  - destruct (String.eqb_spec "" suffix) as [<-|Hne]; split; intros H.
    + now exists "".
    + reflexivity.
    + discriminate.
    + destruct H as [[|c pre] H]; simpl in H; [congruence | discriminate].
  - destruct (String.eqb_spec (String c s) suffix) as [<-|Hne]; split; intros H.
    + now exists "".
    + reflexivity.
    + apply IH in H. destruct H as [pre ->]. now exists (String c pre).
    + destruct H as [[|c' pre] H]; simpl in H; [congruence|].
      inversion H; subst. apply IH. now exists pre.
Qed.

Lemma lower_app (a b : string) :
  Py.lower (a ++ b) = (Py.lower a ++ Py.lower b)%string.
Proof. induction a as [|c a IH]; simpl; [reflexivity | now rewrite IH]. Qed.

Lemma lower_app_inv (s x y : string) :
  Py.lower s = (x ++ y)%string ->
  exists a b, s = (a ++ b)%string /\ Py.lower a = x /\ Py.lower b = y.
Proof.
  revert s. induction x as [|c x IH]; intros s H.
  - now exists "", s.
  - destruct s as [|d s]; simpl in H; [discriminate|].
    inversion H as [[Hc Hs]]. destruct (IH s Hs) as (a & b & -> & Ha & Hb).
    exists (String d a), b. simpl. now rewrite Ha.
Qed.

Lemma image_extensions_dotted :
  IMAGE_EXTENSIONS = map (String "."%char) RECOGNISED_EXTENSIONS.
Proof. reflexivity. Qed.

Example lower_mixed_case : Py.lower "Moon.PnG" = "moon.png".
Proof. reflexivity. Qed.

Example dotless_name_is_not_an_image : is_image_file "xpng" = false.
Proof. reflexivity. Qed.

(** Lowering a character gives [b], which is no capital letter, when
    the character is [b] up to case, and only then. *)
Lemma lower_ascii_same_letter (a b : ascii) :
  ~ (65 <= nat_of_ascii b <= 90)%nat ->
  Py.lower_ascii a = b <-> same_letter a b.
Proof.
  intros Hb. unfold Py.lower_ascii, same_letter, uppercase_of.
  destruct (andb (65 <=? nat_of_ascii a)%nat (nat_of_ascii a <=? 90)%nat)
    eqn:E.
  - apply andb_true_iff in E. destruct E as [E1 E2].
    apply Nat.leb_le in E1, E2. split.
    + intros <-. right. left. exists (nat_of_ascii a).
      split; [lia|]. split; [reflexivity|].
      apply nat_ascii_embedding. lia.
    + intros [->|[(k & Hk & Ha & Hkb)|(k & Hk & Hkb & _)]].
      * exfalso. apply Hb. lia.
      * rewrite Ha, <- Hkb. apply ascii_nat_embedding.
      * exfalso. apply Hb. lia.
  - assert (~ (65 <= nat_of_ascii a <= 90)%nat) as Ha.
    { intros [H1 H2]. apply Nat.leb_le in H1, H2.
      rewrite H1, H2 in E. discriminate. }
    split.
    + intros <-. now left.
    + intros [->|[(k & Hk & Hka & _)|(k & Hk & Hkb & _)]].
      * reflexivity.
      * exfalso. apply Ha. lia.
      * exfalso. apply Hb. lia.
Qed.

Lemma lower_same_up_to_case (t e : string) :
  Forall (fun c => ~ (65 <= nat_of_ascii c <= 90)%nat)
    (list_ascii_of_string e) ->
  Py.lower t = e <-> same_up_to_case t e.
Proof.
  unfold same_up_to_case. revert e.
  induction t as [|a t IH]; intros [|b e] He;
    cbn [Py.lower list_ascii_of_string].
  - split; [constructor | reflexivity].
  - split; [discriminate | intros H; inversion H].
  - split; [discriminate | intros H; inversion H].
  - cbn [list_ascii_of_string] in He. inversion He as [|? ? Hb He']; subst. split.
    + intros H. inversion H as [[Hab Hte]]. rewrite Hab, Hte. constructor.
      * now apply lower_ascii_same_letter.
      * now apply IH.
    + intros H. inversion H as [|? ? ? ? Hab Hte]; subst. f_equal.
      * now apply lower_ascii_same_letter.
      * now apply IH.
Qed.

Lemma recognised_no_capital (ext : string) :
  In ext RECOGNISED_EXTENSIONS ->
  Forall (fun c => ~ (65 <= nat_of_ascii c <= 90)%nat)
    (list_ascii_of_string (String "."%char ext)).
Proof.
  unfold RECOGNISED_EXTENSIONS. simpl.
  intros [<-|[<-|[<-|[<-|[<-|[<-|[]]]]]]];
    repeat (constructor; [cbn; lia|]); constructor.
Qed.

(** The test of the inner loop is the contract's: the name ends with a
    dot and a recognised extension, whatever the case of its letters. *)
Lemma is_image_file_spec (name : string) :
  is_image_file name = true <-> recognised_image_name name.
Proof.
  unfold is_image_file, Py.endswith_any, recognised_image_name.
  rewrite existsb_exists, image_extensions_dotted. split.
  - intros (e & He & Hends). apply in_map_iff in He.
    destruct He as (ext & <- & Hext). exists ext. split; [exact Hext|].
    apply endswith_spec in Hends. destruct Hends as [pre Hpre].
    destruct (lower_app_inv _ _ _ Hpre) as (a & b & -> & _ & Hb).
    exists a, b. split; [reflexivity|].
    apply lower_same_up_to_case; [now apply recognised_no_capital|].
    exact Hb.
  - intros (ext & Hext & stem & tail & -> & Htail).
    exists (String "."%char ext). split; [now apply in_map|].
    apply endswith_spec. exists (Py.lower stem).
    rewrite lower_app. f_equal.
    apply lower_same_up_to_case; [now apply recognised_no_capital|].
    exact Htail.
Qed.

Lemma in_filenames (children : list Entry) (name : string) :
  In name (filenames children) <-> In (EFile name) children.
Proof.
  unfold filenames. rewrite in_map_iff. split.
  - intros (e & <- & He). apply filter_In in He. destruct He as [He Hd].
    destruct e; [exact He | discriminate].
  - intros H. exists (EFile name). split; [reflexivity|].
    apply filter_In. now split.
Qed.

(** The two loops collect the paths of the image files of the tree, at
    every depth, and nothing else. *)
Lemma collect_image_files_spec (e : Entry) :
  forall top p,
    In p (collect_image_files top e)
    <-> exists name, file_under top e p name /\ is_image_file name = true.
Proof.
  unfold collect_image_files.
  induction e as [n|n children IH] using Entry_tree_ind; intros top p.
  - simpl. split; [tauto|]. intros (name & H & _). inversion H.
  - simpl walk. simpl flat_map. rewrite in_app_iff, in_map_iff.
    rewrite Forall_forall in IH. split.
    + intros [(name & <- & Hname)|Hsub].
      * apply filter_In in Hname. destruct Hname as [Hname Himg].
        exists name. split; [|exact Himg].
        apply under_here. now apply in_filenames.
      * apply in_flat_map in Hsub. destruct Hsub as (triple & Htriple & Hp).
        apply in_flat_map in Htriple. destruct Htriple as (c & Hc & Hw).
        assert (In p (flat_map
                  (fun '(root, _, files) =>
                     map (Py.path_join root) (filter is_image_file files))
                  (walk (Py.path_join top (entry_name c)) c))) as Hin
          by (apply in_flat_map; now exists triple).
        apply (IH c Hc) in Hin. destruct Hin as (name & Hu & Himg).
        exists name. split; [|exact Himg]. now apply under_sub with c.
    + intros (name & Hu & Himg). inversion Hu; subst.
      * left. exists name. split; [reflexivity|].
        apply filter_In. split; [now apply in_filenames | exact Himg].
      * right.
        assert (In p (flat_map
                  (fun '(root, _, files) =>
                     map (Py.path_join root) (filter is_image_file files))
                  (walk (Py.path_join top (entry_name c)) c))) as Hin
          by (apply (IH c); [assumption | now exists name]).
        apply in_flat_map in Hin. destruct Hin as (triple & Htriple & Hp).
        apply in_flat_map. exists triple. split; [|exact Hp].
        apply in_flat_map. now exists c.
Qed.

(** ** Paths *)

Lemma string_app_assoc (a b c : string) :
  ((a ++ b) ++ c = a ++ (b ++ c))%string.
Proof. induction a as [|x a IH]; simpl; [reflexivity | now rewrite IH]. Qed.

Lemma string_app_inv_head (p a b : string) :
  (p ++ a = p ++ b)%string -> a = b.
Proof.
  induction p as [|x p IH]; simpl; intros H; [exact H|].
  inversion H. now apply IH.
Qed.

Lemma string_snoc (n : string) :
  n <> "" -> exists n' c, n = (n' ++ String c "")%string.
Proof.
  induction n as [|x n IH]; intros H; [congruence|].
  destruct n as [|y n].
  - now exists "", x.
  - destruct IH as (n' & c & E); [discriminate|].
    exists (String x n'), c. simpl. now rewrite <- E.
Qed.

Lemma string_snoc_inj (s s' : string) (c c' : ascii) :
  (s ++ String c "" = s' ++ String c' "")%string -> c = c'.
Proof.
  revert s'. induction s as [|x s IH]; intros [|y s'] H; simpl in H.
  - now inversion H.
  - inversion H as [[Hc E]]. destruct s'; discriminate.
  - inversion H as [[Hc E]]. destruct s; discriminate.
  - inversion H. now apply IH with s'.
Qed.

Lemma valid_name_last (n : string) :
  valid_name n ->
  exists n' c, n = (n' ++ String c "")%string /\ c <> "/"%char.
Proof.
  intros [Hne Hslash]. destruct (string_snoc n Hne) as (n' & c & E).
  exists n', c. split; [exact E|]. intros ->. exact (Hslash _ _ E).
Qed.

Lemma valid_name_check (n : string) :
  n <> "" -> Py.contains "/"%char n = false -> valid_name n.
Proof.
  intros Hne Hc. split; [exact Hne|]. intros a b ->. clear Hne.
  induction a as [|x a IH]; simpl in Hc.
  - discriminate.
  - destruct (Ascii.eqb x "/"%char); [discriminate | now apply IH].
Qed.

(** [os.path.join] puts the name of an entry after the prefix of its
    directory. *)
Lemma path_join_opens (top prefix n : string) :
  opens top prefix -> valid_name n ->
  Py.path_join top n = (prefix ++ n)%string.
Proof.
  intros Ho Hn. unfold Py.path_join.
  assert (Py.starts_with_slash n = false) as ->.
  { destruct n as [|x n]; [reflexivity|]. simpl.
    destruct (Ascii.eqb_spec x "/"%char) as [->|]; [|reflexivity].
    exfalso. exact (proj2 Hn "" n eq_refl). }
  destruct Ho as [s|s c Hc].
  - assert (Py.endswith (s ++ "/") "/" = true) as ->
      by (apply endswith_spec; now exists s).
    now rewrite orb_true_r.
  - assert (String.eqb (s ++ String c "") "" = false) as ->
      by (apply String.eqb_neq; destruct s; discriminate).
    assert (Py.endswith (s ++ String c "") "/" = false) as ->.
    { destruct (Py.endswith (s ++ String c "") "/") eqn:E; [|reflexivity].
      apply endswith_spec in E. destruct E as [pre E].
      apply string_snoc_inj in E. contradiction. }
    simpl. now rewrite !string_app_assoc.
Qed.

Lemma opens_child (prefix n : string) :
  valid_name n -> opens (prefix ++ n) (prefix ++ n ++ "/").
Proof.
  intros Hn. destruct (valid_name_last n Hn) as (n' & c & -> & Hc).
  rewrite <- !string_app_assoc.
  replace (((prefix ++ n') ++ String c "") ++ "/")%string
    with ((prefix ++ n') ++ String c "/")%string
    by (now rewrite (string_app_assoc (prefix ++ n'))).
  now apply opens_other.
Qed.

Lemma well_named_listing_ok (c : Entry) : well_named c -> listing_ok c.
Proof. intros H. inversion H; subst; simpl; auto. Qed.

(** The paths [os.walk] and [os.path.join] build are the prefix of the
    root followed by the names on the way to the file, '/' between
    them. *)
Lemma file_under_located (e : Entry) :
  forall top prefix p name,
    opens top prefix -> listing_ok e ->
    (file_under top e p name
     <-> exists dirs, located e dirs name
                      /\ p = (prefix ++ rel_path dirs name)%string).
Proof.
  induction e as [n|n children IH] using Entry_tree_ind;
    intros top prefix p name Ho Hok.
  - split; [intros H; inversion H | intros (dirs & H & _); inversion H].
  - destruct Hok as [_ Hok]. rewrite Forall_forall in IH, Hok. split.
    + intros Hu. inversion Hu as [? ? ? ? Hin|? ? ? c ? ? Hin Hsub]; subst.
      * exists []. split; [now constructor|]. simpl.
        apply path_join_opens; [exact Ho|].
        specialize (Hok _ Hin). now inversion Hok.
      * destruct c as [f|d' children']; [inversion Hsub|].
        pose proof (Hok _ Hin) as Hc. inversion Hc as [|? ? Hd' _ _]; subst.
        simpl entry_name in Hsub.
        rewrite (path_join_opens top prefix d' Ho Hd') in Hsub.
        apply (IH _ Hin _ (prefix ++ d' ++ "/")%string) in Hsub;
          [|now apply opens_child | now apply well_named_listing_ok].
        destruct Hsub as (dirs & Hloc & ->).
        exists (d' :: dirs). split; [now apply located_below with children'|].
        simpl. now rewrite !string_app_assoc.
    + intros (dirs & Hloc & ->).
      inversion Hloc as [? ? ? Hin|? ? d' children' dirs' ? Hin Hsub]; subst.
      * simpl.
        rewrite <- (path_join_opens top prefix name Ho);
          [now apply under_here|].
        specialize (Hok _ Hin). now inversion Hok.
      * pose proof (Hok _ Hin) as Hc. inversion Hc as [|? ? Hd' _ _]; subst.
        apply under_sub with (EDir d' children'); [exact Hin|].
        simpl entry_name.
        rewrite (path_join_opens top prefix d' Ho Hd').
        apply (IH _ Hin _ (prefix ++ d' ++ "/")%string);
          [now apply opens_child | now apply well_named_listing_ok|].
        exists dirs'. split; [exact Hsub|].
        simpl. now rewrite !string_app_assoc.
Qed.

(** The paths collected, in the terms of the contract. *)
Lemma collect_image_files_located (top prefix : string) (e : Entry) :
  opens top prefix -> listing_ok e ->
  forall p,
    In p (collect_image_files top e)
    <-> exists dirs name,
          located e dirs name /\ recognised_image_name name
          /\ p = (prefix ++ rel_path dirs name)%string.
Proof.
  intros Ho Hok p. rewrite collect_image_files_spec. split.
  - intros (name & Hu & Himg).
    apply (file_under_located e top prefix p name Ho Hok) in Hu.
    destruct Hu as (dirs & Hloc & ->). exists dirs, name.
    split; [exact Hloc|]. split; [now apply is_image_file_spec|reflexivity].
  - intros (dirs & name & Hloc & Hrec & ->). exists name. split.
    + apply (file_under_located e top prefix _ name Ho Hok). now exists dirs.
    + now apply is_image_file_spec.
Qed.

(** ** Each file once *)

Lemma flat_map_flat_map {A B C : Type} (f : B -> list C) (g : A -> list B)
  (l : list A) :
  flat_map f (flat_map g l) = flat_map (fun x => flat_map f (g x)) l.
Proof.
  induction l as [|a l IH]; simpl; [reflexivity|].
  now rewrite flat_map_app, IH.
Qed.

Lemma collect_image_files_dir (top n : string) (children : list Entry) :
  collect_image_files top (EDir n children)
  = map (Py.path_join top) (filter is_image_file (filenames children))
    ++ flat_map
         (fun c => collect_image_files (Py.path_join top (entry_name c)) c)
         children.
Proof.
  unfold collect_image_files. simpl walk. simpl flat_map.
  now rewrite flat_map_flat_map.
Qed.

Lemma NoDup_map_filter {A B : Type} (f : A -> B) (g : A -> bool)
  (l : list A) :
  NoDup (map f l) -> NoDup (map f (filter g l)).
Proof.
  induction l as [|a l IH]; simpl; intros H; [constructor|].
  inversion H as [|? ? Hnot Hrest]; subst.
  destruct (g a); simpl; [|now apply IH].
  constructor; [|now apply IH].
  intros Hin. apply Hnot. apply in_map_iff in Hin.
  destruct Hin as (x & Hx & Hxin). apply filter_In in Hxin.
  apply in_map_iff. exists x. tauto.
Qed.

Lemma NoDup_flat_map_keyed {A B K : Type} (key : A -> K) (g : A -> list B)
  (l : list A) :
  NoDup (map key l) ->
  (forall x, In x l -> NoDup (g x)) ->
  (forall x y p, In x l -> In y l -> In p (g x) -> In p (g y) ->
                 key x = key y) ->
  NoDup (flat_map g l).
Proof.
  induction l as [|a l IH]; simpl; intros Hk Hg Hd; [constructor|].
  inversion Hk as [|? ? Hnot Hrest]; subst.
  apply NoDup_app.
  - apply Hg. now left.
  - apply IH; [exact Hrest | |].
    + intros x Hx. apply Hg. now right.
    + intros x y p Hx Hy. apply Hd; now right.
  - intros p Hp Hp'. apply in_flat_map in Hp'.
    destruct Hp' as (y & Hy & Hpy). apply Hnot.
    rewrite (Hd a y p); [now apply in_map | now left | now right
                         | exact Hp | exact Hpy].
Qed.

(** A name without '/' is what stands before the first '/'. *)
Lemma slash_cut_unique (a a' b b' : string) :
  (forall x y, a <> (x ++ String "/"%char y)%string) ->
  (forall x y, a' <> (x ++ String "/"%char y)%string) ->
  (a ++ String "/"%char b = a' ++ String "/"%char b')%string ->
  a = a'.
Proof.
  revert a'. induction a as [|c a IH]; intros [|c' a'] Ha Ha' H;
    simpl in H.
  - reflexivity.
  - inversion H; subst. exfalso. exact (Ha' "" a' eq_refl).
  - inversion H; subst. exfalso. exact (Ha "" a eq_refl).
  - inversion H; subst. f_equal. apply IH; [| |assumption].
    + intros x y E. apply (Ha (String c' x) y). simpl. now rewrite E.
    + intros x y E. apply (Ha' (String c' x) y). simpl. now rewrite E.
Qed.

(** The paths collected below an entry of a directory start with the
    prefix of the directory, the name of the entry and a '/'. *)
Lemma collect_image_files_below (top prefix : string) (c : Entry)
  (p : string) :
  opens top prefix -> well_named c ->
  In p (collect_image_files (Py.path_join top (entry_name c)) c) ->
  exists rest,
    p = (prefix ++ entry_name c ++ String "/"%char rest)%string.
Proof.
  intros Ho Hc Hp. destruct c as [f|d children]; [destruct Hp|].
  inversion Hc as [|? ? Hd _ _]; subst. simpl entry_name in *.
  rewrite (path_join_opens top prefix d Ho Hd) in Hp.
  apply (collect_image_files_located _ (prefix ++ d ++ "/")%string) in Hp;
    [|now apply opens_child | now apply well_named_listing_ok].
  destruct Hp as (dirs & name & _ & _ & ->).
  exists (rel_path dirs name). now rewrite !string_app_assoc.
Qed.

(** In a tree as a file system gives it, no path is collected twice. *)
Lemma collect_image_files_NoDup (e : Entry) :
  forall top prefix,
    opens top prefix -> listing_ok e ->
    NoDup (collect_image_files top e).
Proof.
  induction e as [n|n children IH] using Entry_tree_ind;
    intros top prefix Ho Hok.
  - constructor.
  - destruct Hok as [Hnames Hok]. rewrite Forall_forall in IH, Hok.
    rewrite collect_image_files_dir. apply NoDup_app.
    + apply NoDup_map_NoDup_ForallPairs.
      * intros x y Hx Hy E. apply filter_In in Hx, Hy.
        destruct Hx as [Hx _], Hy as [Hy _].
        apply in_filenames in Hx, Hy.
        pose proof (Hok _ Hx) as Vx. pose proof (Hok _ Hy) as Vy.
        inversion Vx; inversion Vy; subst.
        rewrite !(path_join_opens top prefix) in E by assumption.
        now apply string_app_inv_head in E.
      * apply NoDup_filter. unfold filenames. now apply NoDup_map_filter.
    + apply NoDup_flat_map_keyed with (key := entry_name).
      * exact Hnames.
      * intros c Hc. pose proof (Hok _ Hc) as Vc.
        destruct c as [f|d children']; [constructor|].
        inversion Vc as [|? ? Hd _ _]; subst. simpl entry_name.
        rewrite (path_join_opens top prefix d Ho Hd).
        apply (IH _ Hc _ (prefix ++ d ++ "/")%string);
          [now apply opens_child | now apply well_named_listing_ok].
      * intros x y p Hx Hy Hpx Hpy.
        destruct (collect_image_files_below top prefix x p Ho (Hok _ Hx) Hpx)
          as (rx & Ex).
        destruct (collect_image_files_below top prefix y p Ho (Hok _ Hy) Hpy)
          as (ry & Ey).
        rewrite Ex in Ey. apply string_app_inv_head in Ey.
        pose proof (Hok _ Hx) as Vx. pose proof (Hok _ Hy) as Vy.
        apply (slash_cut_unique _ _ rx ry); [| |exact Ey].
        -- inversion Vx as [? [_ H]|? ? [_ H] _ _]; subst; exact H.
        -- inversion Vy as [? [_ H]|? ? [_ H] _ _]; subst; exact H.
    + intros p Hp Hp'. apply in_map_iff in Hp.
      destruct Hp as (f & <- & Hf). apply filter_In in Hf.
      destruct Hf as [Hf _]. apply in_filenames in Hf.
      pose proof (Hok _ Hf) as Vf. inversion Vf as [? Hvalid|]; subst.
      apply in_flat_map in Hp'. destruct Hp' as (c & Hc & Hpc).
      rewrite (path_join_opens top prefix f Ho Hvalid) in Hpc.
      destruct (collect_image_files_below top prefix c _ Ho (Hok _ Hc) Hpc)
        as (rest & E).
      apply string_app_inv_head in E.
      exact (proj2 Hvalid _ _ E).
Qed.

(** C7. The enumeration is in ascending order of the path strings, as
    Python compares [str] (by code point), and holds each collected path
    as often as it was collected; two listings that make the loops
    collect the same paths, in whatever order, give the same sequence.
    For a tree as a file system gives it (names not empty, without '/',
    no two the same in a directory) and a root path that is not empty,
    it returns exactly the paths of the files under the root whose
    names end, up to the case of letters, with a dot and one of png,
    jpg, jpeg, gif, bmp, svg, each once: the path of a file is the root
    path, '/' (unless the root path ends with one), the names of the
    directories on the way and the name of the file, '/' between them.
    Two trees with the same files under the same root path give the
    same sequence. *)
Theorem get_image_files_spec (base_folder : string) (tree : Entry) :
  let files := _get_image_files base_folder tree in
  StronglySorted str_le files
  /\ Permutation (collect_image_files base_folder tree) files
  /\ (forall tree',
         Permutation (collect_image_files base_folder tree)
                     (collect_image_files base_folder tree') ->
         _get_image_files base_folder tree' = files)
  /\ (forall prefix,
         opens base_folder prefix -> listing_ok tree ->
         (forall p,
             In p files
             <-> exists dirs name,
                   located tree dirs name
                   /\ recognised_image_name name
                   /\ p = (prefix ++ rel_path dirs name)%string)
         /\ NoDup files
         /\ (forall tree',
                listing_ok tree' ->
                (forall dirs name,
                    located tree dirs name <-> located tree' dirs name) ->
                _get_image_files base_folder tree' = files)).
Proof.
  intros files. unfold files, _get_image_files.
  split; [apply sorted_sorted|]. split; [apply sorted_perm|].
  split; [intros tree' HP; symmetry; now apply sorted_perm_eq|].
  intros prefix Ho Hok.
  assert (forall t, listing_ok t ->
            forall p,
              In p (sorted (collect_image_files base_folder t))
              <-> exists dirs name,
                    located t dirs name /\ recognised_image_name name
                    /\ p = (prefix ++ rel_path dirs name)%string) as Hmem.
  { intros t Ht p.
    rewrite <- (collect_image_files_located base_folder prefix t Ho Ht).
    split; apply Permutation_in;
      [symmetry; apply sorted_perm | apply sorted_perm]. }
  split; [now apply Hmem|]. split.
  - apply (Permutation_NoDup (sorted_perm _)).
    now apply collect_image_files_NoDup with prefix.
  - intros tree' Hok' Hsame. apply sorted_perm_eq.
    apply NoDup_Permutation.
    + now apply collect_image_files_NoDup with prefix.
    + now apply collect_image_files_NoDup with prefix.
    + intros p.
      rewrite (collect_image_files_located base_folder prefix tree' Ho Hok').
      rewrite (collect_image_files_located base_folder prefix tree Ho Hok).
      split; intros (dirs & name & Hloc & Hrest); exists dirs, name;
        (split; [now apply Hsame | exact Hrest]).
Qed.

Example sample_image_files :
  _get_image_files "train" Sample.tree
  = ["train/coll-42-shapes/png/moon.PNG";
     "train/coll-42-shapes/png/star.png"].
Proof. vm_compute. reflexivity. Qed.

Lemma sample_listing_ok : listing_ok Sample.tree.
Proof.
  assert (forall n, n <> "" -> Py.contains "/"%char n = false ->
                    well_named (EFile n)) as Hfile
    by (intros n H1 H2; constructor; now apply valid_name_check).
  unfold Sample.tree. simpl. split.
  - constructor; [intros []|constructor].
  - constructor; [|constructor].
    constructor; [now apply valid_name_check| |].
    + constructor; [intros []|constructor].
    + constructor; [|constructor].
      constructor; [now apply valid_name_check| |].
      * simpl. repeat constructor; simpl; intuition discriminate.
      * repeat (constructor; [now apply Hfile|]). constructor.
Qed.

Lemma get_image_files_spec_witness :
  let relisted :=
    EDir "train" [EDir "coll-42-shapes"
      [EDir "png" [EFile "notes.txt"; EFile "moon.PNG"; EFile "star.png"]]] in
  opens "train" "train/"
  /\ listing_ok Sample.tree
  /\ _get_image_files "train" Sample.tree
     = ["train/coll-42-shapes/png/moon.PNG";
        "train/coll-42-shapes/png/star.png"]
  /\ In "train/coll-42-shapes/png/moon.PNG"
        (_get_image_files "train" Sample.tree)
  /\ NoDup (_get_image_files "train" Sample.tree)
  /\ _get_image_files "train" relisted
     = _get_image_files "train" Sample.tree.
Proof.
  intros relisted.
  assert (opens "train" "train/") as Ho
    by (apply (opens_other "trai" "n"); discriminate).
  destruct (get_image_files_spec "train" Sample.tree)
    as (_ & _ & Hperm & Hfs).
  destruct (Hfs "train/" Ho sample_listing_ok) as (Hmem & Hnodup & _).
  split; [exact Ho|]. split; [exact sample_listing_ok|].
  split; [vm_compute; reflexivity|]. split; [|split; [exact Hnodup|]].
  - apply Hmem. exists ["coll-42-shapes"; "png"], "moon.PNG".
    split; [|split; [|reflexivity]].
    + eapply located_below; [now left|].
      eapply located_below; [now left|].
      apply located_here. simpl. auto.
    + exists "png". split; [simpl; auto|].
      exists "moon", ".PNG". split; [reflexivity|].
      unfold same_up_to_case. simpl.
      constructor; [now left|].
      constructor; [right; left; exists 80%nat; repeat split; lia|].
      constructor; [right; left; exists 78%nat; repeat split; lia|].
      constructor; [right; left; exists 71%nat; repeat split; lia|].
      constructor.
  - apply Hperm. cbv.
    apply perm_trans
      with ["train/coll-42-shapes/png/moon.PNG";
            "train/coll-42-shapes/png/star.png"];
      [apply perm_swap | apply Permutation_refl].
Defined.

(* ================================================================== *)
(** * Schema initialisation *)
(* ================================================================== *)

Lemma legacy_columns_add_skipped (r : LegacyRecord) :
  legacy_columns (add_skipped_column r) = r.
Proof. now destruct r. Qed.

Lemma init_database_as_database (s : Store) :
  processing_count s <> None -> _init_database (as_database s) = s.
Proof.
  destruct s as [rows sq [row|]]; simpl; intros H; [reflexivity | congruence].
Qed.

(** C10. Initialising a database that already has its tables changes no
    existing row: with the current schema the image rows and the
    AUTOINCREMENT counter are the same; with the schema that lacks
    [skipped] every row keeps its other columns and reads 0 for the new
    one; an existing counter row is kept as it is. Initialising a store
    that is already initialised is the identity. *)
Theorem init_database_preserves (db : Database) :
  (forall rows sq,
      db_flaticon_images db = Some (CurrentImages rows sq) ->
      flaticon_images (_init_database db) = rows
      /\ sqlite_sequence (_init_database db) = sq)
  /\ (forall rows sq,
         db_flaticon_images db = Some (LegacyImages rows sq) ->
         map legacy_columns (flaticon_images (_init_database db)) = rows
         /\ Forall (fun r => skipped r = Some 0%Z)
              (flaticon_images (_init_database db))
         /\ sqlite_sequence (_init_database db) = sq)
  /\ (forall row,
         db_processing_count db = Some (Some row) ->
         processing_count (_init_database db) = Some row)
  /\ (forall s,
         db = as_database s -> processing_count s <> None ->
         _init_database db = s)
  /\ _init_database (as_database (_init_database db)) = _init_database db.
Proof.
  split; [|split; [|split; [|split]]].
  - intros rows sq H. unfold _init_database. rewrite H. now simpl.
  - intros rows sq H. unfold _init_database. rewrite H. simpl.
    split; [|split; [|reflexivity]].
    + rewrite map_map. erewrite map_ext; [apply map_id|].
      apply legacy_columns_add_skipped.
    + apply Forall_forall. intros r Hr.
      apply in_map_iff in Hr. now destruct Hr as (l & <- & _).
  - intros row H. unfold _init_database. rewrite H.
    now destruct (db_flaticon_images db) as [[? ?|? ?]|].
  - intros s -> Hs. now apply init_database_as_database.
  - unfold _init_database.
    destruct (db_flaticon_images db) as [[rows sq|rows sq]|];
      destruct (db_processing_count db) as [[row|]|]; reflexivity.
Qed.

Lemma init_database_preserves_witness :
  let row := {| pc_image_path := Some "train/c/png/star.png";
                pc_updated_when := Some 7%Z |} in
  let old := {| l_id := 1; l_collection := "c"; l_type := "png";
                l_file := "star"; l_filename := "star.png";
                l_image_path := "train/c/png/star.png";
                l_model := Some "ollama/qwen2.5vl";
                l_text := Some "a star"; l_created_when := 3;
                l_scanned_when := 5; l_updated_when := Some 7%Z |} in
  let db := {| db_flaticon_images := Some (LegacyImages [old] 1);
               db_processing_count := Some (Some row) |} in
  map legacy_columns (flaticon_images (_init_database db)) = [old]
  /\ processing_count (_init_database db) = Some row.
Proof.
  intros row old db.
  destruct (init_database_preserves db) as (_ & Hlegacy & Hrow & _).
  split.
  - exact (proj1 (Hlegacy [old] 1%Z eq_refl)).
  - exact (Hrow row eq_refl).
Defined.

(* ================================================================== *)
(** * Scanner *)
(* ================================================================== *)

Lemma set_scanned_when_twice (t u : Z) (r : ImageRecord) :
  set_scanned_when t (set_scanned_when u r) = set_scanned_when t r.
Proof. reflexivity. Qed.

Lemma set_scanned_when_same (r : ImageRecord) :
  set_scanned_when (scanned_when r) r = r.
Proof. now destruct r. Qed.

Lemma select_id_by_path_some (rows : list ImageRecord) (p : string) :
  In p (paths rows) <-> exists i, select_id_by_path rows p = Some i.
Proof.
  unfold select_id_by_path, paths. split.
  - intros H. apply in_map_iff in H. destruct H as (r & Hr & Hin).
    destruct (find (fun r => String.eqb (image_path r) p) rows) eqn:E.
    + now eexists.
    + apply (find_none _ _ E) in Hin. subst p.
      now rewrite String.eqb_refl in Hin.
  - intros [i H].
    destruct (find (fun r => String.eqb (image_path r) p) rows) eqn:E;
      [|discriminate].
    apply find_some in E. destruct E as [Hin Heq].
    apply String.eqb_eq in Heq. subst p. now apply in_map.
Qed.

Lemma select_id_by_path_none (rows : list ImageRecord) (p : string) :
  ~ In p (paths rows) <-> select_id_by_path rows p = None.
Proof.
  rewrite select_id_by_path_some. split.
  - intros H. destruct (select_id_by_path rows p); [|reflexivity].
    exfalso. apply H. now eexists.
  - intros H [i Hi]. congruence.
Qed.

Lemma paths_update_scanned_when (t : Z) (p : string)
  (rows : list ImageRecord) :
  paths (update_scanned_when t p rows) = paths rows.
Proof.
  unfold paths, update_scanned_when. rewrite map_map. apply map_ext.
  intros r. now destruct (String.eqb (image_path r) p).
Qed.

Lemma ids_update_scanned_when (t : Z) (p : string)
  (rows : list ImageRecord) :
  ids (update_scanned_when t p rows) = ids rows.
Proof.
  unfold ids, update_scanned_when. rewrite map_map. apply map_ext.
  intros r. now destruct (String.eqb (image_path r) p).
Qed.

(** The two branches of the inner loop. *)
Lemma scan_path_cases (t : Z) (s s' : Store) (p : string) :
  scan_path t s p = Some s' ->
  exists metadata,
    _parse_image_path p = Some metadata /\
    ((In p (paths (flaticon_images s)) /\
      s' = {| flaticon_images :=
                update_scanned_when t p (flaticon_images s);
              sqlite_sequence := sqlite_sequence s;
              processing_count := processing_count s |})
     \/ (~ In p (paths (flaticon_images s)) /\
         s' = insert_image metadata p t s)).
Proof.
  unfold scan_path. destruct (_parse_image_path p) as [md|]; [|discriminate].
  intros H. exists md. split; [reflexivity|].
  destruct (select_id_by_path (flaticon_images s) p) as [i|] eqn:E.
  - left. split; [|congruence].
    apply select_id_by_path_some. now exists i.
  - right. split; [|congruence]. now apply select_id_by_path_none.
Qed.

Lemma scan_batch_app (t : Z) (a b : list string) (s : Store) :
  scan_batch t s (a ++ b)
  = match scan_batch t s a with
    | Some s1 => scan_batch t s1 b
    | None => None
    end.
Proof.
  revert s. induction a as [|p a IH]; intros s; simpl; [reflexivity|].
  destruct (scan_path t s p); [apply IH | reflexivity].
Qed.

Lemma refresh_nil (t : Z) (r : ImageRecord) : refresh t [] r = r.
Proof. reflexivity. Qed.

Lemma refresh_cons_other (t : Z) (p : string) (files : list string)
  (r : ImageRecord) :
  image_path r <> p -> refresh t (p :: files) r = refresh t files r.
Proof.
  intros H. unfold refresh. simpl.
  apply String.eqb_neq in H. now rewrite H.
Qed.

Lemma refresh_touched (t : Z) (p : string) (files : list string)
  (r : ImageRecord) :
  refresh t files
    (if String.eqb (image_path r) p then set_scanned_when t r else r)
  = refresh t (p :: files) r.
Proof.
  unfold refresh. simpl.
  destruct (String.eqb (image_path r) p) eqn:E; simpl; [|reflexivity].
  now destruct (existsb (String.eqb (image_path r)) files).
Qed.

Lemma refresh_fresh (t : Z) (files : list string) (r : ImageRecord) :
  scanned_when r = t -> refresh t files r = r.
Proof.
  intros <-. unfold refresh.
  destruct (existsb _ files); [apply set_scanned_when_same | reflexivity].
Qed.

(** The shape of the table after a run of the inner loop over [files]:
    the rows it had, each refreshed when its path is in [files], then
    the rows inserted, whose paths were not in the table. *)
Lemma scan_batch_shape (t : Z) (files : list string) :
  forall s s',
    scan_batch t s files = Some s' ->
    exists new,
      flaticon_images s'
      = map (refresh t files) (flaticon_images s) ++ new
      /\ Forall (fun r => ~ In (image_path r) (paths (flaticon_images s))
                          /\ In (image_path r) files
                          /\ fresh_row t r) new
      /\ processing_count s' = processing_count s.
Proof.
  induction files as [|p files IH]; intros s s' H; simpl in H.
  - inversion H; subst. exists []. rewrite app_nil_r.
    split; [|split; [constructor | reflexivity]].
    symmetry. erewrite map_ext; [apply map_id|]. apply refresh_nil.
  - destruct (scan_path t s p) as [s1|] eqn:E; [|discriminate].
    destruct (IH s1 s' H) as (new & Hrows & Hnew & Hpc).
    destruct (scan_path_cases _ _ _ _ E) as (md & Hmd & [[Hin ->]|[Hout ->]]).
    + exists new. simpl in *. split; [|split; [|exact Hpc]].
      * rewrite Hrows. f_equal. unfold update_scanned_when.
        rewrite map_map. apply map_ext. intros r. apply refresh_touched.
      * rewrite paths_update_scanned_when in Hnew.
        eapply Forall_impl; [|exact Hnew]. simpl. tauto.
    + set (r0 := {| id := (Z.max (sqlite_sequence s)
                             (max_rowid (flaticon_images s)) + 1)%Z;
                    collection := md_collection md; type := md_type md;
                    file := md_file md; filename := md_filename md;
                    image_path := p; model := None; text := None;
                    skipped := Some 0%Z; created_when := t;
                    scanned_when := t; updated_when := None |}).
      exists (r0 :: new). simpl in *. fold r0 in Hrows, Hnew.
      split; [|split; [|exact Hpc]].
      * rewrite Hrows, map_app, <- app_assoc. simpl.
        rewrite (refresh_fresh t files r0) by reflexivity.
        f_equal. apply map_ext_in. intros r Hr. symmetry.
        apply refresh_cons_other. intros Heq. apply Hout. subst p.
        now apply in_map.
      * constructor.
        -- simpl. split; [exact Hout|]. split; [now left|].
           unfold fresh_row. simpl. rewrite Hmd. now destruct md.
        -- eapply Forall_impl; [|exact Hnew]. simpl.
           intros r (Hr & Hf & Hfresh). split; [|split; auto].
           intros Hin. apply Hr. unfold paths. rewrite map_app.
           apply in_or_app. now left.
Qed.

Lemma in_firstn {A : Type} (n : nat) (l : list A) (x : A) :
  In x (firstn n l) -> In x l.
Proof.
  intros H. rewrite <- (firstn_skipn n l). apply in_or_app. now left.
Qed.

Lemma firstn_add {A : Type} (a b : nat) (l : list A) :
  firstn (a + b) l = firstn a l ++ firstn b (skipn a l).
Proof.
  revert l. induction a as [|a IH]; intros l; [reflexivity|].
  destruct l as [|x l]; simpl.
  - now rewrite firstn_nil.
  - now rewrite IH.
Qed.

Lemma slice_app {A : Type} (l : list A) (i j k : nat) :
  (i <= j)%nat -> (j <= k)%nat ->
  slice l i j ++ slice l j k = slice l i k.
Proof.
  intros Hij Hjk. unfold slice.
  replace (k - i)%nat with ((j - i) + (k - j))%nat by lia.
  rewrite firstn_add, skipn_skipn.
  now replace (j - i + i)%nat with j by lia.
Qed.

Lemma slice_from_start {A : Type} (l : list A) (k : nat) :
  slice l 0 k = firstn k l.
Proof. unfold slice. now rewrite Nat.sub_0_r. Qed.

Lemma slice_all {A : Type} (l : list A) (k : nat) :
  (List.length l <= k)%nat -> slice l 0 k = l.
Proof.
  intros H. unfold slice. simpl. rewrite Nat.sub_0_r. now apply firstn_all2.
Qed.

Lemma range_step_covers (n : nat) :
  (n <= (n + SCAN_BATCH_SIZE - 1) / SCAN_BATCH_SIZE * SCAN_BATCH_SIZE)%nat.
Proof.
  unfold SCAN_BATCH_SIZE.
  pose proof (Nat.div_mod_eq (n + 100 - 1) 100).
  pose proof (Nat.mod_upper_bound (n + 100 - 1) 100). lia.
Qed.

Lemma scan_loop_cons (t : Z) (files : list string) (i : nat)
  (rest : list nat) (w : World) :
  scan_loop t files (i :: rest) w
  = match scan_batch t (w_store w)
            (slice files i (i + SCAN_BATCH_SIZE)) with
    | None => Raised w
    | Some s' =>
        scan_loop t files rest
          (print (MBatch (i / SCAN_BATCH_SIZE + 1)
                    ((List.length files + SCAN_BATCH_SIZE - 1)
                     / SCAN_BATCH_SIZE))
             (commit s' w))
    end.
Proof. reflexivity. Qed.

(** The outer loop, batch by batch: when it returns, the table is what
    the inner loop makes of all the slices in one go; when it raises, the
    table is what it makes of the batches before the failing one. *)
Lemma scan_loop_spec (t : Z) (files : list string) (m : nat) :
  forall a w,
    match scan_loop t files
            (map (fun k => k * SCAN_BATCH_SIZE)%nat (seq a m)) w with
    | Returned w' =>
        scan_batch t (w_store w)
          (slice files (a * SCAN_BATCH_SIZE) ((a + m) * SCAN_BATCH_SIZE))
        = Some (w_store w')
        /\ w_now w' = w_now w /\ w_calls w' = w_calls w
    | Raised w' =>
        exists j,
          (j < m)%nat
          /\ scan_batch t (w_store w)
               (slice files (a * SCAN_BATCH_SIZE)
                  ((a + j) * SCAN_BATCH_SIZE))
             = Some (w_store w')
          /\ scan_batch t (w_store w')
               (slice files ((a + j) * SCAN_BATCH_SIZE)
                  ((a + j + 1) * SCAN_BATCH_SIZE)) = None
          /\ w_now w' = w_now w /\ w_calls w' = w_calls w
    end.
Proof.
  induction m as [|m IH]; intros a w.
  - cbn [seq map scan_loop]. unfold slice.
    rewrite Nat.add_0_r, Nat.sub_diag. simpl. auto.
  - change (seq a (S m)) with (a :: seq (S a) m).
    rewrite map_cons, scan_loop_cons.
    replace (a * SCAN_BATCH_SIZE + SCAN_BATCH_SIZE)%nat
      with ((a + 1) * SCAN_BATCH_SIZE)%nat by lia.
    destruct (scan_batch t (w_store w)
                (slice files (a * SCAN_BATCH_SIZE)
                   ((a + 1) * SCAN_BATCH_SIZE))) as [s1|] eqn:E.
    + match goal with
      | |- match scan_loop _ _ _ ?w1 with _ => _ end =>
          specialize (IH (S a) w1); revert IH;
          destruct (scan_loop t files
                      (map (fun k => (k * SCAN_BATCH_SIZE)%nat)
                         (seq (S a) m)) w1) as [w'|w']; intros IH
      end.
      * destruct IH as (H & Hn & Hc). split; [|auto].
        rewrite <- (slice_app files (a * SCAN_BATCH_SIZE)
                      ((a + 1) * SCAN_BATCH_SIZE)
                      ((a + S m) * SCAN_BATCH_SIZE)) by lia.
        rewrite scan_batch_app, E.
        replace ((a + 1) * SCAN_BATCH_SIZE)%nat
          with (S a * SCAN_BATCH_SIZE)%nat by lia.
        now replace ((a + S m) * SCAN_BATCH_SIZE)%nat
          with ((S a + m) * SCAN_BATCH_SIZE)%nat by lia.
      * destruct IH as (j & Hj & H1 & H2 & Hn & Hc).
        exists (S j). split; [lia|]. split; [|split; [|auto]].
        -- rewrite <- (slice_app files (a * SCAN_BATCH_SIZE)
                         ((a + 1) * SCAN_BATCH_SIZE)
                         ((a + S j) * SCAN_BATCH_SIZE)) by lia.
           rewrite scan_batch_app, E.
           replace ((a + 1) * SCAN_BATCH_SIZE)%nat
             with (S a * SCAN_BATCH_SIZE)%nat by lia.
           now replace ((a + S j) * SCAN_BATCH_SIZE)%nat
             with ((S a + j) * SCAN_BATCH_SIZE)%nat by lia.
        -- replace ((a + S j) * SCAN_BATCH_SIZE)%nat
             with ((S a + j) * SCAN_BATCH_SIZE)%nat by lia.
           now replace ((a + S j + 1) * SCAN_BATCH_SIZE)%nat
             with ((S a + j + 1) * SCAN_BATCH_SIZE)%nat by lia.
    + exists 0%nat. split; [lia|].
      rewrite !Nat.add_0_r. unfold slice at 1. rewrite Nat.sub_diag.
      cbn [firstn scan_batch]. auto.
Qed.

(** The scan pass as a whole: it reads the clock once, and the table it
    leaves is what the inner loop makes of a prefix of the sorted files
    (all of them when it returns). *)
Lemma scan_and_update_database_spec (env : Env) (self : FlaticonDatasets)
  (tree : Entry) (w : World) :
  let files := _get_image_files (base_folder self) tree in
  let t := env_clock env (w_now w) in
  let result := _scan_and_update_database env self tree w in
  w_now (world_of result) = S (w_now w)
  /\ w_calls (world_of result) = w_calls w
  /\ exists done rest,
       files = done ++ rest
       /\ scan_batch t (w_store w) done = Some (w_store (world_of result))
       /\ match result with
          | Returned _ => rest = []
          | Raised _ => scan_batch t (w_store w) files = None
          end.
Proof.
  intros files t result. unfold result, _scan_and_update_database.
  fold files. cbn [datetime_now]. fold t. unfold range_step.
  match goal with
  | |- context [scan_loop t files _ ?w1] =>
      pose proof (scan_loop_spec t files
        ((List.length files + SCAN_BATCH_SIZE - 1) / SCAN_BATCH_SIZE)
        0 w1) as H;
      revert H;
      destruct (scan_loop t files
                  (map (fun k => (k * SCAN_BATCH_SIZE)%nat)
                     (seq 0 ((List.length files + SCAN_BATCH_SIZE - 1)
                             / SCAN_BATCH_SIZE))) w1) as [w'|w'];
      intros H
  end; cbn [Nat.add Nat.mul] in H; cbn [world_of].
  - destruct H as (H & Hn & Hc). split; [exact Hn|]. split; [exact Hc|].
    exists files, []. rewrite app_nil_r. split; [reflexivity|].
    split; [|reflexivity].
    rewrite slice_all in H by apply range_step_covers. exact H.
  - destruct H as (j & Hj & H1 & H2 & Hn & Hc).
    split; [exact Hn|]. split; [exact Hc|].
    exists (slice files 0 (j * SCAN_BATCH_SIZE)),
           (skipn (j * SCAN_BATCH_SIZE) files).
    split; [|split; [exact H1|]].
    + rewrite slice_from_start. symmetry. apply firstn_skipn.
    + rewrite <- (firstn_skipn ((j + 1) * SCAN_BATCH_SIZE) files).
      rewrite scan_batch_app, <- slice_from_start.
      rewrite <- (slice_app files 0 (j * SCAN_BATCH_SIZE)
                    ((j + 1) * SCAN_BATCH_SIZE)) by lia.
      rewrite scan_batch_app. cbn [w_store print] in H1. rewrite H1.
      now rewrite H2.
Qed.

Lemma refresh_masked (t : Z) (files : list string) (r : ImageRecord) :
  mask_scanned_when (refresh t files r) = mask_scanned_when r.
Proof. unfold refresh. now destruct (existsb _ files). Qed.

Lemma refresh_image_path (t : Z) (files : list string) (r : ImageRecord) :
  image_path (refresh t files r) = image_path r.
Proof. unfold refresh. now destruct (existsb _ files). Qed.

Lemma refresh_seen (t : Z) (files : list string) (r : ImageRecord) :
  In (image_path r) files -> scanned_when (refresh t files r) = t.
Proof.
  intros H. unfold refresh.
  assert (existsb (String.eqb (image_path r)) files = true) as ->.
  { apply existsb_exists. exists (image_path r).
    split; [exact H | apply String.eqb_refl]. }
  reflexivity.
Qed.


Lemma max_rowid_ge (rows : list ImageRecord) (r : ImageRecord) :
  In r rows -> (id r <= max_rowid rows)%Z.
Proof.
  induction rows as [|x rows IH]; simpl; [tauto|].
  intros [->|H]; [lia|]. specialize (IH H). lia.
Qed.

Lemma NoDup_snoc {A : Type} (l : list A) (x : A) :
  NoDup l -> ~ In x l -> NoDup (l ++ [x]).
Proof.
  intros Hl Hx. apply (Permutation_NoDup (Permutation_cons_append l x)).
  now constructor.
Qed.

(** The inner loop keeps the key and the path unique. *)
Lemma scan_path_keys_unique (t : Z) (s s' : Store) (p : string) :
  scan_path t s p = Some s' ->
  keys_unique (flaticon_images s) -> keys_unique (flaticon_images s').
Proof.
  intros H [Hid Hp].
  destruct (scan_path_cases _ _ _ _ H) as (md & _ & [[Hin ->]|[Hout ->]]).
  - unfold keys_unique. simpl.
    now rewrite ids_update_scanned_when, paths_update_scanned_when.
  - unfold keys_unique, insert_image, ids, paths. simpl.
    rewrite !map_app. simpl. split; apply NoDup_snoc; auto.
    intros Hi. apply in_map_iff in Hi. destruct Hi as (r & Hr & Hin).
    apply max_rowid_ge in Hin. lia.
Qed.

Lemma scan_batch_keys_unique (t : Z) (files : list string) :
  forall s s',
    scan_batch t s files = Some s' ->
    keys_unique (flaticon_images s) -> keys_unique (flaticon_images s').
Proof.
  induction files as [|p files IH]; intros s s' H Hk; simpl in H.
  - now inversion H; subst.
  - destruct (scan_path t s p) as [s1|] eqn:E; [|discriminate].
    eapply IH; [exact H|]. eapply scan_path_keys_unique; eauto.
Qed.

Lemma scan_path_known (t : Z) (s s' : Store) (p : string) :
  scan_path t s p = Some s' ->
  incl (paths (flaticon_images s)) (paths (flaticon_images s'))
  /\ In p (paths (flaticon_images s'))
  /\ _parse_image_path p <> None.
Proof.
  intros H.
  destruct (scan_path_cases _ _ _ _ H) as (md & Hmd & [[Hin ->]|[Hout ->]]);
    simpl.
  - rewrite paths_update_scanned_when.
    split; [apply incl_refl|]. split; [exact Hin | congruence].
  - unfold paths. rewrite map_app. simpl.
    split; [now apply incl_appl, incl_refl|].
    split; [apply in_or_app; right; now left | congruence].
Qed.

(** After a run of the inner loop every path it went through is in the
    table, and every one of them could be parsed. *)
Lemma scan_batch_known (t : Z) (files : list string) :
  forall s s',
    scan_batch t s files = Some s' ->
    incl (paths (flaticon_images s)) (paths (flaticon_images s'))
    /\ Forall (fun p => In p (paths (flaticon_images s'))
                        /\ _parse_image_path p <> None) files.
Proof.
  induction files as [|p files IH]; intros s s' H; simpl in H.
  - inversion H; subst. split; [apply incl_refl | constructor].
  - destruct (scan_path t s p) as [s1|] eqn:E; [|discriminate].
    destruct (scan_path_known _ _ _ _ E) as (Hincl & Hp & Hparse).
    destruct (IH _ _ H) as (Hincl' & Hall).
    split; [eapply incl_tran; eauto|].
    constructor; [split; [now apply Hincl' | exact Hparse] | exact Hall].
Qed.

(** Over paths that are all in the table and all parse, the inner loop
    inserts nothing: it refreshes the rows of these paths. *)
Lemma scan_batch_known_paths (t : Z) (files : list string) :
  forall s,
    Forall (fun p => In p (paths (flaticon_images s))
                     /\ _parse_image_path p <> None) files ->
    scan_batch t s files
    = Some {| flaticon_images := map (refresh t files) (flaticon_images s);
              sqlite_sequence := sqlite_sequence s;
              processing_count := processing_count s |}.
Proof.
  induction files as [|p files IH]; intros s H; simpl.
  - destruct s as [rows sq pc]. simpl. f_equal. f_equal.
    symmetry. erewrite map_ext; [apply map_id|]. apply refresh_nil.
  - inversion H as [|? ? [Hin Hparse] Hrest]; subst.
    unfold scan_path.
    destruct (_parse_image_path p) as [md|]; [|congruence].
    apply select_id_by_path_some in Hin. destruct Hin as [i ->].
    rewrite IH; simpl.
    + f_equal. f_equal. unfold update_scanned_when. rewrite map_map.
      apply map_ext. intros r. apply refresh_touched.
    + rewrite paths_update_scanned_when. exact Hrest.
Qed.


(** Whether the inner loop raises depends on its paths only. *)
Lemma scan_batch_raises_anywhere (files : list string) :
  forall t s, scan_batch t s files = None ->
  forall t' s', scan_batch t' s' files = None.
Proof.
  induction files as [|p files IH]; intros t s H t' s'; simpl in *;
    [discriminate|].
  unfold scan_path in *.
  destruct (_parse_image_path p) as [md|]; [|reflexivity].
  destruct (select_id_by_path (flaticon_images s) p);
    destruct (select_id_by_path (flaticon_images s') p);
    eapply IH; exact H.
Qed.

Lemma scan_loop_paths_incl (t : Z) (files : list string)
  (starts : list nat) :
  forall w,
    incl (paths (flaticon_images (w_store w)))
         (paths (flaticon_images
                   (w_store (world_of (scan_loop t files starts w))))).
Proof.
  induction starts as [|i starts IH]; intros w.
  - simpl. apply incl_refl.
  - rewrite scan_loop_cons.
    destruct (scan_batch t (w_store w)
                (slice files i (i + SCAN_BATCH_SIZE))) as [s'|] eqn:E.
    + eapply incl_tran; [|apply IH]. cbn [print commit w_store].
      apply (scan_batch_known _ _ _ _ E).
    + simpl. apply incl_refl.
Qed.

(** A pass over the same files from a table that already knows every
    path an earlier pass committed ends the way the earlier one did and
    inserts nothing. *)
Lemma scan_loop_rescan (t1 t2 : Z) (files : list string)
  (starts : list nat) :
  forall wA wB,
    incl (paths (flaticon_images
                   (w_store (world_of (scan_loop t1 files starts wA)))))
         (paths (flaticon_images (w_store wB))) ->
    let rA := scan_loop t1 files starts wA in
    let rB := scan_loop t2 files starts wB in
    returned rB = returned rA
    /\ map mask_scanned_when (flaticon_images (w_store (world_of rB)))
       = map mask_scanned_when (flaticon_images (w_store wB))
    /\ sqlite_sequence (w_store (world_of rB)) = sqlite_sequence (w_store wB)
    /\ processing_count (w_store (world_of rB))
       = processing_count (w_store wB).
Proof.
  induction starts as [|i starts IH]; intros wA wB Hincl; cbv zeta.
  - simpl. auto.
  - revert Hincl. rewrite !scan_loop_cons.
    destruct (scan_batch t1 (w_store wA)
                (slice files i (i + SCAN_BATCH_SIZE))) as [sA|] eqn:EA.
    + intros Hincl.
      destruct (scan_batch_known _ _ _ _ EA) as (_ & Hknown).
      assert (Forall (fun p => In p (paths (flaticon_images (w_store wB)))
                               /\ _parse_image_path p <> None)
                (slice files i (i + SCAN_BATCH_SIZE))) as HknownB.
      { eapply Forall_impl; [|exact Hknown]. simpl.
        intros p [Hp Hparse]. split; [|exact Hparse].
        apply Hincl.
        apply (scan_loop_paths_incl t1 files starts). exact Hp. }
      rewrite (scan_batch_known_paths t2 _ _ HknownB).
      match goal with
      | |- context [scan_loop t1 files starts ?a] =>
          match goal with
          | |- context [scan_loop t2 files starts ?b] =>
              specialize (IH a b)
          end
      end.
      cbn [print commit w_store flaticon_images sqlite_sequence
             processing_count] in IH.
      assert (paths (map (refresh t2 (slice files i (i + SCAN_BATCH_SIZE)))
                       (flaticon_images (w_store wB)))
              = paths (flaticon_images (w_store wB))) as Hpaths.
      { unfold paths. rewrite map_map. apply map_ext.
        intros r. apply refresh_image_path. }
      rewrite Hpaths in IH. specialize (IH Hincl).
      destruct IH as (Hk & Hm & Hsq & Hpc).
      split; [exact Hk|]. split; [|split; [exact Hsq | exact Hpc]].
      rewrite Hm, map_map. apply map_ext. intros r. apply refresh_masked.
    + intros _.
      rewrite (scan_batch_raises_anywhere _ _ _ EA t2 (w_store wB)).
      simpl. auto.
Qed.

Lemma scan_and_update_database_rescan (env : Env) (self : FlaticonDatasets)
  (tree : Entry) (w : World) :
  let result := _scan_and_update_database env self tree w in
  let again :=
    _scan_and_update_database env self tree (world_of result) in
  returned again = returned result
  /\ map mask_scanned_when (flaticon_images (w_store (world_of again)))
     = map mask_scanned_when (flaticon_images (w_store (world_of result)))
  /\ sqlite_sequence (w_store (world_of again))
     = sqlite_sequence (w_store (world_of result))
  /\ processing_count (w_store (world_of again))
     = processing_count (w_store (world_of result)).
Proof.
  cbv zeta. unfold _scan_and_update_database. cbn [datetime_now].
  match goal with
  | |- context [returned (scan_loop ?t2 ?files ?starts ?wB)
                = returned (scan_loop ?t1 ?files ?starts ?wA)] =>
      apply (scan_loop_rescan t1 t2 files starts wA wB)
  end.
  cbn [print w_store]. apply incl_refl.
Qed.

Lemma refresh_same_other_columns (t : Z) (files : list string)
  (r : ImageRecord) :
  same_other_columns r (refresh t files r)
  /\ (scanned_when (refresh t files r) = scanned_when r
      \/ scanned_when (refresh t files r) = t).
Proof.
  unfold refresh, same_other_columns.
  destruct (existsb _ files); cbn; repeat split; auto.
Qed.

Lemma refresh_scanned_when (t : Z) (files : list string) (r : ImageRecord) :
  (In (image_path r) files -> scanned_when (refresh t files r) = t)
  /\ (~ In (image_path r) files ->
      scanned_when (refresh t files r) = scanned_when r).
Proof.
  split; [apply refresh_seen|].
  intros Hn. unfold refresh.
  destruct (existsb (String.eqb (image_path r)) files) eqn:E;
    [|reflexivity].
  apply existsb_exists in E. destruct E as (p & Hp & Heq).
  apply String.eqb_eq in Heq. subst p. contradiction.
Qed.

Lemma Forall2_map_self {A : Type} (R : A -> A -> Prop) (f : A -> A)
  (l : list A) :
  (forall x, In x l -> R x (f x)) -> Forall2 R l (map f l).
Proof.
  induction l as [|a l IH]; intros H; cbn; constructor.
  - apply H. now left.
  - apply IH. intros x Hx. apply H. now right.
Qed.

Lemma Forall2_In_l {A B : Type} (R : A -> B -> Prop) (l : list A)
  (l' : list B) (x : A) :
  Forall2 R l l' -> In x l -> exists y, In y l' /\ R x y.
Proof.
  induction 1 as [|a b l l' Hab _ IH]; intros Hx; [destruct Hx|].
  destruct Hx as [->|Hx].
  - exists b. split; [now left | exact Hab].
  - destruct (IH Hx) as (y & Hy & Hxy). exists y. split; [now right|].
    exact Hxy.
Qed.

(** C5. A scan pass leaves every row that was in the table at its place
    and with the value it had in each of the eleven columns other than
    [scanned_when]; [scanned_when] it leaves or sets to the time of the
    pass (for the rows whose path it went through). What it adds are
    rows for paths that were not in the table. It keeps ids and paths
    unique and leaves the counter row alone. A second pass over the same
    tree ends the way the first did, inserts nothing and, row by row,
    changes no column but [scanned_when]; after a first pass that
    returned, it sets [scanned_when] of the rows of the tree to its own
    time and leaves that of the other rows. *)
Theorem scan_idempotent (env : Env) (self : FlaticonDatasets)
  (tree : Entry) (w : World) :
  let files := _get_image_files (base_folder self) tree in
  let t := env_clock env (w_now w) in
  let before := flaticon_images (w_store w) in
  let result := _scan_and_update_database env self tree w in
  let after := flaticon_images (w_store (world_of result)) in
  let t' := env_clock env (w_now (world_of result)) in
  let again :=
    _scan_and_update_database env self tree (world_of result) in
  let finally := flaticon_images (w_store (world_of again)) in
  (exists done new,
      incl done files
      /\ after = map (refresh t done) before ++ new
      /\ Forall (fun r => ~ In (image_path r) (paths before)) new
      /\ map mask_scanned_when (firstn (List.length before) after)
         = map mask_scanned_when before
      /\ Forall2 (fun r r' =>
                    same_other_columns r r'
                    /\ (scanned_when r' = scanned_when r
                        \/ scanned_when r' = t))
           before (firstn (List.length before) after))
  /\ (keys_unique before -> keys_unique after)
  /\ processing_count (w_store (world_of result))
     = processing_count (w_store w)
  /\ returned again = returned result
  /\ map mask_scanned_when finally = map mask_scanned_when after
  /\ Forall2 (fun r r' =>
                same_other_columns r r'
                /\ (scanned_when r' = scanned_when r
                    \/ scanned_when r' = t'))
       after finally
  /\ sqlite_sequence (w_store (world_of again))
     = sqlite_sequence (w_store (world_of result))
  /\ processing_count (w_store (world_of again))
     = processing_count (w_store (world_of result))
  /\ (returned result = true ->
      finally = map (refresh t' files) after
      /\ (forall r, In r finally -> In (image_path r) files ->
                    scanned_when r = t')
      /\ Forall2 (fun r r' =>
                    (In (image_path r) files -> scanned_when r' = t')
                    /\ (~ In (image_path r) files ->
                        scanned_when r' = scanned_when r))
           after finally).
Proof.
  intros files t before result after t' again finally.
  destruct (scan_and_update_database_spec env self tree w)
    as (Hnow & _ & done & rest & Hfiles & Hdone & Hres).
  fold files t result in Hnow, Hfiles, Hdone, Hres.
  destruct (scan_batch_shape _ _ _ _ Hdone) as (new & Hrows & Hnew & Hpc).
  fold before after in Hrows.
  destruct (scan_and_update_database_rescan env self tree w)
    as (Hkind & Hmask & Hsq & Hpc2).
  fold result again in Hkind, Hmask, Hsq, Hpc2. fold after finally in Hmask.
  assert (firstn (List.length before) after
          = map (refresh t done) before) as Hfirst.
  { rewrite Hrows.
    rewrite <- (length_map (refresh t done) before) at 1.
    rewrite firstn_app, Nat.sub_diag, firstn_all. simpl.
    now rewrite app_nil_r. }
  split; [|split; [|split; [|split; [|split; [|split; [|split; [|split]]]]]]];
    try assumption.
  - exists done, new. split; [|split; [exact Hrows|split; [|split]]].
    + fold files. rewrite Hfiles. now apply incl_appl, incl_refl.
    + eapply Forall_impl; [|exact Hnew]. simpl. tauto.
    + rewrite Hfirst, map_map. apply map_ext. apply refresh_masked.
    + rewrite Hfirst. apply Forall2_map_self.
      intros r _. apply refresh_same_other_columns.
  - intros Hk. eapply scan_batch_keys_unique; [exact Hdone | exact Hk].
  - destruct (scan_and_update_database_spec env self tree (world_of result))
      as (_ & _ & done' & rest' & _ & Hdone' & _).
    fold t' again in Hdone'.
    destruct (scan_batch_shape _ _ _ _ Hdone') as (new' & Hrows' & _ & _).
    fold after finally in Hrows'.
    assert (new' = []) as ->.
    { apply (f_equal (@List.length _)) in Hmask, Hrows'.
      rewrite !length_map in Hmask.
      rewrite length_app, length_map in Hrows'.
      destruct new'; [reflexivity | cbn in Hrows'; lia]. }
    rewrite app_nil_r in Hrows'. rewrite Hrows'.
    apply Forall2_map_self. intros r _. apply refresh_same_other_columns.
  - intros Hret.
    destruct result as [w1|w1] eqn:Eres; [|discriminate].
    cbn [world_of] in *.
    subst rest. rewrite app_nil_r in Hfiles. subst done.
    destruct (scan_batch_known _ _ _ _ Hdone) as (_ & Hknown).
    pose proof (scan_batch_known_paths t' files (w_store w1) Hknown) as Hre.
    destruct (scan_and_update_database_spec env self tree w1)
      as (_ & _ & done' & rest' & Hfiles' & Hdone' & Hres').
    fold files t' again in Hfiles', Hdone', Hres'.
    destruct again as [w2|w2] eqn:Eagain; [|discriminate].
    cbn [world_of] in *.
    subst rest'. rewrite app_nil_r in Hfiles'. subst done'.
    rewrite Hre in Hdone'. inversion Hdone' as [Hs2].
    unfold finally, after. rewrite <- Hs2. cbn [flaticon_images].
    split; [reflexivity|]. split.
    + intros r Hr Hin. apply in_map_iff in Hr.
      destruct Hr as (r0 & <- & _). apply refresh_seen.
      now rewrite refresh_image_path in Hin.
    + apply Forall2_map_self. intros r _. apply refresh_scanned_when.
Qed.


Example sample_scan_returns :
  _scan_and_update_database Sample.env Sample.self Sample.tree
    (start Sample.store0) = Returned Sample.scanned.
Proof. vm_compute. reflexivity. Qed.

Example sample_scan_rows :
  map (fun r => (id r, image_path r, file r, scanned_when r))
      (flaticon_images (w_store Sample.scanned))
  = [(1%Z, "train/coll-42-shapes/png/moon.PNG", "moon", 100%Z);
     (2%Z, "train/coll-42-shapes/png/star.png", "star", 100%Z)].
Proof. vm_compute. reflexivity. Qed.

(** The sample table after the annotator has run: the star is
    captioned, the moon, whose file cannot be read, is still pending. *)
Example sample_annotated_rows :
  map (fun r => (id r, image_path r, text r, updated_when r, scanned_when r))
      (flaticon_images
         (w_store (_process_unprocessed_records Sample.env Sample.self None
                     Sample.scanned)))
  = [(1%Z, "train/coll-42-shapes/png/moon.PNG", None, None, 100%Z);
     (2%Z, "train/coll-42-shapes/png/star.png", Some "five-pointed star",
      Some 101%Z, 100%Z)].
Proof. vm_compute. reflexivity. Qed.

(** Scanning that table again keeps the caption of the star, its model
    and the time of its annotation, and sets its [scanned_when]. *)
Example sample_rescan_keeps_caption :
  map (fun r => (id r, text r, model r, updated_when r, created_when r,
                 scanned_when r))
      (flaticon_images
         (w_store
            (world_of
               (_scan_and_update_database Sample.env Sample.self Sample.tree
                  (_process_unprocessed_records Sample.env Sample.self None
                     Sample.scanned)))))
  = [(1%Z, None, None, None, 100%Z, 103%Z);
     (2%Z, Some "five-pointed star", Some "ollama/qwen2.5vl", Some 101%Z,
      100%Z, 103%Z)].
Proof. vm_compute. reflexivity. Qed.

Lemma scan_idempotent_witness :
  let annotated :=
    _process_unprocessed_records Sample.env Sample.self None
      Sample.scanned in
  let result :=
    _scan_and_update_database Sample.env Sample.self Sample.tree
      annotated in
  let again :=
    _scan_and_update_database Sample.env Sample.self Sample.tree
      (world_of result) in
  keys_unique (flaticon_images (w_store annotated))
  /\ keys_unique (flaticon_images (w_store (world_of result)))
  /\ (exists r', In r' (flaticon_images (w_store (world_of result)))
                 /\ id r' = 2%Z
                 /\ image_path r' = "train/coll-42-shapes/png/star.png"
                 /\ model r' = Some "ollama/qwen2.5vl"
                 /\ text r' = Some "five-pointed star"
                 /\ updated_when r' = Some 101%Z
                 /\ created_when r' = 100%Z)
  /\ map mask_scanned_when (flaticon_images (w_store (world_of again)))
     = map mask_scanned_when (flaticon_images (w_store (world_of result)))
  /\ (forall r, In r (flaticon_images (w_store (world_of again))) ->
                In (image_path r)
                   (_get_image_files (base_folder Sample.self)
                      Sample.tree) ->
                scanned_when r = 104%Z).
Proof.
  intros annotated result again.
  assert (keys_unique (flaticon_images (w_store annotated))) as Hk.
  { vm_compute. split.
    - constructor; [|constructor; [|constructor]].
      + intros [H|[]]. discriminate.
      + intros [].
    - constructor; [|constructor; [|constructor]].
      + intros [H|[]]. discriminate.
      + intros []. }
  destruct (scan_idempotent Sample.env Sample.self Sample.tree annotated)
    as ((done & new & _ & _ & _ & _ & Hcols) & Hkeys & _ & _ & Hmask & _ & _
        & _ & Hagain).
  split; [exact Hk|]. split; [exact (Hkeys Hk)|]. split; [|split].
  - destruct (Forall2_In_l _ _ _
                {| id := 2; collection := "coll-42-shapes"; type := "png";
                   file := "star"; filename := "star.png";
                   image_path := "train/coll-42-shapes/png/star.png";
                   model := Some "ollama/qwen2.5vl";
                   text := Some "five-pointed star";
                   skipped := Some 0%Z;
                   created_when := 100; scanned_when := 100;
                   updated_when := Some 101%Z |} Hcols)
      as (r' & Hr' & (Hid & _ & _ & _ & _ & Hpath & Hmodel & Htext & _
                      & Hcreated & Hupdated) & _).
    { vm_compute. auto. }
    exists r'. split; [exact (in_firstn _ _ _ Hr')|].
    repeat split; assumption.
  - exact Hmask.
  - refine (proj1 (proj2 (Hagain _))). vm_compute. reflexivity.
Defined.

(* ================================================================== *)
(** * Annotator *)
(* ================================================================== *)

Lemma pending_spec (r : ImageRecord) :
  pending r = true <-> updated_when r = None /\ skipped r = Some 0%Z.
Proof.
  unfold pending. destruct (updated_when r) as [u|], (skipped r) as [k|];
    split; try discriminate; try (intros [? ?]; discriminate).
  - intros H. apply Z.eqb_eq in H. now subst.
  - intros [_ H]. inversion H. reflexivity.
Qed.

Lemma id_leb_total (a b : ImageRecord) :
  id_leb a b = true \/ id_leb b a = true.
Proof. unfold id_leb. rewrite !Z.leb_le. lia. Qed.

Lemma id_leb_trans (a b c : ImageRecord) :
  id_leb a b = true -> id_leb b c = true -> id_leb a c = true.
Proof. unfold id_leb. rewrite !Z.leb_le. lia. Qed.

Lemma NoDup_map_inj_in {A B : Type} (f : A -> B) (l : list A) (a b : A) :
  NoDup (map f l) -> In a l -> In b l -> f a = f b -> a = b.
Proof.
  induction l as [|x l IH]; simpl; intros H Ha Hb E; [tauto|].
  inversion H as [|? ? Hx Hl]; subst.
  destruct Ha as [->|Ha], Hb as [->|Hb]; auto.
  - exfalso. apply Hx. rewrite E. now apply in_map.
  - exfalso. apply Hx. rewrite <- E. now apply in_map.
Qed.

Lemma select_unprocessed_rows (rows : list ImageRecord) :
  select_unprocessed rows
  = map (fun r => (id r, image_path r)) (pending_rows rows).
Proof. reflexivity. Qed.

Lemma in_pending_rows (rows : list ImageRecord) (r : ImageRecord) :
  In r (pending_rows rows) <-> In r rows /\ pending r = true.
Proof.
  unfold pending_rows. rewrite <- filter_In. split; intros H.
  - apply (Permutation_in _ (Permutation_sym (stable_sort_perm id_leb _)) H).
  - apply (Permutation_in _ (stable_sort_perm id_leb _) H).
Qed.

Lemma select_unprocessed_fst (rows : list ImageRecord) :
  map fst (select_unprocessed rows) = ids (pending_rows rows).
Proof.
  rewrite select_unprocessed_rows, map_map. reflexivity.
Qed.

Lemma pending_rows_NoDup (rows : list ImageRecord) :
  NoDup (ids rows) -> NoDup (ids (pending_rows rows)).
Proof.
  intros H. unfold pending_rows, ids.
  apply (Permutation_NoDup
           (Permutation_map id (stable_sort_perm id_leb (filter pending rows)))).
  now apply NoDup_map_filter.
Qed.

Lemma sorted_le_NoDup_lt (l : list Z) :
  StronglySorted Z.le l -> NoDup l -> StronglySorted Z.lt l.
Proof.
  induction 1 as [|x l Hs IH Hx]; intros Hn; constructor;
    inversion Hn as [|? ? Hnx Hnl]; subst; auto.
  rewrite Forall_forall in *. intros y Hy.
  specialize (Hx y Hy). assert (x <> y) by (intros ->; contradiction). lia.
Qed.

Lemma StronglySorted_map {A B : Type} (f : A -> B) (R' : A -> A -> Prop)
  (R : B -> B -> Prop) (l : list A) :
  (forall a b, R' a b -> R (f a) (f b)) ->
  StronglySorted R' l -> StronglySorted R (map f l).
Proof.
  intros HR. induction 1 as [|x l Hs IH Hx]; simpl; constructor; auto.
  rewrite Forall_forall in *. intros y Hy. apply in_map_iff in Hy.
  destruct Hy as (z & <- & Hz). now apply HR, Hx.
Qed.

(** The snapshot is in strictly ascending order of id. *)
Lemma select_unprocessed_ascending (rows : list ImageRecord) :
  NoDup (ids rows) ->
  StronglySorted Z.lt (map fst (select_unprocessed rows)).
Proof.
  intros H. rewrite select_unprocessed_fst.
  apply sorted_le_NoDup_lt; [|now apply pending_rows_NoDup].
  unfold ids, pending_rows.
  apply StronglySorted_map
    with (R' := fun a b : ImageRecord => id_leb a b = true).
  - intros a b Hab. now apply Z.leb_le.
  - apply stable_sort_sorted; [apply id_leb_total | apply id_leb_trans].
Qed.

(** The snapshot holds a row's key and path when the row is pending,
    and only then. *)
Lemma select_unprocessed_spec (rows : list ImageRecord) :
  (forall i p,
      In (i, p) (select_unprocessed rows) ->
      exists r, In r rows /\ id r = i /\ image_path r = p
                /\ pending r = true)
  /\ (forall r, In r rows -> pending r = true ->
                In (id r, image_path r) (select_unprocessed rows))
  /\ (NoDup (ids rows) ->
      forall r, In r rows ->
                In (id r, image_path r) (select_unprocessed rows) ->
                pending r = true).
Proof.
  rewrite select_unprocessed_rows. split; [|split].
  - intros i p H. apply in_map_iff in H. destruct H as (r & E & Hr).
    inversion E; subst. apply in_pending_rows in Hr. exists r. tauto.
  - intros r Hr Hp.
    apply (in_map (fun r => (id r, image_path r))).
    now apply in_pending_rows.
  - intros Hn r Hr H. apply in_map_iff in H. destruct H as (r' & E & Hr').
    inversion E as [[Eid Epath]]. apply in_pending_rows in Hr'.
    destruct Hr' as [Hin' Hp'].
    now rewrite <- (NoDup_map_inj_in id rows r' r Hn Hin' Hr Eid).
Qed.

Lemma processed_app (a b : list Msg) :
  processed (a ++ b) = processed a ++ processed b.
Proof. unfold processed. apply flat_map_app. Qed.

(** [_process_image] touches neither the database nor the clock, and
    what it returns depends on the world only through the number of
    provider calls made so far. *)
Lemma process_image_frame (env : Env) (self : FlaticonDatasets)
  (p : string) (w : World) :
  let w' := snd (_process_image env self p w) in
  w_store w' = w_store w /\ w_now w' = w_now w
  /\ w_commits w' = w_commits w
  /\ exists o, w_out w' = w_out w ++ o /\ processed o = []
               /\ filter is_cadence_line o = [].
Proof.
  unfold _process_image.
  destruct (env_read env p) as [b64|];
    [destruct (_create_prompt p) as [prompt|];
     [destruct (env_completion env (w_calls w) (self_model self) prompt b64)
        as [content|]|]|];
    simpl; repeat split;
    first [ now exists [MImageError p]
          | exists []; now rewrite app_nil_r ].
Qed.

Lemma process_image_calls (env : Env) (self : FlaticonDatasets)
  (p : string) (w1 w2 : World) :
  w_calls w1 = w_calls w2 ->
  fst (_process_image env self p w1) = fst (_process_image env self p w2)
  /\ w_calls (snd (_process_image env self p w1))
     = w_calls (snd (_process_image env self p w2)).
Proof.
  intros E. unfold _process_image. rewrite E.
  destruct (env_read env p) as [b64|];
    [destruct (_create_prompt p) as [prompt|];
     [destruct (env_completion env (w_calls w2) (self_model self) prompt b64)
        as [content|]|]|];
    simpl; auto.
Qed.

(** Each cause of failure makes [_process_image] return a false value. *)
Lemma processing_fails_falsy (env : Env) (self : FlaticonDatasets)
  (p : string) (w : World) :
  processing_fails env self p w ->
  Py.truthy (vision_text env self p w) = false.
Proof.
  unfold vision_text, _process_image.
  intros [Hread|b64 prompt Hread Hprompt Hcall
               |b64 prompt content Hread Hprompt Hcall Hcontent].
  - now rewrite Hread.
  - now rewrite Hread, Hprompt, Hcall.
  - now rewrite Hread, Hprompt, Hcall.
Qed.

(** An iteration whose captioning failed: nothing is written, the
    count stays, the "Skipped record" line is printed. *)
Lemma process_record_failure (env : Env) (self : FlaticonDatasets)
  (batch_size : Z) (w : World) (n : Z) (i : Z) (p : string) :
  Py.truthy (vision_text env self p (print (MProcessing i p) w)) = false ->
  let st' := process_record env self batch_size (w, n) (i, p) in
  w_store (fst st') = w_store w
  /\ w_now (fst st') = w_now w
  /\ w_commits (fst st') = w_commits w
  /\ snd st' = n
  /\ exists o, w_out (fst st') = w_out w ++ MProcessing i p :: o
               /\ processed o = [] /\ In (MSkipped i) o.
Proof.
  unfold vision_text. intros Hfalse. unfold process_record.
  destruct (process_image_frame env self p (print (MProcessing i p) w))
    as (Hs & Hn & Hc & o & Ho & Hpo & _).
  destruct (_process_image env self p (print (MProcessing i p) w))
    as [vt w1]. simpl in *.
  assert (exists o', w_out w1 ++ [MSkipped i]
                     = w_out w ++ MProcessing i p :: o'
                     /\ processed o' = [] /\ In (MSkipped i) o') as Hout.
  { exists (o ++ [MSkipped i]). rewrite Ho, <- !app_assoc. simpl.
    split; [reflexivity|]. rewrite processed_app, Hpo.
    split; [reflexivity | apply in_or_app; right; now left]. }
  destruct vt as [[|c txt]|]; simpl in *; try discriminate; auto.
Qed.

(** An iteration whose captioning succeeded: the annotation is
    committed, then the counter row, each with its own clock reading. *)
Lemma process_record_success (env : Env) (self : FlaticonDatasets)
  (batch_size : Z) (w : World) (n : Z) (i : Z) (p txt : string) :
  vision_text env self p (print (MProcessing i p) w) = Some txt ->
  txt <> "" ->
  let st' := process_record env self batch_size (w, n) (i, p) in
  let db1 := update_annotation (self_model self) txt
               (env_clock env (w_now w)) i (w_store w) in
  let db2 := update_processing_count p (env_clock env (S (w_now w))) db1 in
  w_store (fst st') = db2
  /\ w_now (fst st') = S (S (w_now w))
  /\ w_commits (fst st') = w_commits w ++ [db1; db2]
  /\ snd st' = (n + 1)%Z
  /\ exists o, w_out (fst st') = w_out w ++ MProcessing i p :: o
               /\ processed o = [].
Proof.
  unfold vision_text. intros Htxt Hne. unfold process_record.
  destruct (process_image_frame env self p (print (MProcessing i p) w))
    as (Hs & Hn & Hc & o & Ho & Hpo & _).
  destruct (_process_image env self p (print (MProcessing i p) w))
    as [vt w1]. simpl in *. subst vt.
  destruct txt as [|c txt]; [congruence|].
  unfold _save_last_processed, datetime_now, commit. simpl.
  rewrite Hs, Hn, Hc.
  destruct (batch_size =? 0)%Z;
    [|destruct ((n + 1) mod batch_size =? 0)%Z]; simpl;
    rewrite <- ?app_assoc; simpl; repeat split;
    rewrite Ho, <- ?app_assoc; simpl.
  - exists (o ++ [MRecordError i]). split; [reflexivity|].
    now rewrite processed_app, Hpo.
  - exists (o ++ [MProgress (n + 1)]). split; [reflexivity|].
    now rewrite processed_app, Hpo.
  - exists o. now split.
Qed.

Lemma truthy_cases (v : option string) :
  Py.truthy v = false \/ exists txt, v = Some txt /\ txt <> "".
Proof.
  destruct v as [[|c txt]|]; simpl; auto.
  right. eexists. split; [reflexivity | discriminate].
Qed.

Lemma process_records_cons (env : Env) (self : FlaticonDatasets)
  (batch_size : Z) (rec : Z * string) (l : list (Z * string))
  (st : World * Z) :
  process_records env self batch_size (rec :: l) st
  = process_records env self batch_size l
      (process_record env self batch_size st rec).
Proof. reflexivity. Qed.

Lemma process_records_app (env : Env) (self : FlaticonDatasets)
  (batch_size : Z) (a b : list (Z * string)) (st : World * Z) :
  process_records env self batch_size (a ++ b) st
  = process_records env self batch_size b
      (process_records env self batch_size a st).
Proof. unfold process_records. apply fold_left_app. Qed.

(** What one iteration does to the database: nothing, or the two
    commits of a success. *)
Lemma process_record_effect (env : Env) (self : FlaticonDatasets)
  (batch_size : Z) (w : World) (n : Z) (i : Z) (p : string) :
  let st' := process_record env self batch_size (w, n) (i, p) in
  (w_store (fst st') = w_store w /\ w_commits (fst st') = w_commits w)
  \/ exists txt t t2,
       let db1 := update_annotation (self_model self) txt t i (w_store w) in
       let db2 := update_processing_count p t2 db1 in
       w_store (fst st') = db2
       /\ w_commits (fst st') = w_commits w ++ [db1; db2].
Proof.
  destruct (truthy_cases
              (vision_text env self p (print (MProcessing i p) w)))
    as [Hf|(txt & Htxt & Hne)].
  - left. destruct (process_record_failure env self batch_size w n i p Hf)
      as (Hs & _ & Hc & _). now split.
  - right.
    destruct (process_record_success env self batch_size w n i p txt Htxt Hne)
      as (Hs & _ & Hc & _).
    exists txt, (env_clock env (w_now w)), (env_clock env (S (w_now w))).
    now split.
Qed.

(** A property of the database that the two writes of the loop preserve
    holds of every commit of the loop and of the database it leaves. *)
Lemma process_records_invariant (env : Env) (self : FlaticonDatasets)
  (batch_size : Z) (P : Store -> Prop) (l : list (Z * string)) :
  (forall m txt t i s,
      In i (map fst l) -> P s -> P (update_annotation m txt t i s)) ->
  (forall p t s, P s -> P (update_processing_count p t s)) ->
  forall w n,
    P (w_store w) ->
    let st' := process_records env self batch_size l (w, n) in
    P (w_store (fst st'))
    /\ exists commits, w_commits (fst st') = w_commits w ++ commits
                       /\ Forall P commits.
Proof.
  intros Hann Hcount. induction l as [|[i p] l IH]; intros w n HP.
  - simpl. split; [exact HP|]. exists []. now rewrite app_nil_r.
  - rewrite process_records_cons.
    assert (forall m txt t j s,
               In j (map fst l) -> P s -> P (update_annotation m txt t j s))
      as Hann' by (intros; apply Hann; [now right | assumption]).
    specialize (IH Hann').
    destruct (process_record env self batch_size (w, n) (i, p))
      as [w1 n1] eqn:E.
    pose proof (process_record_effect env self batch_size w n i p) as Heff.
    rewrite E in Heff. simpl in Heff.
    destruct Heff as [[Hs Hc]|(txt & t & t2 & Hs & Hc)].
    + rewrite <- Hs in HP. destruct (IH w1 n1 HP) as (HP' & cs & Hcs & Hall).
      split; [exact HP'|]. exists cs. now rewrite Hcs, Hc.
    + assert (P (update_annotation (self_model self) txt t i (w_store w)))
        as H1 by (apply Hann; [now left | exact HP]).
      assert (P (w_store w1)) as H2 by (rewrite Hs; now apply Hcount).
      destruct (IH w1 n1 H2) as (HP' & cs & Hcs & Hall).
      split; [exact HP'|].
      eexists. rewrite Hcs, Hc, <- app_assoc. split; [reflexivity|].
      simpl. constructor; [exact H1|]. constructor; [|exact Hall].
      rewrite <- Hs. exact H2.
Qed.

(** The loop prints one "Processing record" line per record of the
    snapshot, in the order of the snapshot. *)
Lemma process_records_processed (env : Env) (self : FlaticonDatasets)
  (batch_size : Z) (l : list (Z * string)) :
  forall w n,
    exists o,
      w_out (fst (process_records env self batch_size l (w, n)))
      = w_out w ++ o
      /\ processed o = l.
Proof.
  induction l as [|[i p] l IH]; intros w n.
  - exists []. simpl. now rewrite app_nil_r.
  - rewrite process_records_cons.
    assert (exists o1,
               w_out (fst (process_record env self batch_size (w, n) (i, p)))
               = w_out w ++ MProcessing i p :: o1
               /\ processed o1 = []) as (o1 & Ho1 & Hp1).
    { destruct (truthy_cases
                  (vision_text env self p (print (MProcessing i p) w)))
        as [Hf|(txt & Htxt & Hne)].
      - destruct (process_record_failure env self batch_size w n i p Hf)
          as (_ & _ & _ & _ & o & Ho & Hpo & _). now exists o.
      - destruct (process_record_success env self batch_size w n i p txt
                    Htxt Hne) as (_ & _ & _ & _ & o & Ho & Hpo).
        now exists o. }
    destruct (process_record env self batch_size (w, n) (i, p)) as [w1 n1].
    destruct (IH w1 n1) as (o & Ho & Hpo). simpl in Ho1.
    exists (MProcessing i p :: o1 ++ o). split.
    + rewrite Ho, Ho1, <- app_assoc. reflexivity.
    + change (MProcessing i p :: o1 ++ o)
        with ([MProcessing i p] ++ o1 ++ o).
      rewrite !processed_app, Hp1, Hpo. reflexivity.
Qed.

(** The run as the loop over the snapshot. *)
Lemma process_unprocessed_records_loop (env : Env)
  (self : FlaticonDatasets) (batch_size : option Z) (w : World) :
  let b := match batch_size with
           | None => DEFAULT_BATCH_SIZE | Some b => b end in
  let st := loop_state env self b w
              (select_unprocessed (flaticon_images (w_store w))) in
  _process_unprocessed_records env self batch_size w
  = print (MComplete (snd st)) (fst st).
Proof.
  intros b st. unfold _process_unprocessed_records. fold b.
  unfold st, loop_state. cbn [w_store print].
  now destruct (process_records env self b _ _).
Qed.

(** The run goes through the records of its snapshot, all of them, in
    the order of the snapshot. *)
Lemma run_processed (env : Env) (self : FlaticonDatasets)
  (batch_size : option Z) (w : World) :
  exists o,
    w_out (_process_unprocessed_records env self batch_size w)
    = w_out w ++ o
    /\ processed o = select_unprocessed (flaticon_images (w_store w)).
Proof.
  rewrite process_unprocessed_records_loop. unfold loop_state.
  destruct (process_records_processed env self
              match batch_size with
              | None => DEFAULT_BATCH_SIZE | Some b => b end
              (select_unprocessed (flaticon_images (w_store w)))
              (print (MFound (List.length
                        (select_unprocessed (flaticon_images (w_store w))))) w)
              0%Z) as (o & Ho & Hpo).
  eexists. cbn [print w_out]. rewrite Ho. cbn [print w_out].
  rewrite <- !app_assoc. split; [reflexivity|].
  rewrite !processed_app, Hpo. simpl. now rewrite app_nil_r.
Qed.

(** C1. A run processes exactly the records of its snapshot. Every
    record of the snapshot is a row whose [updated_when] is NULL and
    whose [skipped] is 0, so no row with a non-NULL [updated_when] or a
    non-zero (or NULL) [skipped] is selected; and, ids being unique, a
    row of the table is selected if and only if its [updated_when] is
    NULL and its [skipped] is 0. *)
Theorem annotator_selects_pending (env : Env) (self : FlaticonDatasets)
  (batch_size : option Z) (w : World) :
  let rows := flaticon_images (w_store w) in
  let w' := _process_unprocessed_records env self batch_size w in
  (exists o, w_out w' = w_out w ++ o
             /\ processed o = select_unprocessed rows)
  /\ (forall i p,
         In (i, p) (select_unprocessed rows) ->
         exists r, In r rows /\ id r = i /\ image_path r = p
                   /\ updated_when r = None /\ skipped r = Some 0%Z)
  /\ (NoDup (ids rows) ->
      forall r, In r rows ->
        (In (id r, image_path r) (select_unprocessed rows)
         <-> updated_when r = None /\ skipped r = Some 0%Z)).
Proof.
  intros rows w'.
  destruct (select_unprocessed_spec rows) as (Hsound & Hcomplete & Honly).
  split; [apply run_processed|]. split.
  - intros i p H. destruct (Hsound i p H) as (r & Hr & Hi & Hp & Hpend).
    apply pending_spec in Hpend. exists r. tauto.
  - intros Hn r Hr. rewrite <- pending_spec. split.
    + now apply Honly.
    + now apply Hcomplete.
Qed.

Lemma sample_ids_unique :
  NoDup (ids (flaticon_images (w_store Sample.scanned))).
Proof.
  vm_compute. constructor; [|constructor; [|constructor]].
  - intros [H|[]]. discriminate.
  - intros [].
Qed.

Lemma annotator_selects_pending_witness :
  let rows := flaticon_images (w_store Sample.scanned) in
  NoDup (ids rows)
  /\ forall r, In r rows ->
       (In (id r, image_path r) (select_unprocessed rows)
        <-> updated_when r = None /\ skipped r = Some 0%Z).
Proof.
  intros rows.
  pose proof sample_ids_unique as Hn.
  split; [exact Hn|].
  exact (proj2 (proj2 (annotator_selects_pending Sample.env Sample.self
                         None Sample.scanned)) Hn).
Defined.

(** Two lists of records in strictly ascending order of id that hold
    the same records are the same list. *)
Lemma ascending_ext (l1 l2 : list (Z * string)) :
  StronglySorted Z.lt (map fst l1) ->
  StronglySorted Z.lt (map fst l2) ->
  (forall x, In x l1 <-> In x l2) ->
  l1 = l2.
Proof.
  revert l2. induction l1 as [|a t1 IH]; intros l2 H1 H2 Hiff.
  - destruct l2 as [|b t2]; [reflexivity|].
    destruct (proj2 (Hiff b) (or_introl eq_refl)).
  - destruct l2 as [|b t2].
    { destruct (proj1 (Hiff a) (or_introl eq_refl)). }
    cbn [map] in H1, H2.
    apply StronglySorted_inv in H1, H2.
    destruct H1 as [S1 F1], H2 as [S2 F2].
    rewrite Forall_forall in F1, F2.
    assert (forall x, In x t1 -> (fst a < fst x)%Z) as G1
      by (intros x Hx; apply F1; now apply in_map).
    assert (forall x, In x t2 -> (fst b < fst x)%Z) as G2
      by (intros x Hx; apply F2; now apply in_map).
    assert (a = b) as ->.
    { destruct (proj1 (Hiff a) (or_introl eq_refl)) as [E|Ha];
        [now symmetry|].
      destruct (proj2 (Hiff b) (or_introl eq_refl)) as [E|Hb];
        [exact E|].
      specialize (G1 b Hb). specialize (G2 a Ha). lia. }
    f_equal. apply IH; [exact S1 | exact S2 |].
    intros x. split; intros Hx.
    + destruct (proj1 (Hiff x) (or_intror Hx)) as [E|Hx']; [|exact Hx'].
      subst x. specialize (G1 b Hx). lia.
    + destruct (proj2 (Hiff x) (or_intror Hx)) as [E|Hx']; [|exact Hx'].
      subst x. specialize (G2 b Hx). lia.
Qed.

(** C4. With unique ids, the records a run goes through are the rows
    of the table whose [updated_when] is NULL and whose [skipped] is 0:
    each of them, by its id and its path, and nothing else. The run
    goes through them in strictly ascending order of id, so each once.
    A run over any table with the same pending rows, whatever the order
    of its rows, its environment or its batch size, goes through the
    same records in the same order. *)
Theorem annotator_work_order (env : Env) (self : FlaticonDatasets)
  (batch_size : option Z) (w : World) :
  let rows := flaticon_images (w_store w) in
  NoDup (ids rows) ->
  exists o,
    w_out (_process_unprocessed_records env self batch_size w)
    = w_out w ++ o
    /\ (forall i p,
           In (i, p) (processed o)
           <-> exists r, In r rows /\ id r = i /\ image_path r = p
                         /\ updated_when r = None /\ skipped r = Some 0%Z)
    /\ StronglySorted Z.lt (map fst (processed o))
    /\ (forall env2 self2 batch_size2 w2,
           Permutation (filter pending rows)
                       (filter pending (flaticon_images (w_store w2))) ->
           exists o2,
             w_out (_process_unprocessed_records env2 self2 batch_size2 w2)
             = w_out w2 ++ o2
             /\ processed o2 = processed o)
    /\ (forall env2 self2 batch_size2 w2,
           let rows2 := flaticon_images (w_store w2) in
           NoDup (ids rows2) ->
           (forall r,
               In r rows /\ updated_when r = None /\ skipped r = Some 0%Z
               <-> In r rows2 /\ updated_when r = None
                   /\ skipped r = Some 0%Z) ->
           exists o2,
             w_out (_process_unprocessed_records env2 self2 batch_size2 w2)
             = w_out w2 ++ o2
             /\ processed o2 = processed o).
Proof.
  intros rows Hn.
  destruct (run_processed env self batch_size w) as (o & Ho & Hpo).
  fold rows in Hpo.
  assert (forall rs i p,
             In (i, p) (select_unprocessed rs)
             <-> exists r, In r rs /\ id r = i /\ image_path r = p
                           /\ updated_when r = None
                           /\ skipped r = Some 0%Z) as Hmem.
  { intros rs i p.
    destruct (select_unprocessed_spec rs) as (Hsound & Hcomplete & _).
    split.
    - intros H. destruct (Hsound i p H) as (r & Hr & Hi & Hp & Hpend).
      apply pending_spec in Hpend. exists r. tauto.
    - intros (r & Hr & <- & <- & Hu & Hs). apply Hcomplete; [exact Hr|].
      apply pending_spec. now split. }
  exists o. split; [exact Ho|]. split; [|split; [|split]].
  - intros i p. rewrite Hpo. apply Hmem.
  - rewrite Hpo. now apply select_unprocessed_ascending.
  - intros env2 self2 bs2 w2 HP.
    destruct (run_processed env2 self2 bs2 w2) as (o2 & Ho2 & Hpo2).
    exists o2. split; [exact Ho2|]. rewrite Hpo, Hpo2.
    unfold select_unprocessed. f_equal. symmetry.
    apply stable_sort_perm_eq;
      [apply id_leb_total | apply id_leb_trans | | exact HP].
    intros a b Ha Hb Hab Hba. unfold id_leb in *.
    apply Z.leb_le in Hab, Hba.
    apply filter_In in Ha, Hb.
    apply (NoDup_map_inj_in id rows a b Hn); [tauto | tauto | lia].
  - intros env2 self2 bs2 w2 rows2 Hn2 Hsame.
    destruct (run_processed env2 self2 bs2 w2) as (o2 & Ho2 & Hpo2).
    fold rows2 in Hpo2.
    exists o2. split; [exact Ho2|]. rewrite Hpo, Hpo2.
    apply ascending_ext.
    + now apply select_unprocessed_ascending.
    + now apply select_unprocessed_ascending.
    + intros [i p]. rewrite !Hmem. split.
      * intros (r & Hr & Hi & Hp & Hu & Hs).
        exists r. destruct (proj2 (Hsame r)) as (Hr' & _); [tauto|]. tauto.
      * intros (r & Hr & Hi & Hp & Hu & Hs).
        exists r. destruct (proj1 (Hsame r)) as (Hr' & _); [tauto|]. tauto.
Qed.

Lemma annotator_work_order_witness :
  exists o,
    w_out (_process_unprocessed_records Sample.env Sample.self None
             Sample.scanned)
    = w_out Sample.scanned ++ o
    /\ In (1%Z, "train/coll-42-shapes/png/moon.PNG") (processed o)
    /\ In (2%Z, "train/coll-42-shapes/png/star.png") (processed o)
    /\ StronglySorted Z.lt (map fst (processed o)).
Proof.
  destruct (annotator_work_order Sample.env Sample.self None Sample.scanned
              sample_ids_unique) as (o & Ho & Hin & Hs & _).
  exists o. split; [exact Ho|]. split; [|split; [|exact Hs]].
  - apply Hin.
    exists {| id := 1; collection := "coll-42-shapes"; type := "png";
              file := "moon"; filename := "moon.PNG";
              image_path := "train/coll-42-shapes/png/moon.PNG";
              model := None; text := None; skipped := Some 0%Z;
              created_when := 100; scanned_when := 100;
              updated_when := None |}.
    vm_compute. repeat split; auto.
  - apply Hin.
    exists {| id := 2; collection := "coll-42-shapes"; type := "png";
              file := "star"; filename := "star.png";
              image_path := "train/coll-42-shapes/png/star.png";
              model := None; text := None; skipped := Some 0%Z;
              created_when := 100; scanned_when := 100;
              updated_when := None |}.
    vm_compute. repeat split; auto.
Defined.

Lemma update_annotation_other (m txt : string) (t i : Z) (s : Store)
  (r : ImageRecord) :
  id r <> i -> In r (flaticon_images s) ->
  In r (flaticon_images (update_annotation m txt t i s)).
Proof.
  intros Hne Hin. simpl. apply in_map_iff. exists r. split; [|exact Hin].
  apply Z.eqb_neq in Hne. now rewrite Hne.
Qed.

Lemma terminal_id_update_annotation (m txt : string) (t i j : Z)
  (s : Store) :
  terminal_id i (flaticon_images s) ->
  terminal_id i (flaticon_images (update_annotation m txt t j s)).
Proof.
  intros H r' Hr' Hid. simpl in Hr'. apply in_map_iff in Hr'.
  destruct Hr' as (r & <- & Hr).
  destruct (id r =? j)%Z; [reflexivity | now apply H].
Qed.

(** Once the annotation of [i] is written, no row with key [i] is
    pending. *)
Lemma terminal_id_annotated (m txt : string) (t i : Z) (s : Store) :
  terminal_id i (flaticon_images (update_annotation m txt t i s)).
Proof.
  intros r' Hr' Hid. simpl in Hr'. apply in_map_iff in Hr'.
  destruct Hr' as (r & <- & Hr).
  destruct (id r =? i)%Z eqn:E; [reflexivity|].
  apply Z.eqb_neq in E. contradiction.
Qed.

Lemma terminal_id_not_selected (i : Z) (rows : list ImageRecord) :
  terminal_id i rows -> forall q, ~ In (i, q) (select_unprocessed rows).
Proof.
  intros H q Hin.
  destruct (proj1 (select_unprocessed_spec rows) i q Hin)
    as (r & Hr & Hi & _ & Hp).
  rewrite (H r Hr Hi) in Hp. discriminate.
Qed.

(** The loop leaves alone every row whose key is not in its list. *)
Lemma process_records_other_rows (env : Env) (self : FlaticonDatasets)
  (batch_size : Z) (l : list (Z * string)) (r : ImageRecord)
  (w : World) (n : Z) :
  ~ In (id r) (map fst l) ->
  In r (flaticon_images (w_store w)) ->
  In r (flaticon_images
          (w_store (fst (process_records env self batch_size l (w, n))))).
Proof.
  intros Hout Hin.
  apply (process_records_invariant env self batch_size
           (fun s => In r (flaticon_images s)) l); [| |exact Hin].
  - intros m txt t i s Hi Hr. apply update_annotation_other; [|exact Hr].
    intros E. rewrite E in Hout. contradiction.
  - intros p t s Hr. exact Hr.
Qed.

Lemma process_records_out (env : Env) (self : FlaticonDatasets)
  (batch_size : Z) (l : list (Z * string)) (w : World) (n : Z) :
  exists o,
    w_out (fst (process_records env self batch_size l (w, n)))
    = w_out w ++ o.
Proof.
  destruct (process_records_processed env self batch_size l w n)
    as (o & Ho & _). now exists o.
Qed.

Lemma StronglySorted_app_tail {A : Type} (R : A -> A -> Prop)
  (a b : list A) :
  StronglySorted R (a ++ b) -> StronglySorted R b.
Proof.
  induction a as [|x a IH]; simpl; intros H; [exact H|].
  inversion H; subst. now apply IH.
Qed.

(** C3. When the captioning of a record of the snapshot fails (the file
    cannot be read, the provider raises, or it returns nothing), its
    iteration writes nothing, commits nothing and counts nothing, and
    prints the "Skipped record" line. The run goes on: it prints that
    line and goes through every record of the snapshot, the later ones
    included, and the table it leaves holds the row of the failed record
    exactly as it was, still pending. *)
Theorem annotator_failure_isolated (env : Env) (self : FlaticonDatasets)
  (batch_size : option Z) (w : World)
  (pre post : list (Z * string)) (i : Z) (p : string) :
  let rows := flaticon_images (w_store w) in
  let b := match batch_size with
           | None => DEFAULT_BATCH_SIZE | Some b => b end in
  let st := loop_state env self b w pre in
  let st' := process_record env self b st (i, p) in
  let w' := _process_unprocessed_records env self batch_size w in
  NoDup (ids rows) ->
  select_unprocessed rows = pre ++ (i, p) :: post ->
  processing_fails env self p (fst st) ->
  w_store (fst st') = w_store (fst st)
  /\ w_commits (fst st') = w_commits (fst st)
  /\ snd st' = snd st
  /\ (exists o, w_out w' = w_out w ++ o
                /\ processed o = pre ++ (i, p) :: post
                /\ In (MSkipped i) o)
  /\ (forall j q, In (j, q) post -> (i < j)%Z)
  /\ (forall r, In r rows -> id r = i ->
                In r (flaticon_images (w_store w'))
                /\ updated_when r = None /\ skipped r = Some 0%Z).
Proof.
  intros rows b st st' w' Hn Hsnap Hfail.
  subst st' st. revert Hfail.
  destruct (loop_state env self b w pre) as [wk nk] eqn:Est.
  cbn [fst snd]. intros Hfail.
  assert (Py.truthy (vision_text env self p
                       (print (MProcessing i p) wk)) = false) as Hf.
  { unfold vision_text.
    rewrite (proj1 (process_image_calls env self p
                      (print (MProcessing i p) wk) wk eq_refl)).
    now apply processing_fails_falsy. }
  pose proof (process_record_failure env self b wk nk i p Hf) as Hstep.
  destruct (process_record env self b (wk, nk) (i, p)) as [w1 n1] eqn:Est1.
  cbn [fst snd] in Hstep.
  destruct Hstep as (Hs & _ & Hc & Hcount & o2 & Ho2 & _ & Hskip).
  assert (loop_state env self b w (pre ++ (i, p) :: post)
          = process_records env self b post (w1, n1)) as Hloop.
  { unfold loop_state in *.
    now rewrite process_records_app, process_records_cons, Est, Est1. }
  assert (w' = print (MComplete
                        (snd (process_records env self b post (w1, n1))))
                 (fst (process_records env self b post (w1, n1)))) as Hw'.
  { unfold w'. rewrite process_unprocessed_records_loop. fold rows b.
    now rewrite Hsnap, Hloop. }
  assert (NoDup (map fst (pre ++ (i, p) :: post))) as Hnd.
  { rewrite <- Hsnap, select_unprocessed_fst. now apply pending_rows_NoDup. }
  rewrite map_app in Hnd. cbn [map fst] in Hnd.
  pose proof (NoDup_remove_2 _ _ _ Hnd) as Hfresh.
  assert (wk = fst (process_records env self b pre
                      (print (MFound (List.length
                                (select_unprocessed
                                   (flaticon_images (w_store w))))) w,
                       0%Z))) as Hwk
    by (unfold loop_state in Est; now rewrite Est).
  split; [exact Hs|]. split; [exact Hc|]. split; [exact Hcount|].
  split; [|split].
  - destruct (run_processed env self batch_size w) as (o & Ho & Hpo).
    exists o. fold w' in Ho. split; [exact Ho|].
    fold rows in Hpo. rewrite Hsnap in Hpo. split; [exact Hpo|].
    assert (exists o1, w_out wk = w_out w ++ o1) as (o1 & Ho1).
    { destruct (process_records_out env self b pre
                  (print (MFound (List.length
                            (select_unprocessed
                               (flaticon_images (w_store w))))) w) 0%Z)
        as (o1 & Ho1).
      rewrite <- Hwk in Ho1.
      eexists. rewrite Ho1. cbn [print w_out]. now rewrite <- app_assoc. }
    destruct (process_records_out env self b post w1 n1) as (o3 & Ho3).
    rewrite Hw' in Ho. cbn [print w_out] in Ho.
    rewrite Ho3, Ho2, Ho1, <- !app_assoc in Ho.
    apply app_inv_head in Ho. subst o.
    apply in_or_app. right. simpl. right. apply in_or_app. left. exact Hskip.
  - intros j q Hj.
    pose proof (select_unprocessed_ascending rows Hn) as Hsorted.
    rewrite Hsnap, map_app in Hsorted. cbn [map fst] in Hsorted.
    apply StronglySorted_app_tail in Hsorted. rename Hsorted into Hs2.
    inversion Hs2 as [|? ? _ Hall]; subst.
    rewrite Forall_forall in Hall. apply Hall.
    now apply (in_map fst post (j, q)).
  - intros r Hr Hid.
    assert (In (i, p) (select_unprocessed rows)) as Hsel
      by (rewrite Hsnap; apply in_or_app; right; now left).
    destruct (proj1 (select_unprocessed_spec rows) i p Hsel)
      as (r0 & Hr0 & Hi0 & _ & Hp0).
    assert (r0 = r) as E0
      by (apply (NoDup_map_inj_in id rows r0 r Hn Hr0 Hr); congruence).
    rewrite E0 in Hp0.
    split; [|now apply pending_spec].
    rewrite Hw'. cbn [print w_store].
    assert (~ In (id r) (map fst pre) /\ ~ In (id r) (map fst post))
      as [Hpre Hpost].
    { rewrite Hid. split; intros H; apply Hfresh, in_or_app; auto. }
    assert (In r (flaticon_images (w_store wk))) as Hk
      by (rewrite Hwk; now apply process_records_other_rows).
    rewrite <- Hs in Hk.
    now apply process_records_other_rows.
Qed.

Example sample_snapshot :
  select_unprocessed (flaticon_images (w_store Sample.scanned))
  = [] ++ (1%Z, "train/coll-42-shapes/png/moon.PNG")
       :: [(2%Z, "train/coll-42-shapes/png/star.png")].
Proof. vm_compute. reflexivity. Qed.

Lemma annotator_failure_isolated_witness :
  let w' := _process_unprocessed_records Sample.env Sample.self None
              Sample.scanned in
  (exists o, w_out w' = w_out Sample.scanned ++ o
             /\ processed o
                = [] ++ (1%Z, "train/coll-42-shapes/png/moon.PNG")
                     :: [(2%Z, "train/coll-42-shapes/png/star.png")]
             /\ In (MSkipped 1) o)
  /\ forall r, In r (flaticon_images (w_store Sample.scanned)) ->
               id r = 1%Z ->
               In r (flaticon_images (w_store w'))
               /\ updated_when r = None /\ skipped r = Some 0%Z.
Proof.
  intros w'.
  assert (processing_fails Sample.env Sample.self
            "train/coll-42-shapes/png/moon.PNG"
            (fst (loop_state Sample.env Sample.self DEFAULT_BATCH_SIZE
                    Sample.scanned []))) as Hfail
    by (apply fails_unreadable; reflexivity).
  destruct (annotator_failure_isolated Sample.env Sample.self None
              Sample.scanned [] [(2%Z, "train/coll-42-shapes/png/star.png")]
              1%Z "train/coll-42-shapes/png/moon.PNG"
              sample_ids_unique sample_snapshot Hfail)
    as (_ & _ & _ & Hout & _ & Hrow).
  split; [exact Hout | exact Hrow].
Defined.

Lemma process_records_commits (env : Env) (self : FlaticonDatasets)
  (batch_size : Z) (l : list (Z * string)) (w : World) (n : Z) :
  exists commits,
    w_commits (fst (process_records env self batch_size l (w, n)))
    = w_commits w ++ commits.
Proof.
  destruct (process_records_invariant env self batch_size
              (fun _ => True) l (fun _ _ _ _ _ _ _ => I) (fun _ _ _ _ => I)
              w n I) as (_ & commits & H & _).
  now exists commits.
Qed.

(** C2. When the captioning of a record of the snapshot succeeds, the
    run commits the row with its model, text and [updated_when] in one
    write, and only then commits the counter row with the record's path:
    the two databases follow one another in the sequence of commits, and
    in the first the counter row is still what it was. From the first of
    the two on, in every committed database of the run and in the one it
    leaves, no row with the record's key is selected; a run started on
    the database of the first commit does not process the record. *)
Theorem annotation_committed_before_cursor (env : Env)
  (self : FlaticonDatasets) (batch_size : option Z) (w : World)
  (pre post : list (Z * string)) (i : Z) (p txt : string) :
  let rows := flaticon_images (w_store w) in
  let b := match batch_size with
           | None => DEFAULT_BATCH_SIZE | Some b => b end in
  let st := loop_state env self b w pre in
  let w' := _process_unprocessed_records env self batch_size w in
  let t := env_clock env (w_now (fst st)) in
  let t' := env_clock env (S (w_now (fst st))) in
  let db1 := update_annotation (self_model self) txt t i
               (w_store (fst st)) in
  let db2 := update_processing_count p t' db1 in
  select_unprocessed rows = pre ++ (i, p) :: post ->
  vision_text env self p (fst st) = Some txt ->
  txt <> "" ->
  (exists earlier later,
      w_commits (fst st) = w_commits w ++ earlier
      /\ w_commits w' = w_commits w ++ earlier ++ db1 :: db2 :: later
      /\ Forall (fun d => forall q,
                   ~ In (i, q) (select_unprocessed (flaticon_images d)))
           (db1 :: db2 :: later))
  /\ (forall r, In r (flaticon_images db1) -> id r = i ->
                model r = Some (self_model self) /\ text r = Some txt
                /\ updated_when r = Some t)
  /\ processing_count db1 = processing_count (w_store (fst st))
  /\ flaticon_images db2 = flaticon_images db1
  /\ (processing_count (w_store (fst st)) <> None ->
      processing_count db2
      = Some {| pc_image_path := Some p; pc_updated_when := Some t' |})
  /\ (forall q,
         ~ In (i, q) (select_unprocessed (flaticon_images (w_store w'))))
  /\ (forall env2 self2 batch_size2 q,
         ~ In (i, q)
             (processed
                (w_out (_process_unprocessed_records env2 self2 batch_size2
                          (start db1))))).
Proof.
  intros rows b st w' t t' db1 db2 Hsnap Htxt Hne.
  subst db2 db1 t' t st. revert Htxt.
  destruct (loop_state env self b w pre) as [wk nk] eqn:Est.
  cbn [fst snd]. intros Htxt.
  assert (vision_text env self p (print (MProcessing i p) wk) = Some txt)
    as Htxt'.
  { unfold vision_text in *.
    now rewrite (proj1 (process_image_calls env self p
                          (print (MProcessing i p) wk) wk eq_refl)). }
  pose proof (process_record_success env self b wk nk i p txt Htxt' Hne)
    as Hstep.
  destruct (process_record env self b (wk, nk) (i, p)) as [w1 n1] eqn:Est1.
  cbn [fst snd] in Hstep. cbv zeta in Hstep.
  destruct Hstep as (Hs & _ & Hc & _).
  set (db1 := update_annotation (self_model self) txt
                (env_clock env (w_now wk)) i (w_store wk)) in *.
  set (db2 := update_processing_count p (env_clock env (S (w_now wk))) db1)
    in *.
  assert (loop_state env self b w (pre ++ (i, p) :: post)
          = process_records env self b post (w1, n1)) as Hloop.
  { unfold loop_state in *.
    now rewrite process_records_app, process_records_cons, Est, Est1. }
  assert (w' = print (MComplete
                        (snd (process_records env self b post (w1, n1))))
                 (fst (process_records env self b post (w1, n1)))) as Hw'.
  { unfold w'. rewrite process_unprocessed_records_loop. fold rows b.
    now rewrite Hsnap, Hloop. }
  assert (terminal_id i (flaticon_images db1)) as Hterm1
    by apply terminal_id_annotated.
  assert (terminal_id i (flaticon_images (w_store w1))) as Hterm2
    by (rewrite Hs; exact Hterm1).
  destruct (process_records_invariant env self b
              (fun s => terminal_id i (flaticon_images s)) post
              (fun m x u j s _ H => terminal_id_update_annotation m x u i j s H)
              (fun _ _ _ H => H) w1 n1 Hterm2)
    as (Hfinal & later & Hlater & Hall).
  split; [|split; [|split; [|split; [|split; [|split]]]]].
  - assert (exists earlier, w_commits wk = w_commits w ++ earlier)
      as (earlier & Hearlier).
    { unfold loop_state in Est.
      destruct (process_records_commits env self b pre
                  (print (MFound (List.length
                            (select_unprocessed
                               (flaticon_images (w_store w))))) w) 0%Z)
        as (cs & Hcs).
      rewrite Est in Hcs. now exists cs. }
    exists earlier, later. split; [exact Hearlier|]. split.
    + rewrite Hw'. cbn [print w_commits].
      rewrite Hlater, Hc, Hearlier, <- !app_assoc. reflexivity.
    + constructor; [now apply terminal_id_not_selected|].
      constructor; [now apply terminal_id_not_selected|].
      eapply Forall_impl; [|exact Hall].
      intros d Hd. now apply terminal_id_not_selected.
  - intros r Hr Hid. unfold db1 in Hr. simpl in Hr.
    apply in_map_iff in Hr. destruct Hr as (r0 & <- & _).
    destruct (id r0 =? i)%Z eqn:E; [now simpl|].
    apply Z.eqb_neq in E. contradiction.
  - reflexivity.
  - reflexivity.
  - intros Hrow. unfold db2, db1. simpl.
    destruct (processing_count (w_store wk)); [reflexivity | congruence].
  - rewrite Hw'. cbn [print w_store].
    now apply terminal_id_not_selected.
  - intros env2 self2 bs2 q Hin.
    destruct (run_processed env2 self2 bs2 (start db1)) as (o & Ho & Hpo).
    rewrite Ho in Hin. cbn [start w_out app w_store] in Hin, Hpo.
    rewrite Hpo in Hin.
    now apply (terminal_id_not_selected i _ Hterm1 q).
Qed.

Example sample_snapshot_star :
  select_unprocessed (flaticon_images (w_store Sample.scanned))
  = [(1%Z, "train/coll-42-shapes/png/moon.PNG")]
    ++ (2%Z, "train/coll-42-shapes/png/star.png") :: [].
Proof. vm_compute. reflexivity. Qed.

Example sample_star_caption :
  vision_text Sample.env Sample.self "train/coll-42-shapes/png/star.png"
    (fst (loop_state Sample.env Sample.self DEFAULT_BATCH_SIZE
            Sample.scanned [(1%Z, "train/coll-42-shapes/png/moon.PNG")]))
  = Some "five-pointed star".
Proof. vm_compute. reflexivity. Qed.

Lemma annotation_committed_before_cursor_witness :
  let w' := _process_unprocessed_records Sample.env Sample.self None
              Sample.scanned in
  (forall q, ~ In (2%Z, q)
               (select_unprocessed (flaticon_images (w_store w'))))
  /\ exists earlier later db1 db2,
       w_commits w'
       = w_commits Sample.scanned ++ earlier ++ db1 :: db2 :: later
       /\ processing_count db1 = processing_count (w_store Sample.scanned)
       /\ _load_last_processed db2
          = Some "train/coll-42-shapes/png/star.png".
Proof.
  intros w'.
  assert ("five-pointed star" <> "") as Hne by discriminate.
  destruct (annotation_committed_before_cursor Sample.env Sample.self None
              Sample.scanned [(1%Z, "train/coll-42-shapes/png/moon.PNG")] []
              2%Z "train/coll-42-shapes/png/star.png" "five-pointed star"
              sample_snapshot_star sample_star_caption Hne)
    as ((earlier & later & _ & Hcommits & _) & _ & _ & _ & _ & Hleft & _).
  split; [exact Hleft|].
  exists earlier, later. eexists. eexists.
  split; [exact Hcommits|]. split; vm_compute; reflexivity.
Defined.

Lemma same_but_cadence_refl (w : World) : same_but_cadence w w.
Proof. unfold same_but_cadence. tauto. Qed.

Lemma same_but_cadence_print (m : Msg) (w1 w2 : World) :
  same_but_cadence w1 w2 -> same_but_cadence (print m w1) (print m w2).
Proof.
  intros (Hs & Hc & Hn & Hk & Ho). unfold same_but_cadence. simpl.
  rewrite !filter_app, Ho. tauto.
Qed.

Lemma process_image_same_but_cadence (env : Env) (self : FlaticonDatasets)
  (p : string) (w1 w2 : World) :
  same_but_cadence w1 w2 ->
  fst (_process_image env self p w1) = fst (_process_image env self p w2)
  /\ same_but_cadence (snd (_process_image env self p w1))
                      (snd (_process_image env self p w2)).
Proof.
  intros H. pose proof H as (Hs & Hc & Hn & Hk & Ho).
  unfold _process_image. rewrite Hk.
  destruct (env_read env p) as [b64|];
    [destruct (_create_prompt p) as [prompt|];
     [destruct (env_completion env (w_calls w2) (self_model self) prompt b64)
        as [content|]|]|];
    cbn [fst snd]; (split; [reflexivity|]);
    try (now apply same_but_cadence_print);
    unfold same_but_cadence, called, print;
    cbn [w_store w_now w_calls w_out w_commits];
    rewrite ?filter_app, ?Hs, ?Hc, ?Hn, ?Hk, ?Ho; repeat split; reflexivity.
Qed.

Lemma success_tail_same_but_cadence (env : Env) (b1 b2 : Z)
  (w1 w2 : World) (n i : Z) (p m txt : string) :
  same_but_cadence w1 w2 ->
  let tail (b : Z) (w : World) :=
    let '(current_time, w) := datetime_now env w in
    let w := commit (update_annotation m txt current_time i (w_store w)) w in
    let w := _save_last_processed env p w in
    if (b =? 0)%Z then print (MRecordError i) w
    else if ((n + 1) mod b =? 0)%Z then print (MProgress (n + 1)) w
         else w in
  same_but_cadence (tail b1 w1) (tail b2 w2).
Proof.
  intros (Hs & Hc & Hn & Hk & Ho). cbv zeta.
  unfold _save_last_processed, datetime_now, commit.
  cbn [w_store w_now w_calls w_out w_commits].
  destruct (b1 =? 0)%Z; [|destruct ((n + 1) mod b1 =? 0)%Z];
    (destruct (b2 =? 0)%Z; [|destruct ((n + 1) mod b2 =? 0)%Z]);
    unfold same_but_cadence, print;
    cbn [w_store w_now w_calls w_out w_commits];
    rewrite ?filter_app, ?Hs, ?Hc, ?Hn, ?Hk, ?Ho;
    cbn [filter is_cadence_line negb app]; rewrite ?app_nil_r;
    repeat split; reflexivity.
Qed.

(** One iteration with two batch sizes: the same writes, the same
    count, the same lines but those of the cadence. *)
Lemma process_record_same_but_cadence (env : Env) (self : FlaticonDatasets)
  (b1 b2 : Z) (w1 w2 : World) (n : Z) (rec : Z * string) :
  same_but_cadence w1 w2 ->
  same_but_cadence (fst (process_record env self b1 (w1, n) rec))
                   (fst (process_record env self b2 (w2, n) rec))
  /\ snd (process_record env self b1 (w1, n) rec)
     = snd (process_record env self b2 (w2, n) rec).
Proof.
  destruct rec as [i p]. intros H. unfold process_record.
  destruct (process_image_same_but_cadence env self p
              (print (MProcessing i p) w1) (print (MProcessing i p) w2)
              (same_but_cadence_print _ _ _ H)) as (Hvt & Hw).
  destruct (_process_image env self p (print (MProcessing i p) w1))
    as [vt1 w1'].
  destruct (_process_image env self p (print (MProcessing i p) w2))
    as [vt2 w2'].
  cbn [fst snd] in Hvt, Hw. subst vt2.
  destruct vt1 as [[|c txt]|].
  - cbn [fst snd]. split; [now apply same_but_cadence_print | reflexivity].
  - pose proof (success_tail_same_but_cadence env b1 b2 w1' w2' n i p
                  (self_model self) (String c txt) Hw) as Htail.
    cbv zeta in Htail. unfold datetime_now in *.
    destruct (b1 =? 0)%Z; [|destruct ((n + 1) mod b1 =? 0)%Z];
      (destruct (b2 =? 0)%Z; [|destruct ((n + 1) mod b2 =? 0)%Z]);
      cbn [fst snd]; (split; [exact Htail | reflexivity]).
  - cbn [fst snd]. split; [now apply same_but_cadence_print | reflexivity].
Qed.

Lemma process_records_same_but_cadence (env : Env) (self : FlaticonDatasets)
  (b1 b2 : Z) (l : list (Z * string)) :
  forall w1 w2 n,
    same_but_cadence w1 w2 ->
    same_but_cadence (fst (process_records env self b1 l (w1, n)))
                     (fst (process_records env self b2 l (w2, n)))
    /\ snd (process_records env self b1 l (w1, n))
       = snd (process_records env self b2 l (w2, n)).
Proof.
  induction l as [|rec l IH]; intros w1 w2 n H; [now split|].
  rewrite !process_records_cons.
  destruct (process_record_same_but_cadence env self b1 b2 w1 w2 n rec H)
    as (Hw & Hn).
  destruct (process_record env self b1 (w1, n) rec) as [w1' n1].
  destruct (process_record env self b2 (w2, n) rec) as [w2' n2].
  simpl in Hw, Hn. subst n2. now apply IH.
Qed.

Lemma run_same_but_cadence (env : Env) (self : FlaticonDatasets)
  (b1 b2 : option Z) (w1 w2 : World) :
  same_but_cadence w1 w2 ->
  same_but_cadence (_process_unprocessed_records env self b1 w1)
                   (_process_unprocessed_records env self b2 w2).
Proof.
  intros H. rewrite !process_unprocessed_records_loop. unfold loop_state.
  pose proof H as (Hs & _). rewrite Hs.
  match goal with
  | |- context [process_records env self ?x1 ?l (print ?m w1, 0%Z)] =>
      match goal with
      | |- context [process_records env self ?x2 l (print m w2, 0%Z)] =>
          destruct (process_records_same_but_cadence env self x1 x2 l
                      (print m w1) (print m w2) 0%Z
                      (same_but_cadence_print m w1 w2 H)) as (Hw & Hn)
      end
  end.
  rewrite Hn. now apply same_but_cadence_print.
Qed.

(** C8. Two runs of the annotator, or of the whole pipeline, that
    differ only in the batch size leave the same database (rows and
    counter row), make the same commits in the same order, read the
    clock and call the provider as often, and print the same lines but
    for the progress lines (and, for a batch size of 0, the line of the
    handler that catches the division by zero). *)
Theorem batch_size_only_cadence (env : Env) (self : FlaticonDatasets)
  (tree : Entry) (b1 b2 : option Z) (w : World) :
  same_but_cadence (_process_unprocessed_records env self b1 w)
                   (_process_unprocessed_records env self b2 w)
  /\ same_result_but_cadence (Generate env self tree b1 w)
                             (Generate env self tree b2 w).
Proof.
  split.
  - apply run_same_but_cadence, same_but_cadence_refl.
  - unfold Generate.
    destruct (_scan_and_update_database env self tree (print MStarting w))
      as [w1|w1]; simpl.
    + apply same_but_cadence_print, run_same_but_cadence,
        same_but_cadence_refl.
    + apply same_but_cadence_refl.
Qed.

Example sample_batch_size_one_prints_progress :
  In (MProgress 1)
     (w_out (_process_unprocessed_records Sample.env Sample.self (Some 1%Z)
               Sample.scanned))
  /\ ~ In (MProgress 1)
       (w_out (_process_unprocessed_records Sample.env Sample.self None
                 Sample.scanned)).
Proof.
  split.
  - vm_compute. tauto.
  - vm_compute. intros H.
    repeat (destruct H as [H|H]; [discriminate|]). exact H.
Qed.

Example sample_batch_size_zero_still_annotates :
  w_store (_process_unprocessed_records Sample.env Sample.self (Some 0%Z)
             Sample.scanned)
  = w_store (_process_unprocessed_records Sample.env Sample.self None
               Sample.scanned)
  /\ In (MRecordError 2)
        (w_out (_process_unprocessed_records Sample.env Sample.self
                  (Some 0%Z) Sample.scanned)).
Proof. split; vm_compute; tauto. Qed.

(* ================================================================== *)
(** * Further properties: prompt construction *)
(* ================================================================== *)

Lemma parse_image_path_none_iff (p : string) :
  _parse_image_path p = None <-> ~ well_laid_out p.
Proof.
  unfold well_laid_out. split.
  - intros Hnone Hlong.
    destruct (last_three _ Hlong) as (front & a & b & c & E).
    destruct (rsplit1_head c) as (fb & Hfb & _).
    unfold _parse_image_path in Hnone. rewrite E in Hnone.
    change (-3)%Z with (Z.of_nat 0 - Z.of_nat (List.length [a; b; c]))%Z
      in Hnone.
    change (-2)%Z with (Z.of_nat 1 - Z.of_nat (List.length [a; b; c]))%Z
      in Hnone.
    change (-1)%Z with (Z.of_nat 2 - Z.of_nat (List.length [a; b; c]))%Z
      in Hnone.
    rewrite !index_neg_app in Hnone by (simpl; lia).
    cbn [nth_error] in Hnone. cbv beta iota in Hnone.
    rewrite Hfb in Hnone. discriminate.
  - intros Hshort. unfold _parse_image_path.
    change (-3)%Z with (- Z.of_nat 3)%Z.
    rewrite index_neg_short by lia. reflexivity.
Qed.

Lemma cut_none (sep : ascii) (s : string) :
  Py.cut sep s = None <-> Py.contains sep s = false.
Proof.
  induction s as [|c s IH]; simpl; [tauto|].
  destruct (Ascii.eqb c sep); [split; discriminate|].
  destruct (Py.cut sep s) as [[b a]|].
  - split; [discriminate|]. intros H. apply IH in H. discriminate.
  - split; [intros _; now apply IH | reflexivity].
Qed.

(** [cut] cuts at the first separator: nothing before it holds one. *)
Lemma cut_some (sep : ascii) (s b a : string) :
  Py.cut sep s = Some (b, a) ->
  s = (b ++ String sep a)%string /\ Py.contains sep b = false.
Proof.
  revert b a. induction s as [|c s IH]; simpl; intros b a H; [discriminate|].
  destruct (Ascii.eqb_spec c sep) as [->|Hne].
  - inversion H; subst. now split.
  - destruct (Py.cut sep s) as [[b' a']|] eqn:E; [|discriminate].
    inversion H; subst. destruct (IH b' a eq_refl) as [-> Hb].
    split; [reflexivity|]. simpl.
    apply Ascii.eqb_neq in Hne. now rewrite Hne.
Qed.

(** X1. Building the prompt fails exactly on a path of fewer than three
    segments: the split of the collection on '-' never raises. *)
Theorem create_prompt_fails_only_on_layout (image_path : string) :
  _create_prompt image_path = None <-> ~ well_laid_out image_path.
Proof.
  rewrite <- parse_image_path_none_iff. unfold _create_prompt.
  destruct (_parse_image_path image_path) as [md|]; [|tauto].
  unfold Py.split1.
  destruct (Py.cut "-"%char (md_collection md)) as [[b a]|];
    split; discriminate.
Qed.

(** X2. For a path the parser accepts, the prompt is the fixed text
    filled with the file base name, the type, and the collection cut at
    its first '-': the number is what stands before it and holds no
    '-', the name is everything after it; a collection without '-' is
    all number and has an empty name. *)
Theorem create_prompt_splits_collection (image_path : string)
  (metadata : Metadata) :
  _parse_image_path image_path = Some metadata ->
  exists collection_num collection_name,
    _create_prompt image_path
    = Some (prompt_text collection_num collection_name
              (md_file metadata) (md_type metadata))
    /\ Py.contains "-"%char collection_num = false
    /\ ((Py.contains "-"%char (md_collection metadata) = true
         /\ md_collection metadata
            = (collection_num ++ String "-"%char collection_name)%string)
        \/ (Py.contains "-"%char (md_collection metadata) = false
            /\ collection_num = md_collection metadata
            /\ collection_name = "")).
Proof.
  intros Hparse. unfold _create_prompt. rewrite Hparse. unfold Py.split1.
  destruct (Py.cut "-"%char (md_collection metadata)) as [[b a]|] eqn:E.
  - exists b, a. destruct (cut_some _ _ _ _ E) as [Hc Hb].
    split; [reflexivity|]. split; [exact Hb|]. left. split; [|exact Hc].
    rewrite Hc, contains_app. simpl. now rewrite orb_true_r.
  - exists (md_collection metadata), "". apply cut_none in E.
    split; [reflexivity|]. split; [exact E|]. right. now split.
Qed.

Lemma create_prompt_splits_collection_witness :
  exists collection_num collection_name,
    _create_prompt "train/134332-business-set/png/atm-1.png"
    = Some (prompt_text collection_num collection_name "atm-1" "png")
    /\ Py.contains "-"%char collection_num = false.
Proof.
  destruct (create_prompt_splits_collection
              "train/134332-business-set/png/atm-1.png"
              {| md_collection := "134332-business-set"; md_type := "png";
                 md_file := "atm-1"; md_filename := "atm-1.png" |} eq_refl)
    as (num & name & Hprompt & Hnum & _).
  exists num, name. split; [exact Hprompt | exact Hnum].
Defined.

Example prompt_collection_number_and_name :
  _create_prompt "train/134332-business-set/png/atm-1.png"
  = Some (prompt_text "134332" "business-set" "atm-1" "png").
Proof. reflexivity. Qed.

Lemma create_prompt_fails_only_on_layout_witness :
  ~ well_laid_out "png/atm-1.png" /\ _create_prompt "png/atm-1.png" = None.
Proof.
  assert (~ well_laid_out "png/atm-1.png") as H
    by (unfold well_laid_out; simpl; lia).
  split; [exact H|].
  exact (proj2 (create_prompt_fails_only_on_layout "png/atm-1.png") H).
Defined.

(* ================================================================== *)
(** * Further properties: captioning one image *)
(* ================================================================== *)

(** X3. Captioning one image never writes to the database, never reads
    the clock and commits nothing. It calls the provider exactly once
    when the file can be read and the path has three segments, and not at
    all otherwise; without a provider call its result is [None] and it
    prints the error line. *)
Theorem process_image_calls_provider_once (env : Env)
  (self : FlaticonDatasets) (image_path : string) (w : World) :
  let result := _process_image env self image_path w in
  let w' := snd result in
  w_store w' = w_store w
  /\ w_now w' = w_now w
  /\ w_commits w' = w_commits w
  /\ (env_read env image_path <> None /\ well_laid_out image_path ->
      w_calls w' = S (w_calls w))
  /\ (env_read env image_path = None \/ ~ well_laid_out image_path ->
      w_calls w' = w_calls w
      /\ fst result = None
      /\ w_out w' = w_out w ++ [MImageError image_path]).
Proof.
  cbv zeta. unfold _process_image.
  pose proof (create_prompt_fails_only_on_layout image_path) as Hprompt.
  destruct (env_read env image_path) as [b64|].
  - destruct (_create_prompt image_path) as [prompt|].
    + assert (well_laid_out image_path) as Hok.
      { destruct (Nat.le_gt_cases 3
                    (List.length (Py.split "/"%char image_path)))
          as [H|H]; [exact H|].
        assert (~ well_laid_out image_path) as Hbad
          by (unfold well_laid_out; lia).
        apply Hprompt in Hbad. discriminate. }
      destruct (env_completion env (w_calls w) (self_model self) prompt b64)
        as [content|]; simpl;
        (split; [reflexivity|split; [reflexivity|split; [reflexivity|split]]]);
        try (intros _; reflexivity);
        intros [Hx|Hx]; try discriminate; contradiction.
    + simpl.
      split; [reflexivity|split; [reflexivity|split; [reflexivity|split]]].
      * intros [_ Hok]. exfalso. exact (proj1 Hprompt eq_refl Hok).
      * intros _. repeat split.
  - simpl.
    split; [reflexivity|split; [reflexivity|split; [reflexivity|split]]].
    + intros [Hx _]. congruence.
    + intros _. repeat split.
Qed.

Lemma process_image_calls_provider_once_witness :
  w_calls (snd (_process_image Sample.env Sample.self
                  "train/coll-42-shapes/png/star.png" Sample.scanned))
  = S (w_calls Sample.scanned)
  /\ fst (_process_image Sample.env Sample.self
            "train/coll-42-shapes/png/moon.PNG" Sample.scanned) = None.
Proof.
  split.
  - apply (process_image_calls_provider_once Sample.env Sample.self
             "train/coll-42-shapes/png/star.png" Sample.scanned).
    split; [discriminate | unfold well_laid_out; simpl; lia].
  - apply (process_image_calls_provider_once Sample.env Sample.self
             "train/coll-42-shapes/png/moon.PNG" Sample.scanned).
    left. reflexivity.
Defined.

(* ================================================================== *)
(** * Further properties: the scan pass *)
(* ================================================================== *)

Lemma parse_image_path_some_iff (p : string) :
  _parse_image_path p <> None <-> well_laid_out p.
Proof.
  rewrite parse_image_path_none_iff. unfold well_laid_out. split.
  - intros H.
    destruct (Nat.le_gt_cases 3 (List.length (Py.split "/"%char p)))
      as [Hle|Hgt]; [exact Hle|].
    exfalso. apply H. lia.
  - tauto.
Qed.

Lemma scan_batch_none_exists (files : list string) :
  forall t s, scan_batch t s files = None ->
  Exists (fun p => ~ well_laid_out p) files.
Proof.
  induction files as [|p files IH]; intros t s H; simpl in H;
    [discriminate|].
  destruct (scan_path t s p) as [s1|] eqn:E.
  - apply Exists_cons_tl. eapply IH. exact H.
  - apply Exists_cons_hd. apply parse_image_path_none_iff.
    unfold scan_path in E.
    destruct (_parse_image_path p); [|reflexivity].
    destruct (select_id_by_path (flaticon_images s) p); discriminate.
Qed.

(** X4. A scan pass that returns went over a tree all of whose image
    files have a path of at least three segments: a single shorter path
    makes the pass raise. *)
Theorem scan_returns_only_if_well_laid_out (env : Env)
  (self : FlaticonDatasets) (tree : Entry) (w : World) :
  let files := _get_image_files (base_folder self) tree in
  let result := _scan_and_update_database env self tree w in
  (returned result = true -> Forall well_laid_out files)
  /\ (Exists (fun p => ~ well_laid_out p) files -> returned result = false).
Proof.
  intros files result.
  assert (returned result = true -> Forall well_laid_out files) as Honly.
  { destruct (scan_and_update_database_spec env self tree w)
      as (_ & _ & done & rest & Hfiles & Hdone & Hres).
    fold files result in Hfiles, Hdone, Hres.
    intros Hret. destruct result as [w'|w']; [|discriminate].
    subst rest. rewrite app_nil_r in Hfiles. rewrite Hfiles.
    destruct (scan_batch_known _ _ _ _ Hdone) as (_ & Hknown).
    eapply Forall_impl; [|exact Hknown]. simpl.
    intros p [_ Hp]. now apply parse_image_path_some_iff. }
  split; [exact Honly|].
  intros Hbad. destruct (returned result) eqn:E; [|reflexivity].
  exfalso. specialize (Honly eq_refl).
  apply Exists_exists in Hbad. destruct Hbad as (p & Hp & Hshort).
  rewrite Forall_forall in Honly. exact (Hshort (Honly p Hp)).
Qed.

Lemma scan_returns_only_if_well_laid_out_witness :
  Forall well_laid_out
    (_get_image_files (base_folder Sample.self) Sample.tree)
  /\ returned (_scan_and_update_database Sample.env Sample.self
                 (EDir "train" [EFile "star.png"])
                 (start Sample.store0)) = false.
Proof.
  split.
  - apply (proj1 (scan_returns_only_if_well_laid_out Sample.env Sample.self
                    Sample.tree (start Sample.store0))).
    vm_compute. reflexivity.
  - apply (proj2 (scan_returns_only_if_well_laid_out Sample.env Sample.self
                    (EDir "train" [EFile "star.png"])
                    (start Sample.store0))).
    vm_compute _get_image_files. apply Exists_cons_hd.
    unfold well_laid_out. vm_compute. intros H.
    apply (Nat.lt_irrefl 2). exact H.
Defined.

Lemma fresh_row_pending (t : Z) (r : ImageRecord) :
  fresh_row t r -> pending r = true.
Proof.
  intros (_ & _ & Hu & Hs & _). unfold pending. now rewrite Hu, Hs.
Qed.

(** X5. After a scan pass that returned, every image file of the tree
    has a row. Whatever the outcome, a row whose path was not in the
    table before the pass is for an image file of the tree, carries the
    metadata parsed from its path and the time of the pass, and is
    pending. *)
Theorem scan_registers_every_file (env : Env) (self : FlaticonDatasets)
  (tree : Entry) (w : World) :
  let files := _get_image_files (base_folder self) tree in
  let t := env_clock env (w_now w) in
  let before := flaticon_images (w_store w) in
  let result := _scan_and_update_database env self tree w in
  let after := flaticon_images (w_store (world_of result)) in
  (returned result = true -> forall p, In p files -> In p (paths after))
  /\ (forall r, In r after -> ~ In (image_path r) (paths before) ->
                In (image_path r) files /\ fresh_row t r
                /\ pending r = true).
Proof.
  intros files t before result after.
  destruct (scan_and_update_database_spec env self tree w)
    as (_ & _ & done & rest & Hfiles & Hdone & Hres).
  fold files t result in Hfiles, Hdone, Hres. split.
  - intros Hret p Hp. destruct result as [w'|w']; [|discriminate].
    subst rest. rewrite app_nil_r in Hfiles. subst done.
    destruct (scan_batch_known _ _ _ _ Hdone) as (_ & Hknown).
    rewrite Forall_forall in Hknown. now apply Hknown.
  - intros r Hr Hnew.
    destruct (scan_batch_shape _ _ _ _ Hdone) as (new & Hrows & Hfresh & _).
    fold before after in Hrows. rewrite Hrows in Hr.
    apply in_app_or in Hr. destruct Hr as [Hr|Hr].
    + exfalso. apply Hnew. apply in_map_iff in Hr.
      destruct Hr as (r0 & <- & Hr0). rewrite refresh_image_path.
      now apply in_map.
    + rewrite Forall_forall in Hfresh.
      destruct (Hfresh r Hr) as (_ & Hin & Hf).
      split; [|split; [exact Hf | now apply fresh_row_pending with t]].
      rewrite Hfiles. apply in_or_app. now left.
Qed.

Lemma scan_registers_every_file_witness :
  In "train/coll-42-shapes/png/star.png"
     (paths (flaticon_images (w_store Sample.scanned))).
Proof.
  apply (proj1 (scan_registers_every_file Sample.env Sample.self Sample.tree
                  (start Sample.store0))).
  - vm_compute. reflexivity.
  - vm_compute. tauto.
Defined.

Lemma last_cons_default {A : Type} (l : list A) :
  forall x d, last (x :: l) d = last l x.
Proof.
  induction l as [|y l IH]; intros x d; [reflexivity|].
  change (last (x :: y :: l) d) with (last (y :: l) d).
  now rewrite !IH.
Qed.

(** The outer loop commits once per batch it completes; the database it
    leaves is the last of these commits and holds the batches completed,
    and when it raises the next batch is the one that failed. *)
Lemma scan_loop_batches (t : Z) (files : list string) (m : nat) :
  forall a w,
    let result :=
      scan_loop t files
        (map (fun k => k * SCAN_BATCH_SIZE)%nat (seq a m)) w in
    exists commits,
      w_commits (world_of result) = w_commits w ++ commits
      /\ w_store (world_of result) = last commits (w_store w)
      /\ scan_batch t (w_store w)
           (slice files (a * SCAN_BATCH_SIZE)
              ((a + List.length commits) * SCAN_BATCH_SIZE))
         = Some (w_store (world_of result))
      /\ match result with
         | Returned _ => List.length commits = m
         | Raised w' =>
             (List.length commits < m)%nat
             /\ scan_batch t (w_store w')
                  (slice files
                     ((a + List.length commits) * SCAN_BATCH_SIZE)
                     ((a + List.length commits + 1) * SCAN_BATCH_SIZE))
                = None
         end.
Proof.
  induction m as [|m IH]; intros a w; cbv zeta.
  - cbn [seq map scan_loop world_of]. exists []. cbn [List.length last].
    rewrite app_nil_r, Nat.add_0_r. unfold slice.
    rewrite Nat.sub_diag. cbn [firstn scan_batch]. auto.
  - change (seq a (S m)) with (a :: seq (S a) m).
    rewrite map_cons, scan_loop_cons.
    replace (a * SCAN_BATCH_SIZE + SCAN_BATCH_SIZE)%nat
      with ((a + 1) * SCAN_BATCH_SIZE)%nat by lia.
    destruct (scan_batch t (w_store w)
                (slice files (a * SCAN_BATCH_SIZE)
                   ((a + 1) * SCAN_BATCH_SIZE))) as [s1|] eqn:E.
    + match goal with
      | |- context [scan_loop _ _ _ ?w1] =>
          destruct (IH (S a) w1) as (cs & Hc & Hs & Hb & Hk)
      end.
      cbn [print commit w_commits w_store] in Hc, Hs, Hb.
      exists (s1 :: cs). cbn [List.length].
      split; [rewrite Hc, <- app_assoc; reflexivity|].
      split; [rewrite Hs; symmetry; apply last_cons_default|].
      split.
      * rewrite <- (slice_app files (a * SCAN_BATCH_SIZE)
                      ((a + 1) * SCAN_BATCH_SIZE)
                      ((a + S (List.length cs)) * SCAN_BATCH_SIZE)) by lia.
        rewrite scan_batch_app, E.
        replace ((a + 1) * SCAN_BATCH_SIZE)%nat
          with (S a * SCAN_BATCH_SIZE)%nat by lia.
        now replace ((a + S (List.length cs)) * SCAN_BATCH_SIZE)%nat
          with ((S a + List.length cs) * SCAN_BATCH_SIZE)%nat by lia.
      * match goal with
        | |- match ?r with _ => _ end =>
            destruct r as [w'|w']
        end.
        -- now rewrite Hk.
        -- destruct Hk as (Hlt & Hnone). split; [lia|].
           replace ((a + S (List.length cs)) * SCAN_BATCH_SIZE)%nat
             with ((S a + List.length cs) * SCAN_BATCH_SIZE)%nat by lia.
           now replace ((a + S (List.length cs) + 1) * SCAN_BATCH_SIZE)%nat
             with ((S a + List.length cs + 1) * SCAN_BATCH_SIZE)%nat by lia.
    + exists []. cbn [world_of List.length last].
      rewrite app_nil_r, !Nat.add_0_r. unfold slice at 1.
      rewrite Nat.sub_diag. cbn [firstn scan_batch].
      split; [reflexivity|]. split; [reflexivity|].
      split; [reflexivity|]. split; [lia | exact E].
Qed.

(** X6. The scan pass commits once per batch of 100 paths it completes
    and the database it leaves is its last commit (the one it found when
    it completed none). That database holds the first [j] batches, [j]
    being the number of commits: every path of these batches has a row,
    and every row it added is for one of them. When the pass returned
    these are all the batches; when it raised, files remain, and no
    row of theirs was committed unless it was there before. *)
Theorem scan_commits_whole_batches (env : Env) (self : FlaticonDatasets)
  (tree : Entry) (w : World) :
  let files := _get_image_files (base_folder self) tree in
  let before := flaticon_images (w_store w) in
  let result := _scan_and_update_database env self tree w in
  let after := flaticon_images (w_store (world_of result)) in
  exists commits,
    let j := List.length commits in
    let committed := firstn (j * SCAN_BATCH_SIZE) files in
    w_commits (world_of result) = w_commits w ++ commits
    /\ w_store (world_of result) = last commits (w_store w)
    /\ (forall p, In p committed -> In p (paths after))
    /\ (forall r, In r after -> ~ In (image_path r) (paths before) ->
                  In (image_path r) committed)
    /\ if returned result
       then j = ((List.length files + SCAN_BATCH_SIZE - 1)
                 / SCAN_BATCH_SIZE)%nat
            /\ committed = files
       else (j * SCAN_BATCH_SIZE < List.length files)%nat.
Proof.
  intros files before result after.
  unfold result, after, _scan_and_update_database. fold files.
  cbn [datetime_now]. unfold range_step.
  match goal with
  | |- context [scan_loop ?t files _ ?w1] =>
      destruct (scan_loop_batches t files
                  ((List.length files + SCAN_BATCH_SIZE - 1)
                   / SCAN_BATCH_SIZE) 0 w1) as (cs & Hc & Hs & Hb & Hk);
      set (r := scan_loop t files
                  (map (fun k => (k * SCAN_BATCH_SIZE)%nat)
                     (seq 0 ((List.length files + SCAN_BATCH_SIZE - 1)
                             / SCAN_BATCH_SIZE))) w1) in *
  end.
  cbn [print w_commits w_store Nat.add Nat.mul] in Hc, Hs, Hb, Hk.
  rewrite slice_from_start in Hb.
  exists cs. cbv zeta.
  split; [exact Hc|]. split; [exact Hs|].
  destruct (scan_batch_known _ _ _ _ Hb) as (_ & Hknown).
  destruct (scan_batch_shape _ _ _ _ Hb) as (new & Hrows & Hfresh & _).
  fold before in Hrows, Hfresh.
  split; [|split].
  - intros p Hp. rewrite Forall_forall in Hknown. now apply Hknown.
  - intros r0 Hr0 Hnew.
    assert (In r0 (map (refresh (env_clock env (w_now w))
                          (firstn (List.length cs * SCAN_BATCH_SIZE) files))
                     before ++ new)) as Hr
      by (rewrite <- Hrows; exact Hr0).
    apply in_app_or in Hr. destruct Hr as [Hr|Hr].
    + exfalso. apply Hnew. apply in_map_iff in Hr.
      destruct Hr as (r1 & <- & Hr1). rewrite refresh_image_path.
      now apply in_map.
    + rewrite Forall_forall in Hfresh. now apply Hfresh.
  - destruct r as [w'|w']; cbn [returned].
    + split; [exact Hk|]. rewrite Hk.
      apply firstn_all2, range_step_covers.
    + destruct Hk as (Hlt & Hnone).
      pose proof (scan_batch_none_exists _ _ _ Hnone) as Hbad.
      apply Exists_exists in Hbad. destruct Hbad as (p & Hp & _).
      unfold slice in Hp. apply in_firstn in Hp.
      destruct (Nat.lt_ge_cases (List.length cs * SCAN_BATCH_SIZE)
                  (List.length files)) as [H|H]; [exact H|].
      rewrite skipn_all2 in Hp by exact H. contradiction.
Qed.

Lemma scan_commits_whole_batches_witness :
  exists commits,
    w_commits Sample.scanned = w_commits (start Sample.store0) ++ commits
    /\ List.length commits = 1%nat
    /\ w_store Sample.scanned = last commits Sample.store0.
Proof.
  destruct (scan_commits_whole_batches Sample.env Sample.self Sample.tree
              (start Sample.store0)) as (cs & Hc & Hs & _ & _ & Hk).
  assert (returned (_scan_and_update_database Sample.env Sample.self
                      Sample.tree (start Sample.store0)) = true) as Hret
    by (vm_compute; reflexivity).
  rewrite Hret in Hk. destruct Hk as [Hj _].
  exists cs. split; [exact Hc|]. split; [|exact Hs].
  rewrite Hj. vm_compute. reflexivity.
Defined.

(* ================================================================== *)
(** * Further properties: the annotation run *)
(* ================================================================== *)

Lemma run_store (env : Env) (self : FlaticonDatasets)
  (batch_size : option Z) (w : World) :
  let b := match batch_size with
           | None => DEFAULT_BATCH_SIZE | Some b => b end in
  w_store (_process_unprocessed_records env self batch_size w)
  = w_store (fst (loop_state env self b w
                    (select_unprocessed (flaticon_images (w_store w))))).
Proof. cbv zeta. now rewrite process_unprocessed_records_loop. Qed.

Lemma mask_annotation_update (m txt : string) (t i : Z) (s : Store) :
  map mask_annotation (flaticon_images (update_annotation m txt t i s))
  = map mask_annotation (flaticon_images s).
Proof.
  simpl. rewrite map_map. apply map_ext. intros r.
  now destruct (id r =? i)%Z.
Qed.

(** X7. The annotation run adds and removes no row, keeps the order of
    the rows and changes no column but [model], [text] and
    [updated_when]: in particular it never sets [skipped]; it leaves the
    AUTOINCREMENT counter alone. *)
Theorem annotator_writes_three_columns (env : Env)
  (self : FlaticonDatasets) (batch_size : option Z) (w : World) :
  let w' := _process_unprocessed_records env self batch_size w in
  map mask_annotation (flaticon_images (w_store w'))
  = map mask_annotation (flaticon_images (w_store w))
  /\ sqlite_sequence (w_store w') = sqlite_sequence (w_store w).
Proof.
  cbv zeta. rewrite run_store. unfold loop_state.
  apply (process_records_invariant env self _
           (fun s => map mask_annotation (flaticon_images s)
                     = map mask_annotation (flaticon_images (w_store w))
                     /\ sqlite_sequence s = sqlite_sequence (w_store w))).
  - intros m txt t i s _ [Hrows Hseq]. split; [|exact Hseq].
    now rewrite mask_annotation_update.
  - intros p t s H. exact H.
  - now split.
Qed.

Lemma snapshot_ids_pending (rows : list ImageRecord) (r : ImageRecord) :
  NoDup (ids rows) -> In r rows ->
  In (id r) (map fst (select_unprocessed rows)) -> pending r = true.
Proof.
  intros Hn Hr Hin. apply in_map_iff in Hin.
  destruct Hin as ([i q] & Hi & Hin). simpl in Hi. subst i.
  destruct (proj1 (select_unprocessed_spec rows) _ _ Hin)
    as (r0 & Hr0 & Hid & _ & Hp).
  now rewrite <- (NoDup_map_inj_in id rows r0 r Hn Hr0 Hr Hid).
Qed.

(** X8. With unique ids, the annotation run leaves every row that is not
    pending exactly as it is: an annotated row is never captioned again
    or overwritten, a skipped row is never touched. *)
Theorem annotator_leaves_terminal_rows (env : Env)
  (self : FlaticonDatasets) (batch_size : option Z) (w : World)
  (r : ImageRecord) :
  let rows := flaticon_images (w_store w) in
  let w' := _process_unprocessed_records env self batch_size w in
  NoDup (ids rows) -> In r rows -> pending r = false ->
  In r (flaticon_images (w_store w'))
  /\ forall q, ~ In (id r, q) (select_unprocessed rows).
Proof.
  intros rows w' Hn Hr Hp.
  assert (~ In (id r) (map fst (select_unprocessed rows))) as Hout.
  { intros Hin. rewrite (snapshot_ids_pending rows r Hn Hr Hin) in Hp.
    discriminate. }
  split.
  - unfold w'. rewrite run_store. unfold loop_state.
    now apply process_records_other_rows.
  - intros q Hin. apply Hout. now apply (in_map fst _ (id r, q)).
Qed.

Lemma annotator_leaves_terminal_rows_witness :
  let w1 := _process_unprocessed_records Sample.env Sample.self None
              Sample.scanned in
  NoDup (ids (flaticon_images (w_store w1)))
  /\ forall r, In r (flaticon_images (w_store w1)) -> pending r = false ->
       In r (flaticon_images
               (w_store (_process_unprocessed_records Sample.env Sample.self
                           None w1))).
Proof.
  intros w1.
  assert (NoDup (ids (flaticon_images (w_store w1)))) as Hn.
  { vm_compute. constructor; [|constructor; [|constructor]].
    - intros [H|[]]. discriminate.
    - intros []. }
  split; [exact Hn|]. intros r Hr Hp.
  exact (proj1 (annotator_leaves_terminal_rows Sample.env Sample.self None
                  w1 r Hn Hr Hp)).
Defined.



Lemma process_record_calls (env : Env) (self : FlaticonDatasets)
  (batch_size : Z) (w : World) (n : Z) (rec : Z * string) :
  let w' := fst (process_record env self batch_size (w, n) rec) in
  (w_calls w <= w_calls w' <= S (w_calls w))%nat.
Proof.
  destruct rec as [i p]. cbv zeta. unfold process_record, _process_image.
  cbn [print w_calls].
  destruct (env_read env p) as [b64|];
    [destruct (_create_prompt p) as [prompt|];
     [destruct (env_completion env (w_calls w) (self_model self) prompt b64)
        as [[[|c txt]|]|]|]|];
    try (destruct (batch_size =? 0)%Z;
         [|destruct ((n + 1) mod batch_size =? 0)%Z]);
    unfold _save_last_processed, datetime_now, commit, called, print;
    cbn [fst snd w_calls]; lia.
Qed.

(** The loop counts its successes: each one costs two commits and two
    clock readings, each record at most one provider call. *)
Lemma process_records_accounting (env : Env) (self : FlaticonDatasets)
  (batch_size : Z) (l : list (Z * string)) :
  forall w n,
    let st' := process_records env self batch_size l (w, n) in
    exists k : nat,
      snd st' = (n + Z.of_nat k)%Z
      /\ (k <= List.length l)%nat
      /\ List.length (w_commits (fst st'))
         = (List.length (w_commits w) + 2 * k)%nat
      /\ w_now (fst st') = (w_now w + 2 * k)%nat
      /\ (w_calls w <= w_calls (fst st') <= w_calls w + List.length l)%nat
      /\ (k = 0%nat ->
          w_store (fst st') = w_store w
          /\ w_commits (fst st') = w_commits w).
Proof.
  induction l as [|[i p] l IH]; intros w n; cbv zeta.
  - exists 0%nat. cbn. repeat split; lia.
  - rewrite process_records_cons.
    pose proof (process_record_calls env self batch_size w n (i, p)) as Hcalls.
    cbv zeta in Hcalls.
    destruct (truthy_cases
                (vision_text env self p (print (MProcessing i p) w)))
      as [Hf|(txt & Htxt & Hne)].
    + pose proof (process_record_failure env self batch_size w n i p Hf)
        as Hstep.
      destruct (process_record env self batch_size (w, n) (i, p))
        as [w1 n1].
      cbn [fst snd] in Hstep, Hcalls.
      destruct Hstep as (Hs & Hn & Hc & Hcount & _). subst n1.
      destruct (IH w1 n) as (k & Hk & Hle & Hlen & Hnow & Hcl & Hzero).
      exists k. rewrite Hk, Hlen, Hnow, Hc, Hn. cbn [List.length].
      split; [reflexivity|]. split; [lia|]. split; [reflexivity|].
      split; [reflexivity|]. split; [lia|].
      intros Hz. destruct (Hzero Hz) as [Hs1 Hc1].
      split; [now rewrite Hs1 | now rewrite Hc1].
    + pose proof (process_record_success env self batch_size w n i p txt
                    Htxt Hne) as Hstep.
      destruct (process_record env self batch_size (w, n) (i, p))
        as [w1 n1].
      cbn [fst snd] in Hstep, Hcalls. cbv zeta in Hstep.
      destruct Hstep as (_ & Hn & Hc & Hcount & _). subst n1.
      destruct (IH w1 (n + 1)%Z) as (k & Hk & Hle & Hlen & Hnow & Hcl & _).
      exists (S k). rewrite Hk, Hlen, Hnow, Hc, Hn, length_app.
      cbn [List.length].
      split; [lia|]. split; [lia|]. split; [lia|].
      split; [lia|]. split; [lia|]. intros Hz. discriminate.
Qed.

(** X10. The count the run reports at its end is the number of records
    it annotated: it is at most the size of the snapshot, the run made
    twice as many commits and read the clock twice as often, and it
    called the provider at most once per record of the snapshot. A run
    that annotated nothing committed nothing and leaves the database
    exactly as it found it. *)
Theorem annotator_accounting (env : Env) (self : FlaticonDatasets)
  (batch_size : option Z) (w : World) :
  let snapshot := select_unprocessed (flaticon_images (w_store w)) in
  let w' := _process_unprocessed_records env self batch_size w in
  exists (k : nat) (o : list Msg),
    w_out w' = o ++ [MComplete (Z.of_nat k)]
    /\ (k <= List.length snapshot)%nat
    /\ List.length (w_commits w')
       = (List.length (w_commits w) + 2 * k)%nat
    /\ w_now w' = (w_now w + 2 * k)%nat
    /\ (w_calls w <= w_calls w' <= w_calls w + List.length snapshot)%nat
    /\ (k = 0%nat ->
        w_store w' = w_store w /\ w_commits w' = w_commits w).
Proof.
  intros snapshot w'. unfold w'.
  rewrite process_unprocessed_records_loop. unfold loop_state.
  fold snapshot.
  match goal with
  | |- context [process_records env self ?b snapshot (?w0, 0%Z)] =>
      destruct (process_records_accounting env self b snapshot w0 0%Z)
        as (k & Hk & Hle & Hlen & Hnow & Hcl & Hzero);
      destruct (process_records env self b snapshot (w0, 0%Z)) as [w1 n1]
  end.
  cbn [fst snd print w_out w_commits w_now w_calls w_store] in *.
  exists k, (w_out w1). rewrite Hk. cbn [Z.add].
  split; [reflexivity|]. split; [exact Hle|]. split; [exact Hlen|].
  split; [exact Hnow|]. split; [exact Hcl | exact Hzero].
Qed.

Lemma annotator_accounting_witness :
  let unreadable :=
    {| env_clock := env_clock Sample.env;
       env_read := fun _ => None;
       env_completion := env_completion Sample.env |} in
  let w' := _process_unprocessed_records unreadable Sample.self None
              Sample.scanned in
  w_store w' = w_store Sample.scanned
  /\ w_commits w' = w_commits Sample.scanned.
Proof.
  intros unreadable w'.
  destruct (annotator_accounting unreadable Sample.self None Sample.scanned)
    as (k & o & Hout & _ & _ & _ & _ & Hzero).
  apply Hzero.
  apply (f_equal (fun l => last l MStarting)) in Hout.
  rewrite last_last in Hout.
  assert (last (w_out w') MStarting = MComplete 0) as Hlast
    by (vm_compute; reflexivity).
  fold w' in Hout. rewrite Hlast in Hout. inversion Hout. lia.
Defined.

(** X11. The annotation run makes no new work: a record that the next
    snapshot holds was already in this one. *)
Theorem annotator_never_adds_work (env : Env) (self : FlaticonDatasets)
  (batch_size : option Z) (w : World) (i : Z) (q : string) :
  let w' := _process_unprocessed_records env self batch_size w in
  In (i, q) (select_unprocessed (flaticon_images (w_store w'))) ->
  In (i, q) (select_unprocessed (flaticon_images (w_store w))).
Proof.
  intros w' Hin.
  assert (forall r, In r (flaticon_images (w_store w')) ->
                    pending r = true ->
                    In r (flaticon_images (w_store w))) as Hinv.
  { unfold w'. rewrite run_store. unfold loop_state.
    apply (process_records_invariant env self _
             (fun s => forall r, In r (flaticon_images s) ->
                                 pending r = true ->
                                 In r (flaticon_images (w_store w)))).
    - intros m txt t j s _ H r Hr Hp. simpl in Hr.
      apply in_map_iff in Hr. destruct Hr as (r0 & Hr0 & Hin0).
      destruct (id r0 =? j)%Z.
      + subst r. discriminate.
      + subst r. now apply H.
    - intros p t s H. exact H.
    - intros r Hr _. exact Hr. }
  destruct (proj1 (select_unprocessed_spec _) i q Hin)
    as (r & Hr & Hid & Hpath & Hp).
  subst i q.
  apply (proj1 (proj2 (select_unprocessed_spec _))); [|exact Hp].
  now apply Hinv.
Qed.

Lemma annotator_never_adds_work_witness :
  let w' := _process_unprocessed_records Sample.env Sample.self None
              Sample.scanned in
  In (1%Z, "train/coll-42-shapes/png/moon.PNG")
     (select_unprocessed (flaticon_images (w_store w')))
  /\ In (1%Z, "train/coll-42-shapes/png/moon.PNG")
        (select_unprocessed (flaticon_images (w_store Sample.scanned))).
Proof.
  intros w'.
  assert (In (1%Z, "train/coll-42-shapes/png/moon.PNG")
             (select_unprocessed (flaticon_images (w_store w')))) as H
    by (vm_compute; left; reflexivity).
  split; [exact H|].
  exact (annotator_never_adds_work Sample.env Sample.self None
           Sample.scanned _ _ H).
Defined.

(* ================================================================== *)
(** * Further properties: the counter row *)
(* ================================================================== *)

(** X12. On a database that the constructor initialised, whatever it
    held, saving a non-empty path and loading gives the path back; saving
    changes no image row. When the database had no counter row, loading
    right after the constructor gives [None]. *)
Theorem last_processed_round_trip (env : Env)
  (base_folder db_file : option string) (db : Database) (w : World)
  (p : string) :
  let s := snd (__init__ base_folder db_file db) in
  w_store w = s ->
  (p <> "" ->
   _load_last_processed (w_store (_save_last_processed env p w)) = Some p)
  /\ flaticon_images (w_store (_save_last_processed env p w))
     = flaticon_images s
  /\ ((db_processing_count db = None \/ db_processing_count db = Some None)
      -> _load_last_processed s = None).
Proof.
  intros s Hw. unfold _save_last_processed, _load_last_processed.
  cbn [datetime_now commit w_store update_processing_count processing_count
         flaticon_images].
  rewrite Hw. unfold s. cbn [__init__ snd _init_database processing_count].
  split; [|split].
  - intros Hp. unfold _init_database. cbn [processing_count option_map].
    destruct (db_flaticon_images db) as [[? ?|? ?]|];
      cbn [processing_count option_map pc_image_path Py.truthy];
      destruct p; congruence.
  - unfold _init_database.
    now destruct (db_flaticon_images db) as [[? ?|? ?]|].
  - intros [H|H]; unfold _init_database; rewrite H;
      now destruct (db_flaticon_images db) as [[? ?|? ?]|].
Qed.

Lemma last_processed_round_trip_witness :
  _load_last_processed
    (w_store (_save_last_processed Sample.env
                "train/coll-42-shapes/png/star.png" (start Sample.store0)))
  = Some "train/coll-42-shapes/png/star.png"
  /\ _load_last_processed Sample.store0 = None.
Proof.
  destruct (last_processed_round_trip Sample.env (Some "train") None
              {| db_flaticon_images := None; db_processing_count := None |}
              (start Sample.store0) "train/coll-42-shapes/png/star.png"
              eq_refl) as (Hsave & _ & Hnone).
  split.
  - apply Hsave. discriminate.
  - apply Hnone. now left.
Defined.

(** X13. After a run, the counter row holds the path of the last record
    it annotated, with the clock reading of that save: when the
    captioning of a record of the snapshot succeeded and the count did
    not grow after it, the row (there is one since the constructor ran)
    holds the path of that record. *)
Theorem counter_row_tracks_last_success (env : Env)
  (self : FlaticonDatasets) (batch_size : option Z) (w : World)
  (pre post : list (Z * string)) (i : Z) (p txt : string) :
  let rows := flaticon_images (w_store w) in
  let b := match batch_size with
           | None => DEFAULT_BATCH_SIZE | Some b => b end in
  let st := loop_state env self b w pre in
  let w' := _process_unprocessed_records env self batch_size w in
  processing_count (w_store w) <> None ->
  select_unprocessed rows = pre ++ (i, p) :: post ->
  vision_text env self p (fst st) = Some txt ->
  txt <> "" ->
  snd (loop_state env self b w (pre ++ (i, p) :: post))
  = snd (loop_state env self b w (pre ++ [(i, p)])) ->
  processing_count (w_store w')
  = Some {| pc_image_path := Some p;
            pc_updated_when := Some (env_clock env (S (w_now (fst st)))) |}.
Proof.
  intros rows b st w' Hrow Hsnap Htxt Hne Hcount.
  subst st. unfold w'. rewrite run_store. fold rows b. rewrite Hsnap.
  unfold loop_state in *.
  rewrite !process_records_app, !process_records_cons in Hcount.
  rewrite process_records_app, process_records_cons.
  revert Hcount Htxt.
  assert (processing_count
            (w_store (fst (process_records env self b pre
               (print (MFound (List.length
                         (select_unprocessed
                            (flaticon_images (w_store w))))) w,
                0%Z)))) <> None) as Hk.
  { apply (process_records_invariant env self b
             (fun s => processing_count s <> None)); [| |exact Hrow].
    - intros m x t j s _ H. exact H.
    - intros q t s H. simpl. now destruct (processing_count s). }
  revert Hk.
  destruct (process_records env self b pre _) as [wk nk].
  cbn [fst]. intros Hk Hcount Htxt.
  assert (vision_text env self p (print (MProcessing i p) wk) = Some txt)
    as Htxt'.
  { unfold vision_text in *.
    now rewrite (proj1 (process_image_calls env self p
                          (print (MProcessing i p) wk) wk eq_refl)). }
  pose proof (process_record_success env self b wk nk i p txt Htxt' Hne)
    as Hstep.
  revert Hcount Hstep.
  destruct (process_record env self b (wk, nk) (i, p)) as [w1 n1].
  cbn [fst snd]. cbv zeta. intros Hcount (Hs & _).
  change (process_records env self b [] (w1, n1)) with (w1, n1) in Hcount.
  cbn [snd] in Hcount.
  destruct (process_records_accounting env self b post w1 n1)
    as (k & Hsnd & _ & _ & _ & _ & Hzero).
  rewrite Hsnd in Hcount.
  assert (k = 0%nat) as Hk0 by lia.
  rewrite (proj1 (Hzero Hk0)), Hs. simpl.
  destruct (processing_count (w_store wk)); [reflexivity | congruence].
Qed.

Lemma counter_row_tracks_last_success_witness :
  _load_last_processed
    (w_store (_process_unprocessed_records Sample.env Sample.self None
                Sample.scanned))
  = Some "train/coll-42-shapes/png/star.png".
Proof.
  assert ("five-pointed star" <> "") as Hne by discriminate.
  assert (processing_count (w_store Sample.scanned) <> None) as Hrow
    by (vm_compute; discriminate).
  unfold _load_last_processed.
  rewrite (counter_row_tracks_last_success Sample.env Sample.self None
             Sample.scanned [(1%Z, "train/coll-42-shapes/png/moon.PNG")] []
             2%Z "train/coll-42-shapes/png/star.png" "five-pointed star"
             Hrow sample_snapshot_star sample_star_caption Hne eq_refl).
  reflexivity.
Defined.

(* ================================================================== *)
(** * Further properties: the whole pipeline *)
(* ================================================================== *)

Lemma in_processed (o : list Msg) (i : Z) (q : string) :
  In (i, q) (processed o) <-> In (MProcessing i q) o.
Proof.
  unfold processed. rewrite in_flat_map. split.
  - intros (m & Hm & Hin). destruct m; simpl in Hin; try contradiction.
    destruct Hin as [E|[]]. inversion E; subst. exact Hm.
  - intros H. exists (MProcessing i q). split; [exact H | now left].
Qed.

Lemma scan_loop_out (t : Z) (files : list string) (starts : list nat) :
  forall w,
    exists o,
      w_out (world_of (scan_loop t files starts w)) = w_out w ++ o.
Proof.
  induction starts as [|k starts IH]; intros w.
  - exists [MScanComplete]. reflexivity.
  - rewrite scan_loop_cons.
    destruct (scan_batch t (w_store w)
                (slice files k (k + SCAN_BATCH_SIZE))) as [s1|].
    + destruct (IH (print (MBatch (k / SCAN_BATCH_SIZE + 1)
                             ((List.length files + SCAN_BATCH_SIZE - 1)
                              / SCAN_BATCH_SIZE)) (commit s1 w)))
        as (o & Ho).
      eexists. rewrite Ho. cbn [print commit w_out].
      rewrite <- app_assoc. reflexivity.
    + exists []. cbn [world_of]. now rewrite app_nil_r.
Qed.

Lemma scan_and_update_database_out (env : Env) (self : FlaticonDatasets)
  (tree : Entry) (w : World) :
  exists o,
    w_out (world_of (_scan_and_update_database env self tree w))
    = w_out w ++ o.
Proof.
  unfold _scan_and_update_database. cbn [datetime_now].
  match goal with
  | |- context [scan_loop ?t ?files ?starts ?w0] =>
      destruct (scan_loop_out t files starts w0) as (o & Ho)
  end.
  eexists. rewrite Ho. cbn [print w_out]. rewrite <- app_assoc.
  reflexivity.
Qed.

(** X14. When [Generate] returns, every image file of the tree that had
    no row before went through the captioning in this very run: the
    scan inserted it as pending and the annotator, which follows,
    selected it. *)
Theorem generate_captions_new_files (env : Env) (self : FlaticonDatasets)
  (tree : Entry) (batch_size : option Z) (w w' : World) (p : string) :
  Generate env self tree batch_size w = Returned w' ->
  In p (_get_image_files (base_folder self) tree) ->
  ~ In p (paths (flaticon_images (w_store w))) ->
  exists i o, w_out w' = w_out w ++ o /\ In (MProcessing i p) o.
Proof.
  unfold Generate. intros Hgen Hfile Hnew.
  destruct (scan_and_update_database_spec env self tree (print MStarting w))
    as (_ & _ & done & rest & Hfiles & Hdone & Hres).
  destruct (scan_and_update_database_out env self tree (print MStarting w))
    as (o1 & Ho1).
  cbn [print w_out] in Ho1. rewrite <- app_assoc in Ho1.
  destruct (_scan_and_update_database env self tree (print MStarting w))
    as [ws|ws]; [|discriminate].
  cbn [world_of print w_store w_now] in *.
  subst rest. rewrite app_nil_r in Hfiles. subst done.
  inversion Hgen as [Hw']. clear Hgen.
  destruct (scan_batch_known _ _ _ _ Hdone) as (_ & Hknown).
  destruct (scan_batch_shape _ _ _ _ Hdone) as (new & Hrows & Hfresh & _).
  rewrite Forall_forall in Hknown, Hfresh.
  destruct (Hknown p Hfile) as [Hin _].
  unfold paths in Hin. rewrite Hrows, map_app in Hin.
  apply in_app_or in Hin. destruct Hin as [Hin|Hin].
  - exfalso. apply Hnew. rewrite map_map in Hin.
    apply in_map_iff in Hin. destruct Hin as (r0 & Hp0 & Hr0).
    rewrite refresh_image_path in Hp0. subst p. now apply in_map.
  - apply in_map_iff in Hin. destruct Hin as (r & Hp & Hr).
    destruct (Hfresh r Hr) as (_ & _ & Hf).
    assert (In (id r, image_path r)
               (select_unprocessed (flaticon_images (w_store ws)))) as Hsel.
    { apply (proj1 (proj2 (select_unprocessed_spec _)));
        [|now apply fresh_row_pending with (env_clock env (w_now w))].
      rewrite Hrows. apply in_or_app. now right. }
    destruct (run_processed env self
                (Some match batch_size with
                      | Some b => b | None => DEFAULT_BATCH_SIZE end) ws)
      as (o & Ho & Hpo).
    rewrite <- Hpo in Hsel. apply in_processed in Hsel.
    exists (id r), ([MStarting] ++ o1 ++ o ++ [MAllComplete]). split.
    + cbn [print w_out]. rewrite Ho, Ho1, <- !app_assoc. reflexivity.
    + rewrite <- Hp. apply in_or_app. right. apply in_or_app. right.
      apply in_or_app. now left.
Qed.

Lemma generate_captions_new_files_witness :
  exists i o,
    w_out (world_of (Generate Sample.env Sample.self Sample.tree None
                       (start Sample.store0)))
    = w_out (start Sample.store0) ++ o
    /\ In (MProcessing i "train/coll-42-shapes/png/star.png") o.
Proof.
  apply (generate_captions_new_files Sample.env Sample.self Sample.tree None
           (start Sample.store0)).
  - vm_compute. reflexivity.
  - vm_compute. tauto.
  - vm_compute. tauto.
Defined.

Lemma scan_raises_on_short_path (env : Env) (self : FlaticonDatasets)
  (tree : Entry) (w : World) :
  Exists (fun p => ~ well_laid_out p)
    (_get_image_files (base_folder self) tree) ->
  returned (_scan_and_update_database env self tree w) = false.
Proof.
  intros Hbad.
  destruct (scan_and_update_database_spec env self tree w)
    as (_ & _ & done & rest & Hfiles & Hdone & Hres).
  destruct (_scan_and_update_database env self tree w) as [w'|w'];
    [|reflexivity].
  exfalso. subst rest. rewrite app_nil_r in Hfiles. subst done.
  destruct (scan_batch_known _ _ _ _ Hdone) as (_ & Hknown).
  apply Exists_exists in Hbad. destruct Hbad as (p & Hp & Hshort).
  rewrite Forall_forall in Hknown. destruct (Hknown p Hp) as [_ Hparse].
  now apply parse_image_path_some_iff in Hparse.
Qed.

(** X15. A single image file with a path of fewer than three segments
    makes [Generate] raise before any captioning: the provider is never
    called, the clock is read once (by the scan) and nothing that the
    annotator writes is written: every row keeps its [model], [text] and
    [updated_when], and the counter row is as it was. *)
Theorem generate_raises_before_captioning (env : Env)
  (self : FlaticonDatasets) (tree : Entry) (batch_size : option Z)
  (w : World) :
  let result := Generate env self tree batch_size w in
  Exists (fun p => ~ well_laid_out p)
    (_get_image_files (base_folder self) tree) ->
  returned result = false
  /\ w_calls (world_of result) = w_calls w
  /\ w_now (world_of result) = S (w_now w)
  /\ processing_count (w_store (world_of result))
     = processing_count (w_store w)
  /\ (forall r, In r (flaticon_images (w_store (world_of result))) ->
                updated_when r <> None ->
                exists r0, In r0 (flaticon_images (w_store w))
                           /\ mask_scanned_when r0 = mask_scanned_when r).
Proof.
  intros result Hbad. unfold result, Generate.
  pose proof (scan_raises_on_short_path env self tree (print MStarting w) Hbad)
    as Hret.
  destruct (scan_and_update_database_spec env self tree (print MStarting w))
    as (Hnow & Hcalls & done & rest & _ & Hdone & _).
  destruct (_scan_and_update_database env self tree (print MStarting w))
    as [ws|ws]; [discriminate|].
  cbn [world_of print w_store w_now w_calls returned] in *.
  destruct (scan_batch_shape _ _ _ _ Hdone) as (new & Hrows & Hfresh & Hpc).
  split; [reflexivity|]. split; [exact Hcalls|]. split; [exact Hnow|].
  split; [exact Hpc|].
  intros r Hr Hupd. rewrite Hrows in Hr. apply in_app_or in Hr.
  destruct Hr as [Hr|Hr].
  - apply in_map_iff in Hr. destruct Hr as (r0 & <- & Hr0).
    exists r0. split; [exact Hr0|]. now rewrite refresh_masked.
  - exfalso. rewrite Forall_forall in Hfresh.
    destruct (Hfresh r Hr) as (_ & _ & _ & _ & Hnone & _). contradiction.
Qed.

Lemma generate_raises_before_captioning_witness :
  let flat := EDir "train" [EFile "top.png"] in
  let result := Generate Sample.env Sample.self flat None
                  (start Sample.store0) in
  returned result = false /\ w_calls (world_of result) = 0%nat.
Proof.
  intros flat result.
  destruct (generate_raises_before_captioning Sample.env Sample.self flat
              None (start Sample.store0)) as (Hret & Hcalls & _).
  - apply Exists_cons_hd. unfold well_laid_out. simpl. lia.
  - split; [exact Hret | exact Hcalls].
Defined.
